(** * Liminal: a shallow embedding of the LMN parser and virtual machine

    The development follows the three source modules:
    - [errors.py]  : the exception classes, as the inductive [Exn];
    - [parser.py]  : the program tree, [Tokenizer] and [Parser];
    - [vm.py]      : [VMConfig], [ExecutionResult] and [VirtualMachine].

    Python values are modelled as follows.  A [str] is a Rocq [string] (code
    points below 256), an [int] is a [Z], a [list] is a [list] whose last
    element is the top of the stack, a [dict] is a [gmap] (dictionary equality
    and [len] do not depend on insertion order).  An exception is a value of
    [Exn]; a method that mutates [self] and may raise returns a
    [Completion]. *)

From Stdlib Require Import ZArith Ascii String List Bool Lia DecimalString.
From stdpp Require Import base gmap strings list.

Local Open Scope Z_scope.

(** ** Python string primitives used by the sources *)

Module PyStr.

(** [str(n)] for an [int]. *)
Definition of_Z (n : Z) : string := NilZero.string_of_int (Z.to_int n).

(** [c.isspace()] on code points below 256. *)
Definition is_space (c : ascii) : bool :=
  let n := N_of_ascii c in
  ((9 <=? n) && (n <=? 13) || (28 <=? n) && (n <=? 32)
   || (n =? 133) || (n =? 160))%N.

Definition is_digit (c : ascii) : bool :=
  let n := N_of_ascii c in ((48 <=? n) && (n <=? 57))%N.

Definition is_upper (c : ascii) : bool :=
  let n := N_of_ascii c in ((65 <=? n) && (n <=? 90))%N.

Definition is_lower (c : ascii) : bool :=
  let n := N_of_ascii c in ((97 <=? n) && (n <=? 122))%N.

Definition digit_value (c : ascii) : Z := Z.of_N (N_of_ascii c) - 48.

Definition is_empty (s : string) : bool :=
  match s with EmptyString => true | String _ _ => false end.

(** [s.lstrip()], [s.rstrip()], [s.strip()]. *)
Fixpoint lstrip (s : string) : string :=
  match s with
  | EmptyString => EmptyString
  | String c r => if is_space c then lstrip r else s
  end.

Fixpoint rstrip (s : string) : string :=
  match s with
  | EmptyString => EmptyString
  | String c r =>
      let r' := rstrip r in
      if is_space c && is_empty r' then EmptyString else String c r'
  end.

Definition strip (s : string) : string := rstrip (lstrip s).

(** [s.split()]: the maximal runs of non-space characters, in order.
    [cur] is the run being read. *)
Fixpoint split_go (cur : string) (s : string) : list string :=
  match s with
  | EmptyString => if is_empty cur then [] else [cur]
  | String c r =>
      if is_space c
      then (if is_empty cur then split_go EmptyString r
            else cur :: split_go EmptyString r)
      else split_go (cur +:+ String c EmptyString) r
  end.

Definition split (s : string) : list string := split_go EmptyString s.

(** [s.startswith(p)]. *)
Definition startswith (s p : string) : bool := String.prefix p s.

(** [s.count(c)] for a one-character [c]. *)
Fixpoint count (c : ascii) (s : string) : Z :=
  match s with
  | EmptyString => 0
  | String d r => (if Ascii.eqb c d then 1 else 0) + count c r
  end.

(** The digits of an [int(...)] literal: decimal digits, where one
    underscore may stand between two digits. *)
Fixpoint int_digits (acc : Z) (after_digit : bool) (s : string) : option Z :=
  match s with
  | EmptyString => if after_digit then Some acc else None
  | String c r =>
      if is_digit c then int_digits (10 * acc + digit_value c) true r
      else if Ascii.eqb c "_"%char
           then (if after_digit then int_digits acc false r else None)
           else None
  end.

(** The limit that the interpreter sets on the number of digits of an
    [int(...)] literal, [sys.get_int_max_str_digits()], as it is by
    default. *)
Definition int_max_str_digits : Z := 4300.

(** The digits that are counted against the limit: every decimal digit,
    leading zeros too; an underscore is not counted. *)
Fixpoint digit_count (s : string) : Z :=
  match s with
  | EmptyString => 0
  | String c r => (if is_digit c then 1 else 0) + digit_count r
  end.

(** A literal without its sign: its digits are checked, then counted. *)
Definition int_literal (s : string) : option Z :=
  match int_digits 0 false s with
  | Some n => if int_max_str_digits <? digit_count s then None else Some n
  | None => None
  end.

(** [int(s)] in base ten: surrounding white space, an optional sign, then
    the digits, no more of them than the limit.  [None] is [ValueError]. *)
Definition int (s : string) : option Z :=
  match strip s with
  | String "+"%char r => int_literal r
  | String "-"%char r => Z.opp <$> int_literal r
  | r => int_literal r
  end.

End PyStr.

(** ** errors.py *)

(** The exception classes that the virtual machine raises, with the message
    each is built with, and the three built-in exceptions that Python raises
    on a program tree the parser would not have built. *)
Inductive Exn : Type :=
| StackOverflowError (message : string)
| BindingsOverflowError (message : string)
| CycleLimitError (message : string)
| OperationLimitError (message : string)
| ConditionError (message : string)
| BreakBlock
| HaltProgram
| IndexError
| TypeError
| AttributeError.

(** [ParseError(message, line)]. *)
Record ParseError : Type := mkParseError {
  pe_message : string;
  pe_line : option Z
}.

(** ** parser.py: the program tree *)

(** [Argument.value] is declared [Any]; the parser stores a [str], an [int]
    or a list of operations there. *)
Inductive Value : Type :=
| VStr (s : string)
| VInt (n : Z)
| VBlock (ops : list Operation)
with Operation : Type :=
| mkOperation (operator : string) (arguments : list Argument) (line : Z)
with Argument : Type :=
| mkArgument (type : string) (value : Value).

Definition operator (op : Operation) : string :=
  match op with mkOperation o _ _ => o end.
Definition arguments (op : Operation) : list Argument :=
  match op with mkOperation _ a _ => a end.
Definition line (op : Operation) : Z :=
  match op with mkOperation _ _ l => l end.
Definition type (a : Argument) : string :=
  match a with mkArgument t _ => t end.
Definition value (a : Argument) : Value :=
  match a with mkArgument _ v => v end.

Record Phase : Type := mkPhase {
  name : string;
  operations : list Operation
}.

Record Program : Type := mkProgram {
  phases : list Phase
}.

(** [OPERATOR_ARITY]: the dictionary as a lookup function. *)
Definition OPERATOR_ARITY (operator : string) : option nat :=
  if String.eqb operator "PUSH" then Some 1%nat
  else if String.eqb operator "INVERT" then Some 0%nat
  else if String.eqb operator "BIND" then Some 2%nat
  else if String.eqb operator "RELEASE" then Some 1%nat
  else if String.eqb operator "GATE" then Some 1%nat
  else if String.eqb operator "SATURATE" then Some 1%nat
  else if String.eqb operator "WITNESS" then Some 0%nat
  else if String.eqb operator "HALT" then Some 0%nat
  else None.

(** A token is the tuple [(token_type, token_value, line, column)]. *)
Definition Token : Type := (string * string * Z * Z)%type.

(** ** parser.py: [Tokenizer] *)

Module Tokenizer.

(** The longest prefix of [s] whose characters satisfy [p], and the rest:
    a greedy [[...]*]. *)
Fixpoint span (p : ascii → bool) (s : string) : string * string :=
  match s with
  | EmptyString => (EmptyString, EmptyString)
  | String c r =>
      if p c then let '(a, b) := span p r in (String c a, b)
      else (EmptyString, s)
  end.

(** A pattern tried at the start of [s] gives the matched text and what
    follows it. *)
Definition Pattern : Type := string → option (string * string).

(** [c] alone. *)
Definition re_char (c : ascii) : Pattern := fun s =>
  match s with
  | String d r =>
      if Ascii.eqb c d then Some (String d EmptyString, r) else None
  | EmptyString => None
  end.

(** [[first][rest]*]. *)
Definition re_first_rest (first rest : ascii → bool) : Pattern := fun s =>
  match s with
  | String c r =>
      if first c then let '(a, b) := span rest r in Some (String c a, b)
      else None
  | EmptyString => None
  end.

(** [[p]+]. *)
Definition re_plus (p : ascii → bool) : Pattern := re_first_rest p p.

Definition quote : ascii := "034"%char.
Definition newline : ascii := "010"%char.

(** The STRING pattern: a quote, any characters but a quote, a quote.
    Without a closing quote nothing matches here. *)
Definition re_string : Pattern := fun s =>
  match s with
  | String c r =>
      if Ascii.eqb c quote then
        let '(a, b) := span (fun d => negb (Ascii.eqb d quote)) r in
        match b with
        | String q b' => Some (String c (a +:+ String q EmptyString), b')
        | EmptyString => None
        end
      else None
  | EmptyString => None
  end.

Definition is_underscore (c : ascii) : bool := Ascii.eqb c "_"%char.

Definition is_symbol (c : ascii) : bool :=
  Ascii.eqb c "<"%char || Ascii.eqb c ">"%char
  || Ascii.eqb c "="%char || Ascii.eqb c "!"%char.

Definition is_blank (c : ascii) : bool :=
  Ascii.eqb c " "%char || Ascii.eqb c "009"%char
  || Ascii.eqb c "010"%char || Ascii.eqb c "013"%char.

Definition TOKEN_PATTERNS : list (string * Pattern) :=
  [ ("COMMENT",
     re_first_rest (Ascii.eqb "#"%char) (fun c => negb (Ascii.eqb c newline)));
    ("LBRACE", re_char "{"%char);
    ("RBRACE", re_char "}"%char);
    ("STRING", re_string);
    ("NUMBER", re_plus PyStr.is_digit);
    ("KEYWORD",
     re_first_rest (fun c => PyStr.is_upper c || is_underscore c)
       (fun c => PyStr.is_upper c || PyStr.is_digit c || is_underscore c));
    ("IDENT",
     re_first_rest (fun c => PyStr.is_lower c || is_underscore c)
       (fun c => PyStr.is_lower c || PyStr.is_digit c || is_underscore c));
    ("SYMBOL", re_plus is_symbol);
    ("WHITESPACE", re_plus is_blank) ].

(** The alternation of the patterns: the first one that matches at the
    start of [s] wins; the result is [(lastgroup, group(), rest)]. *)
Fixpoint first_match (patterns : list (string * Pattern)) (s : string)
  : option (string * string * string) :=
  match patterns with
  | [] => None
  | (token_type, pattern) :: patterns' =>
      match pattern s with
      | Some (text, rest) => Some (token_type, text, rest)
      | None => first_match patterns' s
      end
  end.

(** [text.split('\n')[-1]]: what follows the last newline. *)
Fixpoint last_line (cur : string) (text : string) : string :=
  match text with
  | EmptyString => cur
  | String c r =>
      if Ascii.eqb c newline then last_line EmptyString r
      else last_line (cur +:+ String c EmptyString) r
  end.

(** [text[1:-1]]. *)
Fixpoint drop_last (s : string) : string :=
  match s with
  | EmptyString => EmptyString
  | String c EmptyString => EmptyString
  | String c r => String c (drop_last r)
  end.

Definition unquote (text : string) : string :=
  match text with
  | EmptyString => EmptyString
  | String _ r => drop_last r
  end.

Definition len (s : string) : Z := Z.of_nat (String.length s).

(** The loop over [regex.finditer(source)].  At a position where no
    pattern matches, [finditer] goes on to the next position.  Every
    pattern consumes a character, so [fuel] is the number of characters left
    to scan. *)
Fixpoint scan (fuel : nat) (s : string) (line column : Z) : list Token :=
  match fuel with
  | O => []
  | S fuel' =>
      match s with
      | EmptyString => []
      | String _ next =>
          match first_match TOKEN_PATTERNS s with
          | None => scan fuel' next line column
          | Some (token_type, text, rest) =>
              if String.eqb token_type "WHITESPACE" then
                let line' := line + PyStr.count newline text in
                let column' :=
                  if 0 <? PyStr.count newline text
                  then len (last_line EmptyString text) + 1
                  else column + len text in
                scan fuel' rest line' column'
              else if String.eqb token_type "COMMENT" then
                scan fuel' rest (line + 1) 1
              else
                let token_value :=
                  if String.eqb token_type "STRING" then unquote text
                  else text in
                (token_type, token_value, line, column)
                  :: scan fuel' rest line (column + len text)
          end
      end
  end.

Definition tokenize (source : string) : list Token :=
  scan (String.length source) source 1 1.

End Tokenizer.

(** ** parser.py: [Parser] *)

(** What a parsing method does: return a value and leave the tokens after
    the ones it consumed, or raise.  [PValueError] is the [ValueError] of
    [int(value)]; [POutOfFuel] is not a behaviour of the parser but the
    recursion bound of the model giving out. *)
Inductive PResult (A : Type) : Type :=
| POk (a : A) (rest : list Token)
| PFail (e : ParseError)
| PValueError
| POutOfFuel.
Arguments POk {A} a rest.
Arguments PFail {A} e.
Arguments PValueError {A}.
Arguments POutOfFuel {A}.

Module Parser.

Definition current_token (tokens : list Token) : option Token :=
  match tokens with
  | token :: _ => Some token
  | [] => None
  end.

Definition consume (expected_type : option string) (tokens : list Token)
  : PResult Token :=
  match tokens with
  | [] => PFail (mkParseError "Unexpected end of file" None)
  | (token_type, value, line, column) :: rest =>
      let mismatch :=
        match expected_type with
        | Some e => negb (PyStr.is_empty e) && negb (String.eqb token_type e)
        | None => false
        end in
      if mismatch then
        PFail (mkParseError
                 ("Expected " +:+ default EmptyString expected_type
                  +:+ ", got " +:+ token_type +:+ " '" +:+ value +:+ "'")
                 (Some line))
      else POk (token_type, value, line, column) rest
  end.

Definition peek (tokens : list Token) : option string :=
  match current_token tokens with
  | Some (token_type, _, _, _) => Some token_type
  | None => None
  end.

Definition peek_is (token_type : string) (tokens : list Token) : bool :=
  match peek tokens with
  | Some t => String.eqb t token_type
  | None => false
  end.

Definition parse_argument (tokens : list Token) : PResult Argument :=
  match tokens with
  | [] => PFail (mkParseError "Expected argument" None)
  | (token_type, value, line, _) :: rest =>
      if String.eqb token_type "STRING" then
        POk (mkArgument "LITERAL" (VStr value)) rest
      else if String.eqb token_type "NUMBER" then
        match PyStr.int value with
        | Some n => POk (mkArgument "LITERAL" (VInt n)) rest
        | None => PValueError
        end
      else if String.eqb token_type "IDENT" then
        POk (mkArgument "REFERENCE" (VStr value)) rest
      else if String.eqb token_type "SYMBOL" then
        let condition := value in
        if peek_is "NUMBER" rest || peek_is "IDENT" rest then
          match rest with
          | (_, operand, _, _) :: rest' =>
              POk (mkArgument "REFERENCE"
                     (VStr (condition +:+ " " +:+ operand))) rest'
          | [] => PFail (mkParseError "Unexpected end of file" None)
          end
        else POk (mkArgument "REFERENCE" (VStr condition)) rest
      else
        PFail (mkParseError
                 ("Unexpected token type " +:+ token_type +:+ " as argument")
                 (Some line))
  end.

(** [for _ in range(expected_arity): arguments.append(parse_argument())]. *)
Fixpoint parse_arguments (expected_arity : nat) (tokens : list Token)
    (arguments : list Argument) : PResult (list Argument) :=
  match expected_arity with
  | O => POk arguments tokens
  | S k =>
      match parse_argument tokens with
      | POk arg rest => parse_arguments k rest (arguments ++ [arg])
      | PFail e => PFail e
      | PValueError => PValueError
      | POutOfFuel => POutOfFuel
      end
  end.

(** The loop [while self.peek() != 'RBRACE': ...] that collects operations
    up to the closing brace, in a phase and in a SATURATE block alike;
    [unclosed] is the error raised when the tokens end first. *)
Fixpoint parse_until_rbrace (parse_operation : list Token → PResult Operation)
    (unclosed : ParseError) (fuel : nat) (tokens : list Token)
    (ops : list Operation) : PResult (list Operation) :=
  match fuel with
  | O => POutOfFuel
  | S fuel' =>
      if peek_is "RBRACE" tokens then POk ops tokens
      else
        match current_token tokens with
        | None => PFail unclosed
        | Some _ =>
            match parse_operation tokens with
            | POk operation rest =>
                parse_until_rbrace parse_operation unclosed fuel' rest
                  (ops ++ [operation])
            | PFail e => PFail e
            | PValueError => PValueError
            | POutOfFuel => POutOfFuel
            end
        end
  end.

Fixpoint parse_operation (fuel : nat) (tokens : list Token)
  : PResult Operation :=
  match fuel with
  | O => POutOfFuel
  | S fuel' =>
      match consume (Some "KEYWORD") tokens with
      | POk (_, operator, line, _) rest =>
          match OPERATOR_ARITY operator with
          | None =>
              PFail (mkParseError ("Unknown operator '" +:+ operator +:+ "'")
                       (Some line))
          | Some expected_arity =>
              if String.eqb operator "SATURATE" then
                match consume (Some "LBRACE") rest with
                | POk _ rest1 =>
                    match parse_until_rbrace (parse_operation fuel')
                            (mkParseError "Unclosed SATURATE block" (Some line))
                            fuel' rest1 [] with
                    | POk block_ops rest2 =>
                        match consume (Some "RBRACE") rest2 with
                        | POk _ rest3 =>
                            POk (mkOperation operator
                                   [mkArgument "BLOCK" (VBlock block_ops)] line)
                              rest3
                        | PFail e => PFail e
                        | PValueError => PValueError
                        | POutOfFuel => POutOfFuel
                        end
                    | PFail e => PFail e
                    | PValueError => PValueError
                    | POutOfFuel => POutOfFuel
                    end
                | PFail e => PFail e
                | PValueError => PValueError
                | POutOfFuel => POutOfFuel
                end
              else
                match parse_arguments expected_arity rest [] with
                | POk args rest1 => POk (mkOperation operator args line) rest1
                | PFail e => PFail e
                | PValueError => PValueError
                | POutOfFuel => POutOfFuel
                end
          end
      | PFail e => PFail e
      | PValueError => PValueError
      | POutOfFuel => POutOfFuel
      end
  end.

Definition parse_phase (fuel : nat) (tokens : list Token) : PResult Phase :=
  match consume (Some "KEYWORD") tokens with
  | POk (_, name, line, _) rest =>
      match consume (Some "LBRACE") rest with
      | POk _ rest1 =>
          match parse_until_rbrace (parse_operation fuel)
                  (mkParseError ("Unclosed phase '" +:+ name +:+ "'")
                     (Some line))
                  fuel rest1 [] with
          | POk ops rest2 =>
              match consume (Some "RBRACE") rest2 with
              | POk _ rest3 =>
                  match ops with
                  | [] =>
                      PFail (mkParseError
                               ("Phase '" +:+ name
                                +:+ "' must have at least one operation")
                               (Some line))
                  | _ :: _ => POk (mkPhase name ops) rest3
                  end
              | PFail e => PFail e
              | PValueError => PValueError
              | POutOfFuel => POutOfFuel
              end
          | PFail e => PFail e
          | PValueError => PValueError
          | POutOfFuel => POutOfFuel
          end
      | PFail e => PFail e
      | PValueError => PValueError
      | POutOfFuel => POutOfFuel
      end
  | PFail e => PFail e
  | PValueError => PValueError
  | POutOfFuel => POutOfFuel
  end.

(** The loop [while self.current_token(): phases.append(parse_phase())]. *)
Fixpoint parse_phases (fuel : nat) (tokens : list Token)
    (phases : list Phase) : PResult (list Phase) :=
  match fuel with
  | O => POutOfFuel
  | S fuel' =>
      match current_token tokens with
      | None => POk phases tokens
      | Some _ =>
          match parse_phase fuel' tokens with
          | POk phase rest => parse_phases fuel' rest (phases ++ [phase])
          | PFail e => PFail e
          | PValueError => PValueError
          | POutOfFuel => POutOfFuel
          end
      end
  end.

(** Every call of [parse_operation] and every turn of a loop consumes a
    token, so the number of tokens (and one more for the last test of a
    loop) bounds the depth of the recursion. *)
Definition parse_program (tokens : list Token) : PResult Program :=
  match parse_phases (S (length tokens)) tokens [] with
  | POk phases rest =>
      match phases with
      | [] => PFail (mkParseError "Program must have at least one phase" None)
      | _ :: _ => POk (mkProgram phases) rest
      end
  | PFail e => PFail e
  | PValueError => PValueError
  | POutOfFuel => POutOfFuel
  end.

End Parser.

(** The module-level [parse_program(source)]. *)
Definition parse_program (source : string) : PResult Program :=
  Parser.parse_program (Tokenizer.tokenize source).

(** ** vm.py *)

Record VMConfig : Type := mkVMConfig {
  max_operations : Z;
  max_stack_depth : Z;
  max_saturate_iterations : Z;
  max_bindings : Z;
  trace_enabled : bool
}.

(** [VMConfig()] with the default of every field. *)
Definition default_config : VMConfig := mkVMConfig 100000 256 1000 1024 false.

(** A checkpoint appended by WITNESS. *)
Record Checkpoint : Type := mkCheckpoint {
  cp_phase : option string;
  cp_operation : Z;
  cp_stack : list string;
  cp_bindings : gmap string string
}.

(** The fields of a [VirtualMachine] instance other than its [config]. *)
Record VM : Type := mkVM {
  stack : list string;
  bindings : gmap string string;
  phase_counter : Z;
  operation_counter : Z;
  halted : bool;
  trace : list Checkpoint;
  current_phase_name : option string
}.

(** The dictionary stored in [ExecutionResult.final_state]. *)
Record FinalState : Type := mkFinalState {
  final_stack : list string;
  final_bindings : gmap string string;
  depth : Z;
  binding_count : Z
}.

Record ExecutionResult : Type := mkExecutionResult {
  status : string;
  phases_executed : Z;
  operations_executed : Z;
  final_state : FinalState;
  result_trace : list Checkpoint;
  error_message : option string
}.

(** What a method of the machine does: it returns, leaving the machine in
    a state, or it raises, leaving the machine in the state it had reached. *)
Inductive Completion : Type :=
| Normal (self : VM)
| Raise (e : Exn) (self : VM).

(** What [execute] does: it returns a result, or an exception that none of
    its handlers names leaves it. *)
Inductive Outcome : Type :=
| Returned (result : ExecutionResult)
| Escaped (e : Exn).

(** [len(l)] as a Python [int]. *)
Definition len {A : Type} (l : list A) : Z := Z.of_nat (length l).

(** [len(d)] and [k in d] for a dictionary. *)
Definition dict_len (d : gmap string string) : Z := Z.of_nat (size d).
Definition dict_has (k : string) (d : gmap string string) : bool :=
  match d !! k with Some _ => true | None => false end.

Definition set_stack (l : list string) (self : VM) : VM :=
  mkVM l (bindings self) (phase_counter self) (operation_counter self)
    (halted self) (trace self) (current_phase_name self).
Definition set_bindings (d : gmap string string) (self : VM) : VM :=
  mkVM (stack self) d (phase_counter self) (operation_counter self)
    (halted self) (trace self) (current_phase_name self).
Definition set_phase_counter (n : Z) (self : VM) : VM :=
  mkVM (stack self) (bindings self) n (operation_counter self)
    (halted self) (trace self) (current_phase_name self).
Definition set_operation_counter (n : Z) (self : VM) : VM :=
  mkVM (stack self) (bindings self) (phase_counter self) n
    (halted self) (trace self) (current_phase_name self).
Definition set_halted (b : bool) (self : VM) : VM :=
  mkVM (stack self) (bindings self) (phase_counter self)
    (operation_counter self) b (trace self) (current_phase_name self).
Definition set_trace (t : list Checkpoint) (self : VM) : VM :=
  mkVM (stack self) (bindings self) (phase_counter self)
    (operation_counter self) (halted self) t (current_phase_name self).
Definition set_current_phase_name (n : option string) (self : VM) : VM :=
  mkVM (stack self) (bindings self) (phase_counter self)
    (operation_counter self) (halted self) (trace self) n.

(** [reset]: every field back to its initial value. *)
Definition reset : VM := mkVM [] ∅ 0 0 false [] None.

(** [evaluate_condition].  The three tests are tried in the order of the
    source: a condition that starts with [depth], then one that starts with
    [bound], then one that starts with [unbound]. *)
Definition evaluate_condition (condition : string) (self : VM) : Exn + bool :=
  let condition := PyStr.strip condition in
  if PyStr.startswith condition "depth" then
    match PyStr.split condition with
    | [_; operator; operand] =>
        match PyStr.int operand with
        | None =>
            inl (ConditionError
                   ("Invalid numeric value in condition: " +:+ condition))
        | Some value =>
            let depth := len (stack self) in
            if String.eqb operator "<" then inr (depth <? value)
            else if String.eqb operator ">" then inr (depth >? value)
            else if String.eqb operator "==" then inr (depth =? value)
            else inl (ConditionError
                        ("Invalid operator in condition: " +:+ operator))
        end
    | _ => inl (ConditionError ("Invalid condition: " +:+ condition))
    end
  else if PyStr.startswith condition "bound" then
    let key :=
      match PyStr.split condition with
      | _ :: k :: _ => k
      | _ => EmptyString
      end in
    inr (dict_has key (bindings self))
  else if PyStr.startswith condition "unbound" then
    let key :=
      match PyStr.split condition with
      | _ :: k :: _ => k
      | _ => EmptyString
      end in
    inr (negb (dict_has key (bindings self)))
  else inl (ConditionError ("Unknown condition type: " +:+ condition)).

(** [snapshot_state] and [states_equal]: the snapshot is the pair of the
    stack and the bindings; two snapshots are equal when the stacks are equal
    as lists and the bindings are equal as dictionaries. *)
Definition snapshot_state (self : VM) : list string * gmap string string :=
  (stack self, bindings self).

Definition states_equal (state1 state2 : list string * gmap string string)
  : bool :=
  bool_decide (state1.1 = state2.1) && bool_decide (state1.2 = state2.2).

Section VirtualMachine.

(** [str(value)] for a list of operations is the text that Python prints
    for the list; which text it is plays no part in what follows. *)
Variable repr_block : list Operation → string.

Variable config : VMConfig.

Definition py_str (v : Value) : string :=
  match v with
  | VStr s => s
  | VInt n => PyStr.of_Z n
  | VBlock ops => repr_block ops
  end.

Definition op_push (value : Value) (self : VM) : Completion :=
  if len (stack self) >=? max_stack_depth config then
    Raise (StackOverflowError
             ("Stack overflow (max depth: "
              +:+ PyStr.of_Z (max_stack_depth config) +:+ ")")) self
  else Normal (set_stack (stack self ++ [py_str value]) self).

Definition op_invert (self : VM) : Completion :=
  Normal (set_stack (rev (stack self)) self).

Definition op_bind (key value : Value) (self : VM) : Completion :=
  if dict_len (bindings self) >=? max_bindings config then
    Raise (BindingsOverflowError
             ("Bindings overflow (max: "
              +:+ PyStr.of_Z (max_bindings config) +:+ ")")) self
  else Normal (set_bindings (<[py_str key := py_str value]> (bindings self))
                 self).

Definition op_release (key : Value) (self : VM) : Completion :=
  Normal (set_bindings (delete (py_str key) (bindings self)) self).

(** [condition.strip()] exists for a [str] only. *)
Definition op_gate (condition : Value) (self : VM) : Completion :=
  match condition with
  | VStr c =>
      match evaluate_condition c self with
      | inr true => Normal self
      | inr false => Raise BreakBlock self
      | inl e => Raise e self
      end
  | _ => Raise AttributeError self
  end.

Definition op_witness (self : VM) : Completion :=
  if trace_enabled config then
    Normal (set_trace
              (trace self
               ++ [mkCheckpoint (current_phase_name self)
                     (operation_counter self) (stack self) (bindings self)])
              self)
  else Normal self.

Definition op_halt (self : VM) : Completion :=
  Raise HaltProgram (set_halted true self).

(** The [while] loop of [op_saturate], over [block], the body
    [for operation in operations: self.execute_operation(operation)].
    It gives the value of [iteration] when the loop is left, and how it is
    left.  [fuel] bounds the turns of the loop; with
    [max_saturate_iterations - iteration] of it the test of the [while]
    fails before it is used up. *)
Fixpoint saturate_loop (block : VM → Completion) (fuel : nat)
    (iteration : Z) (self : VM) : Z * Completion :=
  match fuel with
  | O => (iteration, Normal self)
  | S fuel' =>
      if iteration <? max_saturate_iterations config then
        let state_before := snapshot_state self in
        match block self with
        | Raise BreakBlock self' => (iteration, Normal self')
        | Raise e self' => (iteration, Raise e self')
        | Normal self' =>
            let state_after := snapshot_state self' in
            if states_equal state_before state_after
            then (iteration, Normal self')
            else saturate_loop block fuel' (iteration + 1) self'
        end
      else (iteration, Normal self)
  end.

(** How many times the loop of [op_saturate] runs [block]: the same loop,
    counting the calls. *)
Fixpoint block_runs (block : VM → Completion) (fuel : nat)
    (iteration : Z) (self : VM) : nat :=
  match fuel with
  | O => O
  | S fuel' =>
      if iteration <? max_saturate_iterations config then
        match block self with
        | Raise _ _ => 1%nat
        | Normal self' =>
            if states_equal (snapshot_state self) (snapshot_state self')
            then 1%nat
            else S (block_runs block fuel' (iteration + 1) self')
        end
      else O
  end.

Definition op_saturate (block : VM → Completion) (self : VM) : Completion :=
  match saturate_loop block (Z.to_nat (max_saturate_iterations config)) 0
          self with
  | (iteration, Normal self') =>
      if iteration >=? max_saturate_iterations config then
        Raise (CycleLimitError
                 ("SATURATE exceeded "
                  +:+ PyStr.of_Z (max_saturate_iterations config)
                  +:+ " iterations")) self'
      else Normal self'
  | (_, Raise e self') => Raise e self'
  end.

Definition op_saturate_runs (block : VM → Completion) (self : VM) : nat :=
  block_runs block (Z.to_nat (max_saturate_iterations config)) 0 self.

(** The entry of [execute_operation], up to the dispatch: the test of
    the budget and the increment of the counter. *)
Definition count_operation (self : VM) : Completion :=
  if operation_counter self >=? max_operations config then
    Raise (OperationLimitError
             ("Operation limit exceeded ("
              +:+ PyStr.of_Z (max_operations config) +:+ ")")) self
  else Normal (set_operation_counter (operation_counter self + 1) self).

(** [for operation in operations: self.execute_operation(operation)] where
    [operations] is a [str]: an empty one gives no turn; otherwise the first
    character is passed to [execute_operation], which counts it and then
    fails to read its [operator]. *)
Definition block_of_str (s : string) (self : VM) : Completion :=
  match s with
  | EmptyString => Normal self
  | String _ _ =>
      match count_operation self with
      | Normal self' => Raise AttributeError self'
      | r => r
      end
  end.

Fixpoint execute_operation (operation : Operation) (self : VM) {struct operation}
  : Completion :=
  match operation with
  | mkOperation operator args _ =>
      match count_operation self with
      | Raise e self' => Raise e self'
      | Normal self =>
          if String.eqb operator "PUSH" then
            match args with
            | a0 :: _ => op_push (value a0) self
            | [] => Raise IndexError self
            end
          else if String.eqb operator "INVERT" then op_invert self
          else if String.eqb operator "BIND" then
            match args with
            | a0 :: a1 :: _ => op_bind (value a0) (value a1) self
            | _ => Raise IndexError self
            end
          else if String.eqb operator "RELEASE" then
            match args with
            | a0 :: _ => op_release (value a0) self
            | [] => Raise IndexError self
            end
          else if String.eqb operator "GATE" then
            match args with
            | a0 :: _ => op_gate (value a0) self
            | [] => Raise IndexError self
            end
          else if String.eqb operator "SATURATE" then
            match args with
            | mkArgument _ v :: _ =>
                op_saturate
                  match v with
                  | VBlock operations =>
                      (fix block (operations : list Operation) (self : VM)
                         : Completion :=
                         match operations with
                         | [] => Normal self
                         | operation :: rest =>
                             match execute_operation operation self with
                             | Normal self' => block rest self'
                             | Raise e self' => Raise e self'
                             end
                         end) operations
                  | VStr s => block_of_str s
                  | VInt _ => fun self => Raise TypeError self
                  end
                  self
            | [] => Raise IndexError self
            end
          else if String.eqb operator "WITNESS" then op_witness self
          else if String.eqb operator "HALT" then op_halt self
          else Normal self
      end
  end.

(** The body of the loop of [op_saturate] for a list of operations. *)
Fixpoint execute_block (operations : list Operation) (self : VM)
  : Completion :=
  match operations with
  | [] => Normal self
  | operation :: rest =>
      match execute_operation operation self with
      | Normal self' => execute_block rest self'
      | Raise e self' => Raise e self'
      end
  end.

(** The body of the loop of [op_saturate] for any value of the argument. *)
Definition saturate_body (v : Value) : VM → Completion :=
  match v with
  | VBlock operations => execute_block operations
  | VStr s => block_of_str s
  | VInt _ => fun self => Raise TypeError self
  end.

(** [execute_phase]: the loop over [phase.operations]. *)
Fixpoint execute_operations (operations : list Operation) (self : VM)
  : Completion :=
  match operations with
  | [] => Normal self
  | operation :: rest =>
      if halted self then Normal self
      else
        match execute_operation operation self with
        | Normal self' => execute_operations rest self'
        | Raise e self' => Raise e self'
        end
  end.

Definition execute_phase (phase : Phase) (self : VM) : Completion :=
  execute_operations (operations phase) self.

(** The loop over [program.phases] in [execute]. *)
Fixpoint execute_phases (phases : list Phase) (self : VM) : Completion :=
  match phases with
  | [] => Normal self
  | phase :: rest =>
      if halted self then Normal self
      else
        let self := set_current_phase_name (Some (name phase)) self in
        let self := set_phase_counter (phase_counter self + 1) self in
        match execute_phase phase self with
        | Normal self' => execute_phases rest self'
        | Raise e self' => Raise e self'
        end
  end.

(** The [ExecutionResult] built at the end of [execute]. *)
Definition make_result (status : string) (error_message : option string)
    (self : VM) : ExecutionResult :=
  mkExecutionResult status (phase_counter self) (operation_counter self)
    (mkFinalState (stack self) (bindings self) (len (stack self))
       (dict_len (bindings self)))
    (if trace_enabled config then trace self else [])
    error_message.

(** [execute]: the machine is reset, the phases run, and the handlers of
    the [try] turn what was raised into a status.  No handler names
    [BreakBlock] or a built-in exception. *)
Definition execute (program : Program) : Outcome :=
  match execute_phases (phases program) reset with
  | Normal self =>
      Returned (make_result (if halted self then "HALTED" else "COMPLETE")
                  None self)
  | Raise HaltProgram self => Returned (make_result "HALTED" None self)
  | Raise (StackOverflowError m) self =>
      Returned (make_result "ERR_STACK_OVERFLOW" (Some m) self)
  | Raise (BindingsOverflowError m) self =>
      Returned (make_result "ERR_BINDINGS_OVERFLOW" (Some m) self)
  | Raise (CycleLimitError m) self =>
      Returned (make_result "TERM_CYCLE_LIMIT" (Some m) self)
  | Raise (OperationLimitError m) self =>
      Returned (make_result "TERM_OP_LIMIT" (Some m) self)
  | Raise (ConditionError m) self =>
      Returned (make_result "ERR_CONDITION" (Some m) self)
  | Raise e _ => Escaped e
  end.

End VirtualMachine.

(** [changing_runs block n s s']: from [s], [n] runs of [block] in a row
    return normally, each one leaving a stack or bindings different from the
    ones it started with, and reach [s']. *)
Inductive changing_runs (block : VM → Completion) : nat → VM → VM → Prop :=
| changing_runs_O (s : VM) : changing_runs block O s s
| changing_runs_S (n : nat) (s s1 s' : VM) :
    block s = Normal s1 →
    states_equal (snapshot_state s) (snapshot_state s1) = false →
    changing_runs block n s1 s' →
    changing_runs block (S n) s s'.

(** The bounds of a configuration hold in a state of the machine. *)
Definition within_budget (config : VMConfig) (self : VM) : Prop :=
  operation_counter self <= max_operations config
  ∧ len (stack self) <= max_stack_depth config
  ∧ dict_len (bindings self) <= max_bindings config.

(** Two states of the machine that differ in the trace at most. *)
Definition same_but_trace (s1 s2 : VM) : Prop :=
  stack s1 = stack s2 ∧ bindings s1 = bindings s2
  ∧ phase_counter s1 = phase_counter s2
  ∧ operation_counter s1 = operation_counter s2
  ∧ halted s1 = halted s2
  ∧ current_phase_name s1 = current_phase_name s2.

(** A configuration with the flag [trace_enabled] set to [b]. *)
Definition with_trace (b : bool) (config : VMConfig) : VMConfig :=
  mkVMConfig (max_operations config) (max_stack_depth config)
    (max_saturate_iterations config) (max_bindings config) b.

(** The state of the machine when what a method did is over. *)
Definition state_of (c : Completion) : VM :=
  match c with Normal s => s | Raise _ s => s end.

(** The dispatch of [execute_operation], once the operation is counted. *)
Definition dispatch (repr_block : list Operation → string) (config : VMConfig)
    (operator : string) (args : list Argument) (self : VM) : Completion :=
  if String.eqb operator "PUSH" then
    match args with
    | a0 :: _ => op_push repr_block config (value a0) self
    | [] => Raise IndexError self
    end
  else if String.eqb operator "INVERT" then op_invert self
  else if String.eqb operator "BIND" then
    match args with
    | a0 :: a1 :: _ => op_bind repr_block config (value a0) (value a1) self
    | _ => Raise IndexError self
    end
  else if String.eqb operator "RELEASE" then
    match args with
    | a0 :: _ => op_release repr_block (value a0) self
    | [] => Raise IndexError self
    end
  else if String.eqb operator "GATE" then
    match args with
    | a0 :: _ => op_gate (value a0) self
    | [] => Raise IndexError self
    end
  else if String.eqb operator "SATURATE" then
    match args with
    | a0 :: _ =>
        op_saturate config (saturate_body repr_block config (value a0)) self
    | [] => Raise IndexError self
    end
  else if String.eqb operator "WITNESS" then op_witness config self
  else if String.eqb operator "HALT" then op_halt self
  else Normal self.

(** A stand-in for the text of a block, to run a program in which no
    operator converts a block to a string. *)
Definition repr_unused : list Operation → string := λ _, EmptyString.

(** [halted_kept s c]: what was done from [s] did not touch the flag
    [halted], unless it raised [HaltProgram]. *)
Definition halted_kept (s : VM) (c : Completion) : Prop :=
  match c with
  | Raise HaltProgram _ => True
  | _ => halted (state_of c) = halted s
  end.

(** [budget_kept config s c]: the bounds that hold in [s] hold in the state
    that [c] leaves. *)
Definition budget_kept (config : VMConfig) (s : VM) (c : Completion) : Prop :=
  within_budget config s → within_budget config (state_of c).

(** The program [T { PUSH a HALT }] with a quoted [a], as the parser builds
    it. *)
Definition push_halt_program : Program :=
  mkProgram
    [mkPhase "T"
       [mkOperation "PUSH" [mkArgument "LITERAL" (VStr "a")] 1;
        mkOperation "HALT" [] 1]].

(** The result of running it under the default configuration. *)
Definition push_halt_result : ExecutionResult :=
  mkExecutionResult "HALTED" 1 2 (mkFinalState ["a"] ∅ 1 0) [] None.






(** The block [INVERT INVERT]. *)
Definition invert_twice : list Operation :=
  [mkOperation "INVERT" [] 1; mkOperation "INVERT" [] 1].

(** The state in which a phase starts. *)
Definition enter_phase (phase_name : string) (self : VM) : VM :=
  set_phase_counter (phase_counter self + 1)
    (set_current_phase_name (Some phase_name) self).

(** Two completions of the same kind, raising the same exception if any,
    in states that differ in the trace at most. *)
Definition same_completion (c1 c2 : Completion) : Prop :=
  match c1, c2 with
  | Normal s1, Normal s2 => same_but_trace s1 s2
  | Raise e1 s1, Raise e2 s2 => e1 = e2 ∧ same_but_trace s1 s2
  | _, _ => False
  end.

(** Two outcomes of [execute] that differ in the trace at most. *)
Definition same_outcome (o1 o2 : Outcome) : Prop :=
  match o1, o2 with
  | Returned r1, Returned r2 =>
      status r1 = status r2
      ∧ final_state r1 = final_state r2
      ∧ phases_executed r1 = phases_executed r2
      ∧ operations_executed r1 = operations_executed r2
      ∧ error_message r1 = error_message r2
  | Escaped e1, Escaped e2 => e1 = e2
  | _, _ => False
  end.

(** The checkpoint that WITNESS records in a state. *)
Definition checkpoint_of (self : VM) : Checkpoint :=
  mkCheckpoint (current_phase_name self) (operation_counter self)
    (stack self) (bindings self).

(** The operation [BIND k v], as the parser builds it from two arguments. *)
Definition bind_operation (k v : Argument) : Operation :=
  mkOperation "BIND" [k; v] 1.

(** A configuration with room for one binding, and the program
    [T { BIND "k" "a" BIND "k" "b" }]. *)
Definition one_binding_config : VMConfig := mkVMConfig 100000 256 1000 1 false.

Definition bind_twice_program : Program :=
  mkProgram
    [mkPhase "T"
       [bind_operation (mkArgument "LITERAL" (VStr "k"))
          (mkArgument "LITERAL" (VStr "a"));
        bind_operation (mkArgument "LITERAL" (VStr "k"))
          (mkArgument "LITERAL" (VStr "b"))]].

(** The text [A { GATE bound } B { PUSH 12 }] and the program parsed from
    it: a GATE at the top level of the first phase, then a second phase. *)
Definition gate_source : string := "A { GATE bound } B { PUSH 12 }".

Definition gate_program : Program :=
  mkProgram
    [mkPhase "A" [mkOperation "GATE" [mkArgument "REFERENCE" (VStr "bound")] 1];
     mkPhase "B" [mkOperation "PUSH" [mkArgument "LITERAL" (VInt 12)] 1]].

(** The text [T { SATURATE { PUSH "x" GATE depth < 5 } HALT }]. *)
Definition saturate_gate_source : string :=
  "T { SATURATE { PUSH " +:+ String Tokenizer.quote "x"
  +:+ String Tokenizer.quote " GATE depth < 5 } HALT }".

(** The program tree that the text is meant to stand for, with the whole
    condition as the argument of GATE. *)
Definition saturate_gate_program : Program :=
  mkProgram
    [mkPhase "T"
       [mkOperation "SATURATE"
          [mkArgument "BLOCK"
             (VBlock
                [mkOperation "PUSH" [mkArgument "LITERAL" (VStr "x")] 1;
                 mkOperation "GATE"
                   [mkArgument "REFERENCE" (VStr "depth < 5")] 1])] 1;
        mkOperation "HALT" [] 1]].

(** The characters with which no token, comment or white space starts. *)
Definition starts_no_token (c : ascii) : bool :=
  negb (Ascii.eqb c "#"%char || Ascii.eqb c "{"%char || Ascii.eqb c "}"%char
        || Ascii.eqb c Tokenizer.quote
        || PyStr.is_digit c || PyStr.is_upper c || PyStr.is_lower c
        || Tokenizer.is_underscore c || Tokenizer.is_symbol c
        || Tokenizer.is_blank c).

(** The text [T { PUSH 1 @ }] and the program parsed from it. *)
Definition stray_byte_source : string := "T { PUSH 1 @ }".

Definition stray_byte_program : Program :=
  mkProgram
    [mkPhase "T" [mkOperation "PUSH" [mkArgument "LITERAL" (VInt 1)] 1]].

(** The three forms of condition that the specification names:
    [depth OP N] with [OP] one of [<], [>], [==] and [N] decimal digits,
    [bound K] and [unbound K] with [K] a word without white space. *)
Fixpoint all_chars (p : ascii → bool) (s : string) : bool :=
  match s with
  | EmptyString => true
  | String c r => p c && all_chars p r
  end.

Definition is_word (s : string) : bool :=
  negb (PyStr.is_empty s) && all_chars (λ c, negb (PyStr.is_space c)) s.

Definition is_number (s : string) : bool :=
  negb (PyStr.is_empty s) && all_chars PyStr.is_digit s.

Definition is_comparison (op : string) : bool :=
  String.eqb op "<" || String.eqb op ">" || String.eqb op "==".

(** The number that a string of decimal digits writes, after [acc]. *)
Fixpoint decimal (acc : Z) (s : string) : Z :=
  match s with
  | EmptyString => acc
  | String c r => decimal (10 * acc + PyStr.digit_value c) r
  end.

Definition compare_depth (op : string) (depth n : Z) : bool :=
  if String.eqb op "<" then depth <? n
  else if String.eqb op ">" then depth >? n
  else depth =? n.

(** The conditions for which [evaluate_condition] returns a truth value:
    after [strip], a condition that starts with [depth] and splits into three
    fields, the second a comparison and the third accepted by [int]; or one
    that starts with [bound], or with [unbound]. *)
Definition accepted (condition : string) : bool :=
  let condition := PyStr.strip condition in
  if PyStr.startswith condition "depth" then
    match PyStr.split condition with
    | [_; op; operand] =>
        is_comparison op
        && match PyStr.int operand with Some _ => true | None => false end
    | _ => false
    end
  else PyStr.startswith condition "bound"
       || PyStr.startswith condition "unbound".

(** The key that a [bound] or [unbound] condition tests: its second field,
    or the empty string when it has none. *)
Definition tested_key (condition : string) : string :=
  match PyStr.split (PyStr.strip condition) with
  | _ :: k :: _ => k
  | _ => EmptyString
  end.

(** How the loop is left from the state [s] before its last run of [block]:
    the run comes back with the stack and the bindings it started with, or a
    GATE raises [BreakBlock], or the run raises something else. *)
Inductive saturate_end (block : VM → Completion) (s : VM)
  : Completion → Prop :=
| end_fixed_point (s' : VM) :
    block s = Normal s' →
    states_equal (snapshot_state s) (snapshot_state s') = true →
    saturate_end block s (Normal s')
| end_gate_break (s' : VM) :
    block s = Raise BreakBlock s' →
    saturate_end block s (Normal s')
| end_raise (e : Exn) (s' : VM) :
    block s = Raise e s' →
    e ≠ BreakBlock →
    saturate_end block s (Raise e s').

Definition cycle_limit_message (config : VMConfig) : string :=
  "SATURATE exceeded " +:+ PyStr.of_Z (max_saturate_iterations config)
  +:+ " iterations".

(** The operations of a block argument; none for another value. *)
Definition block_of (v : Value) : list Operation :=
  match v with VBlock ops => ops | _ => [] end.

(** [consumes tokens r]: [r] is a behaviour of the parser, not the bound of
    the model giving out, and what it leaves is shorter than [tokens]. *)
Definition consumes {A : Type} (tokens : list Token) (r : PResult A) : Prop :=
  match r with
  | POk _ rest => (length rest < length tokens)%nat
  | POutOfFuel => False
  | _ => True
  end.

(** The same, for a loop that may consume nothing. *)
Definition keeps {A : Type} (tokens : list Token) (r : PResult A) : Prop :=
  match r with
  | POk _ rest => (length rest <= length tokens)%nat
  | POutOfFuel => False
  | _ => True
  end.

(** The operators that may write the stack, and those that may write the
    bindings; SATURATE may do both through its block. *)
Definition writes_stack (operator : string) : bool :=
  String.eqb operator "PUSH" || String.eqb operator "INVERT"
  || String.eqb operator "SATURATE".

Definition writes_bindings (operator : string) : bool :=
  String.eqb operator "BIND" || String.eqb operator "RELEASE"
  || String.eqb operator "SATURATE".

(** A stack and a dictionary to run examples on. *)
Definition ab_state : VM := set_stack ["a"; "b"] reset.
Definition k_state : VM := set_bindings {["k" := "a"]} reset.

(** A machine whose stack is full under [full_stack_config]. *)
Definition full_stack_config : VMConfig := mkVMConfig 100000 2 1000 1024 false.

Definition push_c : Operation :=
  mkOperation "PUSH" [mkArgument "LITERAL" (VStr "c")] 1.

(** [counter_grows s c]: what was done from [s] did not lower the operation
    counter.  [phase_kept s c]: it did not touch the phase counter. *)
Definition counter_grows (s : VM) (c : Completion) : Prop :=
  operation_counter s <= operation_counter (state_of c).

Definition phase_kept (s : VM) (c : Completion) : Prop :=
  phase_counter (state_of c) = phase_counter s.

(** The statuses that [execute] gives without an error message. *)
Definition is_success (status : string) : bool :=
  String.eqb status "COMPLETE" || String.eqb status "HALTED".

Definition is_none {A : Type} (o : option A) : bool :=
  match o with Some _ => false | None => true end.

(** No GATE stands at the top level of a phase of the program. *)
Definition is_gate (op : Operation) : bool := String.eqb (operator op) "GATE".

Definition no_top_level_gate (program : Program) : bool :=
  forallb (λ p, forallb (λ op, negb (is_gate op)) (operations p))
    (phases program).

Definition is_break (c : Completion) : bool :=
  match c with Raise BreakBlock _ => true | _ => false end.

(** [numbered_from lo t hi]: the operation numbers of the checkpoints [t]
    increase strictly, from above [lo] up to [hi] at most. *)
Fixpoint numbered_from (lo : Z) (t : list Checkpoint) (hi : Z) : Prop :=
  match t with
  | [] => lo <= hi
  | r :: t' => lo < cp_operation r ∧ numbered_from (cp_operation r) t' hi
  end.

(** [records lo s c]: what was done from [s] added checkpoints at the end
    of the trace and changed none; the added ones are numbered from above
    [lo] up to the operation counter reached. *)
Definition records (lo : Z) (s : VM) (c : Completion) : Prop :=
  ∃ t, trace (state_of c) = trace s ++ t
       ∧ numbered_from lo t (operation_counter (state_of c)).

(** The checkpoints of an operation are numbered after the counter it
    starts with. *)
Definition records_after (s : VM) (c : Completion) : Prop :=
  records (operation_counter s) s c.

(** A configuration that traces, and the program
    [T { PUSH "a" WITNESS PUSH "b" WITNESS HALT }]. *)
Definition tracing_config : VMConfig := mkVMConfig 100000 256 1000 1024 true.

Definition witness_program : Program :=
  mkProgram
    [mkPhase "T"
       [mkOperation "PUSH" [mkArgument "LITERAL" (VStr "a")] 1;
        mkOperation "WITNESS" [] 1;
        mkOperation "PUSH" [mkArgument "LITERAL" (VStr "b")] 1;
        mkOperation "WITNESS" [] 1;
        mkOperation "HALT" [] 1]].

Definition witness_result : ExecutionResult :=
  mkExecutionResult "HALTED" 1 5 (mkFinalState ["a"; "b"] ∅ 2 0)
    [mkCheckpoint (Some "T") 2 ["a"] ∅;
     mkCheckpoint (Some "T") 4 ["a"; "b"] ∅]
    None.

(** The shape of the text of a token of each kind. *)
Definition is_keyword_text (s : string) : bool :=
  match s with
  | String c r =>
      (PyStr.is_upper c || Tokenizer.is_underscore c)
      && all_chars (λ c, PyStr.is_upper c || PyStr.is_digit c
                        || Tokenizer.is_underscore c) r
  | EmptyString => false
  end.

Definition is_ident_text (s : string) : bool :=
  match s with
  | String c r =>
      (PyStr.is_lower c || Tokenizer.is_underscore c)
      && all_chars (λ c, PyStr.is_lower c || PyStr.is_digit c
                        || Tokenizer.is_underscore c) r
  | EmptyString => false
  end.

Definition is_symbol_text (s : string) : bool :=
  negb (PyStr.is_empty s) && all_chars Tokenizer.is_symbol s.

Definition has_no_quote (s : string) : bool :=
  all_chars (λ d, negb (Ascii.eqb d Tokenizer.quote)) s.

(** A token as the tokenizer emits them: one of seven kinds, with a value
    of the shape of its kind. *)
Definition token_ok (t : Token) : bool :=
  let '(token_type, value, _, _) := t in
  if String.eqb token_type "LBRACE" then String.eqb value "{"
  else if String.eqb token_type "RBRACE" then String.eqb value "}"
  else if String.eqb token_type "STRING" then has_no_quote value
  else if String.eqb token_type "NUMBER" then is_number value
  else if String.eqb token_type "KEYWORD" then is_keyword_text value
  else if String.eqb token_type "IDENT" then is_ident_text value
  else if String.eqb token_type "SYMBOL" then is_symbol_text value
  else false.

(** [positions_from lo tokens]: the lines of the tokens do not decrease,
    from [lo] on, and their columns are at least 1. *)
Fixpoint positions_from (lo : Z) (tokens : list Token) : Prop :=
  match tokens with
  | [] => True
  | (_, _, line, column) :: rest =>
      lo <= line ∧ 1 <= column ∧ positions_from line rest
  end.

(** The program trees that the parser builds.  An argument of an operator
    other than SATURATE is a string, tagged LITERAL or REFERENCE, or an
    integer that is not negative, tagged LITERAL.  An operation has a known
    operator and as many arguments as [OPERATOR_ARITY] says; a SATURATE has
    one argument, a block of such operations, tagged BLOCK. *)
Definition arg_ok (a : Argument) : bool :=
  match a with
  | mkArgument t (VStr _) => String.eqb t "LITERAL" || String.eqb t "REFERENCE"
  | mkArgument t (VInt n) => String.eqb t "LITERAL" && (0 <=? n)
  | mkArgument _ (VBlock _) => false
  end.

Fixpoint wf_operation (op : Operation) : bool :=
  match op with
  | mkOperation o args _ =>
      if String.eqb o "SATURATE" then
        match args with
        | [mkArgument t (VBlock ops)] =>
            String.eqb t "BLOCK" && forallb wf_operation ops
        | _ => false
        end
      else
        match OPERATOR_ARITY o with
        | Some n => Nat.eqb (length args) n && forallb arg_ok args
        | None => false
        end
  end.

(** A phase has an upper-case name and at least one operation; a program
    has at least one phase. *)
Definition wf_phase (p : Phase) : bool :=
  is_keyword_text (name p)
  && match operations p with
     | [] => false
     | ops => forallb wf_operation ops
     end.

Definition wf_program (program : Program) : bool :=
  match phases program with
  | [] => false
  | ps => forallb wf_phase ps
  end.

(** A token that [int] reads when it is a NUMBER: its digits are no more
    than the limit. *)
Definition short_number (token : Token) : bool :=
  let '(token_type, token_value, _, _) := token in
  negb (String.eqb token_type "NUMBER")
  || (PyStr.digit_count token_value <=? PyStr.int_max_str_digits).

(** A token of the tokenizer, with a short number when [short] is set. *)
Definition token_read (short : bool) (token : Token) : bool :=
  token_ok token && (if short then short_number token else true).

(** [parses short ok r]: from tokens of the tokenizer, what the parser
    returns is accepted by [ok] and leaves tokens of the tokenizer; and when
    the numbers of the tokens are short, [int] does not raise. *)
Definition parses {A : Type} (short : bool) (ok : A → bool) (r : PResult A)
  : Prop :=
  match r with
  | POk a rest => ok a = true ∧ forallb (token_read short) rest = true
  | PValueError => short = false
  | _ => True
  end.

(** The exceptions that Python raises on a tree the operators cannot read:
    a missing argument, a block that is not a list. *)
Definition tree_error (c : Completion) : bool :=
  match c with
  | Raise IndexError _ | Raise TypeError _ => true
  | _ => false
  end.

(** The block [GATE unbound done; BIND "done" "yes"]: its first run binds
    the key, its second run breaks at the GATE. *)
Definition bind_once : list Operation :=
  [mkOperation "GATE" [mkArgument "REFERENCE" (VStr "unbound done")] 1;
   bind_operation (mkArgument "LITERAL" (VStr "done"))
     (mkArgument "LITERAL" (VStr "yes"))].

(** No GATE, at any depth, has an integer as its argument. *)
Fixpoint gates_read (op : Operation) : bool :=
  match op with
  | mkOperation o args _ =>
      match args with
      | mkArgument _ (VBlock ops) :: _ => forallb gates_read ops
      | mkArgument _ (VInt _) :: _ => negb (String.eqb o "GATE")
      | _ => true
      end
  end.

Definition program_gates_read (program : Program) : bool :=
  forallb (λ p, forallb gates_read (operations p)) (phases program).

Definition attribute_error (c : Completion) : bool :=
  match c with Raise AttributeError _ => true | _ => false end.

(** The loop [SATURATE { PUSH x GATE "depth < N" }], [N] written with the
    decimal digits [digits]. *)
Definition push_below (x : Argument) (t : string) (digits : string) (l : Z)
  : list Operation :=
  [mkOperation "PUSH" [x] l;
   mkOperation "GATE" [mkArgument t (VStr ("depth < " +:+ digits))] l].

Definition counting_loop (x : Argument) (t : string) (digits : string)
    (l : Z) : Operation :=
  mkOperation "SATURATE"
    [mkArgument "block" (VBlock (push_below x t digits l))] l.

(** How many times the loop pushes from the state [self]: once at least,
    and up to the depth [N]. *)
Definition pushes_needed (digits : string) (self : VM) : Z :=
  Z.max 1 (decimal 0 digits - len (stack self)).

(** The state after [k] more pushes of [v] and [ops] more operations. *)
Definition pushed (v : string) (k : Z) (ops : Z) (self : VM) : VM :=
  set_stack (stack self ++ repeat v (Z.to_nat k))
    (set_operation_counter (operation_counter self + ops) self).

(** [ExecutionResult.to_dict]: the dictionary, as the list of its items in
    the order they are set.  The values are those of the fields. *)
Inductive Field : Type :=
| FStr (s : string)
| FInt (n : Z)
| FState (state : FinalState)
| FTrace (checkpoints : list Checkpoint).

Definition to_dict (self : ExecutionResult) : list (string * Field) :=
  let result :=
    [("status", FStr (status self));
     ("phases_executed", FInt (phases_executed self));
     ("operations_executed", FInt (operations_executed self));
     ("final_state", FState (final_state self))] in
  let result :=
    match error_message self with
    | Some m =>
        if PyStr.is_empty m then result
        else result ++ [("error_message", FStr m)]
    | None => result
    end in
  match result_trace self with
  | [] => result
  | _ :: _ => result ++ [("trace", FTrace (result_trace self))]
  end.

(** The keys of a dictionary. *)
Definition keys {A : Type} (d : list (string * A)) : list string :=
  map fst d.

(** What is raised has a message that is not empty, when it has one. *)
Definition has_text (c : Completion) : bool :=
  match c with
  | Raise (StackOverflowError m) _ | Raise (BindingsOverflowError m) _
  | Raise (CycleLimitError m) _ | Raise (OperationLimitError m) _
  | Raise (ConditionError m) _ => negb (PyStr.is_empty m)
  | _ => true
  end.

Definition message_given (result : ExecutionResult) : bool :=
  match error_message result with
  | Some m => negb (PyStr.is_empty m)
  | None => true
  end.

(** The [to_dict] methods of the program tree.  A dictionary is the list of
    its items in the order they are set.  An argument that is not tagged
    BLOCK puts its value in the dictionary as it is: a string, an integer, or
    the list of operations itself.  [None] is an exception: a BLOCK argument
    whose value is an integer (it cannot be iterated) or a string that is not
    empty (a character has no [to_dict]). *)
#[warnings="-register-all"] Inductive Json : Type :=
| JStr (s : string)
| JInt (n : Z)
| JList (items : list Json)
| JDict (items : list (string * Json))
| JObjects (ops : list Operation).

Fixpoint Operation_to_dict (op : Operation) : option Json :=
  match op with
  | mkOperation o args _ =>
      items ← mapM Argument_to_dict args;
      Some (JDict [("operator", JStr o); ("arguments", JList items)])
  end
with Argument_to_dict (a : Argument) : option Json :=
  match a with
  | mkArgument t v =>
      if String.eqb t "BLOCK" then
        match v with
        | VBlock ops =>
            items ← mapM Operation_to_dict ops;
            Some (JDict [("type", JStr t); ("operations", JList items)])
        | VStr EmptyString =>
            Some (JDict [("type", JStr t); ("operations", JList [])])
        | _ => None
        end
      else
        Some (JDict [("type", JStr t);
                     ("value", match v with
                               | VStr s => JStr s
                               | VInt n => JInt n
                               | VBlock ops => JObjects ops
                               end)])
  end.

Definition Phase_to_dict (p : Phase) : option Json :=
  items ← mapM Operation_to_dict (operations p);
  Some (JDict [("name", JStr (name p)); ("operations", JList items)]).

Definition Program_to_dict (program : Program) : option Json :=
  items ← mapM Phase_to_dict (phases program);
  Some (JDict [("phases", JList items)]).

(** A loop, with the lines that its three operations stand on. *)
Definition loop_program (l1 l2 l3 : Z) : Program :=
  mkProgram
    [mkPhase "A"
       [mkOperation "SATURATE"
          [mkArgument "BLOCK"
             (VBlock
                [mkOperation "PUSH" [mkArgument "REFERENCE" (VStr "x")] l2;
                 mkOperation "GATE" [mkArgument "REFERENCE" (VStr "bound")]
                   l3])]
          l1]].

(** What is raised for a limit is raised in a state that has reached it. *)
Definition at_limit (config : VMConfig) (c : Completion) : Prop :=
  match c with
  | Raise (OperationLimitError _) s =>
      max_operations config <= operation_counter s
  | Raise (StackOverflowError _) s => max_stack_depth config <= len (stack s)
  | Raise (BindingsOverflowError _) s =>
      max_bindings config <= dict_len (bindings s)
  | _ => True
  end.

(** A configuration with room for two symbols, and a program that pushes
    three. *)
Definition two_symbols_config : VMConfig := mkVMConfig 100000 2 1000 1024 false.

Definition push_three_program : Program :=
  mkProgram
    [mkPhase "T"
       [mkOperation "PUSH" [mkArgument "LITERAL" (VStr "a")] 1;
        mkOperation "PUSH" [mkArgument "LITERAL" (VStr "b")] 1;
        mkOperation "PUSH" [mkArgument "LITERAL" (VStr "c")] 1]].

Definition push_three_result : ExecutionResult :=
  mkExecutionResult "ERR_STACK_OVERFLOW" 1 3 (mkFinalState ["a"; "b"] ∅ 2 0)
    [] (Some "Stack overflow (max depth: 2)").

(** What is raised is one of the four errors for a limit. *)
Definition budget_error (c : Completion) : bool :=
  match c with
  | Raise (StackOverflowError _) _ | Raise (BindingsOverflowError _) _
  | Raise (CycleLimitError _) _ | Raise (OperationLimitError _) _ => true
  | _ => false
  end.

(** The outcome of a run that hit no limit: an escaped exception, or a
    result whose status is none of the four for a limit. *)
Definition is_limit_status (status : string) : bool :=
  String.eqb status "ERR_STACK_OVERFLOW"
  || String.eqb status "ERR_BINDINGS_OVERFLOW"
  || String.eqb status "TERM_CYCLE_LIMIT"
  || String.eqb status "TERM_OP_LIMIT".

Definition within_limits (outcome : Outcome) : bool :=
  match outcome with
  | Returned result => negb (is_limit_status (status result))
  | Escaped _ => true
  end.

(** [roomier config config']: the limits of [config'] are those of [config]
    or larger, and the trace is enabled in both or in none. *)
Definition roomier (config config' : VMConfig) : Prop :=
  max_operations config <= max_operations config'
  ∧ max_stack_depth config <= max_stack_depth config'
  ∧ max_saturate_iterations config <= max_saturate_iterations config'
  ∧ max_bindings config <= max_bindings config'
  ∧ trace_enabled config' = trace_enabled config.

(** A token reported [n] lines further down. *)
Definition shift_line (n : Z) (token : Token) : Token :=
  let '(token_type, token_value, line, column) := token in
  (token_type, token_value, line + n, column).

(** A comment line: [#], the text of the comment, and the newline. *)
Definition comment_line (text : string) : string :=
  String "#"%char (text +:+ String Tokenizer.newline EmptyString).

Definition not_newline (c : ascii) : bool :=
  negb (Ascii.eqb c Tokenizer.newline).

(** How deep the blocks of an operation are nested.  The parser, the
    machine and the dump call themselves once for each level, on the stack
    of the interpreter, and Python raises [RecursionError] when that stack
    is 1000 frames deep (the default of [sys.getrecursionlimit()]); the
    machine takes two frames for a level ([execute_operation] and
    [op_saturate]) and the dump four (the two [to_dict] methods and their
    list comprehensions).  The functions of the model are total, so what is
    said below of a call that returns is said of programs nested
    [max_nesting] deep at most, which stay well below that limit. *)
Fixpoint nesting (op : Operation) : nat :=
  match op with
  | mkOperation _ args _ => list_max (map argument_nesting args)
  end
with argument_nesting (a : Argument) : nat :=
  match a with
  | mkArgument _ (VBlock ops) => S (list_max (map nesting ops))
  | mkArgument _ _ => O
  end.

Definition program_nesting (program : Program) : nat :=
  list_max (map (λ p, list_max (map nesting (operations p)))
              (phases program)).

Definition max_nesting : nat := 100.

(** * Properties *)

(** ** Induction on the program tree *)

Section OperationInduction.

Variable P : Operation → Prop.


Hypothesis step : ∀ operator args line,
  Forall (λ a, Forall P (block_of (value a))) args →
  P (mkOperation operator args line).

Lemma Operation_nested_ind : ∀ op, P op.
Proof.
  fix rec 1. intros [o args l]. apply step.
  induction args as [|[t v] args IHargs]; constructor; [|exact IHargs].
  destruct v as [s|n|ops]; simpl; try constructor.
  induction ops as [|x ops IHops]; constructor; [apply rec|exact IHops].
Qed.

End OperationInduction.

(** ** The shape of [execute_operation] *)

Section Dispatch.

Variable repr_block : list Operation → string.
Variable config : VMConfig.

Lemma execute_operation_dispatch (op : Operation) (self : VM) :
  execute_operation repr_block config op self =
  match count_operation config self with
  | Raise e self' => Raise e self'
  | Normal self' =>
      dispatch repr_block config (operator op) (arguments op) self'
  end.
Proof.
  destruct op as [o args l]; simpl.
  destruct (count_operation config self) as [s|e s]; [|reflexivity].
  unfold dispatch.
  repeat (match goal with
          | |- context [String.eqb o ?k] => destruct (String.eqb o k)
          end; [try reflexivity|]); try reflexivity.
  destruct args as [|[t v] args]; [reflexivity|].
  destruct v; reflexivity.
Qed.

End Dispatch.

(** From here on [execute_operation] is unfolded through
    [execute_operation_dispatch] only. *)
Global Arguments execute_operation : simpl never.

(** ** The loop of SATURATE *)


Section Saturate.

Variable config : VMConfig.
Variable block : VM → Completion.

Local Abbreviation limit := (max_saturate_iterations config).




End Saturate.

(** ** Properties kept by every operation

    [Q s c] relates the state in which a method starts with what it does.
    When [Q] holds of the operators one by one and goes through sequencing,
    through the handler of [BreakBlock] and through the raise that ends
    [op_saturate], it holds of [execute_operation] on every program tree. *)

Section Preservation.

Variable repr_block : list Operation → string.
Variable config : VMConfig.
Variable Q : VM → Completion → Prop.

Hypothesis Q_same : ∀ s c, state_of c = s → Q s c.
Hypothesis Q_trans : ∀ s s1 c, Q s (Normal s1) → Q s1 c → Q s c.
Hypothesis Q_catch : ∀ s s', Q s (Raise BreakBlock s') → Q s (Normal s').
Hypothesis Q_cycle : ∀ s s' m,
  Q s (Normal s') → Q s (Raise (CycleLimitError m) s').
Hypothesis Q_count : ∀ s, Q s (count_operation config s).
Hypothesis Q_push : ∀ v s, Q s (op_push repr_block config v s).
Hypothesis Q_invert : ∀ s, Q s (op_invert s).
Hypothesis Q_bind : ∀ k v s, Q s (op_bind repr_block config k v s).
Hypothesis Q_release : ∀ k s, Q s (op_release repr_block k s).
Hypothesis Q_witness : ∀ s, Q s (op_witness config s).
Hypothesis Q_halt : ∀ s, Q s (op_halt s).
Hypothesis Q_phase : ∀ s n,
  Q s (Normal (set_phase_counter (phase_counter s + 1)
                 (set_current_phase_name n s))).

Lemma Q_gate (v : Value) (s : VM) : Q s (op_gate v s).
Proof.
  apply Q_same. unfold op_gate.
  destruct v as [c| |]; try reflexivity.
  destruct (evaluate_condition c s) as [e|[|]]; reflexivity.
Qed.

Lemma Q_block_of_str (t : string) (s : VM) : Q s (block_of_str config t s).
Proof.
  destruct t as [|c t]; simpl; [now apply Q_same|].
  pose proof (Q_count s) as H.
  destruct (count_operation config s) as [s1|e s1]; [|exact H].
  apply Q_trans with s1; [exact H|]. now apply Q_same.
Qed.

Section Loop.

Variable block : VM → Completion.
Hypothesis Q_block : ∀ s, Q s (block s).

Lemma Q_saturate_loop (fuel : nat) (iteration : Z) (s : VM) :
  Q s (saturate_loop config block fuel iteration s).2.
Proof.
  revert iteration s.
  induction fuel as [|fuel IH]; intros iteration s; simpl;
    [now apply Q_same|].
  destruct (iteration <? max_saturate_iterations config);
    [|now apply Q_same].
  pose proof (Q_block s) as H.
  destruct (block s) as [s1|e s1].
  - destruct (states_equal _ _); [exact H|].
    apply Q_trans with s1; [exact H|apply IH].
  - destruct e; try exact H. simpl. now apply Q_catch.
Qed.

Lemma Q_saturate (s : VM) : Q s (op_saturate config block s).
Proof.
  unfold op_saturate.
  pose proof (Q_saturate_loop
                (Z.to_nat (max_saturate_iterations config)) 0 s) as H.
  destruct (saturate_loop _ _ _ _ _) as [iteration [s1|e s1]];
    simpl in H; [|exact H].
  destruct (iteration >=? max_saturate_iterations config);
    [now apply Q_cycle|exact H].
Qed.

End Loop.

Lemma Q_execute_block (ops : list Operation) :
  Forall (λ op, ∀ s, Q s (execute_operation repr_block config op s)) ops →
  ∀ s, Q s (execute_block repr_block config ops s).
Proof.
  induction 1 as [|op ops Hop _ IH]; intros s; simpl; [now apply Q_same|].
  specialize (Hop s).
  destruct (execute_operation repr_block config op s) as [s1|e s1];
    [|exact Hop].
  apply Q_trans with s1; [exact Hop|apply IH].
Qed.

Lemma Q_execute_operation (op : Operation) :
  ∀ s, Q s (execute_operation repr_block config op s).
Proof.
  induction op as [o args l IH] using Operation_nested_ind; intros s.
  rewrite execute_operation_dispatch; simpl.
  pose proof (Q_count s) as Hc.
  destruct (count_operation config s) as [s1|e s1]; [|exact Hc].
  apply Q_trans with s1; [exact Hc|]. clear Hc s.
  unfold dispatch.
  repeat (match goal with
          | |- context [String.eqb o ?k] => destruct (String.eqb o k)
          end;
          [try (destruct args as [|a0 [|a1 args]]); auto using Q_gate;
           try (now apply Q_same)|]);
    [..|now apply Q_same].
  all: inversion IH as [|? ? Ha0 _]; subst;
    apply Q_saturate; intros s;
    destruct a0 as [t [c|n|ops]]; simpl in *;
    [apply Q_block_of_str|now apply Q_same|now apply Q_execute_block].
Qed.

Lemma Q_saturate_body (v : Value) (s : VM) :
  Q s (saturate_body repr_block config v s).
Proof.
  destruct v as [t|n|ops]; simpl;
    [apply Q_block_of_str|now apply Q_same|].
  apply Q_execute_block. apply Forall_forall. intros op _.
  apply Q_execute_operation.
Qed.

Lemma Q_dispatch (o : string) (args : list Argument) (s : VM) :
  Q s (dispatch repr_block config o args s).
Proof.
  unfold dispatch.
  repeat (match goal with
          | |- context [String.eqb o ?k] => destruct (String.eqb o k)
          end;
          [try (destruct args as [|a0 [|a1 args]]); auto using Q_gate;
           try (now apply Q_same)|]);
    [..|now apply Q_same].
  all: apply Q_saturate; apply Q_saturate_body.
Qed.

Lemma Q_execute_operations (ops : list Operation) (s : VM) :
  Q s (execute_operations repr_block config ops s).
Proof.
  revert s. induction ops as [|op ops IH]; intros s; simpl;
    [now apply Q_same|].
  destruct (halted s); [now apply Q_same|].
  pose proof (Q_execute_operation op s) as Hop.
  destruct (execute_operation repr_block config op s) as [s1|e s1];
    [|exact Hop].
  apply Q_trans with s1; [exact Hop|apply IH].
Qed.

Lemma Q_execute_phases (ps : list Phase) (s : VM) :
  Q s (execute_phases repr_block config ps s).
Proof.
  revert s. induction ps as [|p ps IH]; intros s; simpl;
    [now apply Q_same|].
  destruct (halted s); [now apply Q_same|].
  apply Q_trans with (set_phase_counter (phase_counter s + 1)
                        (set_current_phase_name (Some (name p)) s));
    [apply Q_phase|].
  unfold execute_phase.
  match goal with |- Q ?s0 _ =>
    pose proof (Q_execute_operations (operations p) s0) as Hp end.
  simpl in *.
  destruct (execute_operations repr_block config (operations p) _)
    as [s1|e s1]; [|exact Hp].
  apply Q_trans with s1; [exact Hp|apply IH].
Qed.

End Preservation.

(** ** The budgets *)

Section Budget.

Variable repr_block : list Operation → string.
Variable config : VMConfig.

Lemma len_app_one {A : Type} (l : list A) (x : A) : len (l ++ [x]) = len l + 1.
Proof. unfold len. rewrite length_app. simpl. lia. Qed.

Lemma len_rev {A : Type} (l : list A) : len (rev l) = len l.
Proof. unfold len. now rewrite length_rev. Qed.

Lemma dict_len_insert_le (k v : string) (d : gmap string string) :
  dict_len (<[k:=v]> d) <= dict_len d + 1.
Proof.
  unfold dict_len. rewrite map_size_insert.
  destruct (d !! k); simpl; lia.
Qed.

Lemma dict_len_delete_le (k : string) (d : gmap string string) :
  dict_len (delete k d) <= dict_len d.
Proof.
  unfold dict_len. rewrite map_size_delete.
  destruct (d !! k); simpl; lia.
Qed.

Lemma budget_count (s : VM) : budget_kept config s (count_operation config s).
Proof.
  unfold budget_kept, count_operation, within_budget.
  destruct (operation_counter s >=? max_operations config) eqn:H;
    simpl; lia.
Qed.

Lemma budget_push (v : Value) (s : VM) :
  budget_kept config s (op_push repr_block config v s).
Proof.
  unfold budget_kept, op_push, within_budget.
  destruct (len (stack s) >=? max_stack_depth config) eqn:H; simpl;
    rewrite ?len_app_one; lia.
Qed.

Lemma budget_bind (k v : Value) (s : VM) :
  budget_kept config s (op_bind repr_block config k v s).
Proof.
  unfold budget_kept, op_bind, within_budget.
  destruct (dict_len (bindings s) >=? max_bindings config) eqn:H; simpl;
    [lia|].
  pose proof (dict_len_insert_le (py_str repr_block k) (py_str repr_block v)
                (bindings s)).
  lia.
Qed.

Lemma budget_release (k : Value) (s : VM) :
  budget_kept config s (op_release repr_block k s).
Proof.
  unfold budget_kept, op_release, within_budget; simpl.
  pose proof (dict_len_delete_le (py_str repr_block k) (bindings s)). lia.
Qed.

Lemma budget_execute_phases (ps : list Phase) (s : VM) :
  budget_kept config s (execute_phases repr_block config ps s).
Proof.
  apply Q_execute_phases; clear ps s; unfold budget_kept.
  - intros s c <-. auto.
  - auto.
  - auto.
  - auto.
  - apply budget_count.
  - apply budget_push.
  - intros s. unfold within_budget; simpl. now rewrite len_rev.
  - apply budget_bind.
  - apply budget_release.
  - intros s. unfold op_witness.
    destruct (trace_enabled config); simpl; auto.
  - auto.
  - auto.
Qed.

End Budget.

(** C5, as the code has it.  For every program and every configuration whose
    limits [max_operations], [max_stack_depth] and [max_bindings] are not
    negative, a result that [execute] returns, with any status, has
    [operations_executed ≤ max_operations], a final stack of at most
    [max_stack_depth] symbols and at most [max_bindings] final bindings; and
    an operation dispatched when the operation budget is used up, a PUSH on a
    full stack and a BIND in a full dictionary raise and leave the machine as
    it was. *)
Theorem budget_safety (repr_block : list Operation → string)
    (config : VMConfig) (program : Program) (result : ExecutionResult) :
  0 <= max_operations config →
  0 <= max_stack_depth config →
  0 <= max_bindings config →
  execute repr_block config program = Returned result →
  (operations_executed result <= max_operations config
   ∧ len (final_stack (final_state result)) <= max_stack_depth config
   ∧ dict_len (final_bindings (final_state result)) <= max_bindings config
   ∧ depth (final_state result) <= max_stack_depth config
   ∧ binding_count (final_state result) <= max_bindings config)
  ∧ (∀ op self, max_operations config <= operation_counter self →
       ∃ m, execute_operation repr_block config op self
            = Raise (OperationLimitError m) self)
  ∧ (∀ v self, max_stack_depth config <= len (stack self) →
       ∃ m, op_push repr_block config v self
            = Raise (StackOverflowError m) self)
  ∧ (∀ k v self, max_bindings config <= dict_len (bindings self) →
       ∃ m, op_bind repr_block config k v self
            = Raise (BindingsOverflowError m) self).
Proof.
  intros Hops Hstack Hbind Hexec. split; [|split; [|split]].
  - assert (Hb : ∀ st m s, result = make_result config st m s →
                 within_budget config s →
                 operations_executed result <= max_operations config
                 ∧ len (final_stack (final_state result))
                   <= max_stack_depth config
                 ∧ dict_len (final_bindings (final_state result))
                   <= max_bindings config
                 ∧ depth (final_state result) <= max_stack_depth config
                 ∧ binding_count (final_state result) <= max_bindings config).
    { intros st m s -> (H1 & H2 & H3). simpl. repeat split; assumption. }
    unfold execute in Hexec.
    pose proof (budget_execute_phases repr_block config (phases program) reset)
      as Hkept.
    assert (Hreset : within_budget config reset).
    { unfold within_budget, reset, len, dict_len. simpl.
      rewrite map_size_empty. lia. }
    specialize (Hkept Hreset).
    destruct (execute_phases repr_block config (phases program) reset)
      as [s|e s]; simpl in Hkept.
    + injection Hexec as Hr. eapply Hb; [symmetry; exact Hr|exact Hkept].
    + destruct e; try discriminate Hexec; injection Hexec as Hr;
        (eapply Hb; [symmetry; exact Hr|exact Hkept]).
  - intros op self Hfull. rewrite execute_operation_dispatch.
    unfold count_operation.
    assert ((operation_counter self >=? max_operations config) = true)
      as -> by lia.
    eexists; reflexivity.
  - intros v self Hfull. unfold op_push.
    assert ((len (stack self) >=? max_stack_depth config) = true) as -> by lia.
    eexists; reflexivity.
  - intros k v self Hfull. unfold op_bind.
    assert ((dict_len (bindings self) >=? max_bindings config) = true)
      as -> by lia.
    eexists; reflexivity.
Qed.

Lemma budget_safety_witness :
  (0 <= max_operations default_config
   ∧ 0 <= max_stack_depth default_config
   ∧ 0 <= max_bindings default_config
   ∧ execute repr_unused default_config push_halt_program
     = Returned push_halt_result)
  ∧ operations_executed push_halt_result <= max_operations default_config
  ∧ len (final_stack (final_state push_halt_result))
    <= max_stack_depth default_config
  ∧ dict_len (final_bindings (final_state push_halt_result))
    <= max_bindings default_config.
Proof.
  assert (H1 : 0 <= max_operations default_config) by (simpl; lia).
  assert (H2 : 0 <= max_stack_depth default_config) by (simpl; lia).
  assert (H3 : 0 <= max_bindings default_config) by (simpl; lia).
  assert (H4 : execute repr_unused default_config push_halt_program
               = Returned push_halt_result) by reflexivity.
  split; [repeat split; assumption|].
  destruct (budget_safety repr_unused default_config push_halt_program
              push_halt_result H1 H2 H3 H4) as ((Ha & Hb & Hc & _) & _).
  repeat split; assumption.
Defined.

(** C5 as stated fails: the limits are Python integers, and under a negative
    [max_stack_depth] the empty final stack of [T { HALT }] is already deeper
    than the limit. *)
Lemma budget_safety_negative_limit :
  ∃ result,
    execute repr_unused (mkVMConfig 100000 (-1) 1000 1024 false)
      (mkProgram [mkPhase "T" [mkOperation "HALT" [] 1]])
    = Returned result
    ∧ ¬ (len (final_stack (final_state result))
         <= max_stack_depth (mkVMConfig 100000 (-1) 1000 1024 false)).
Proof.
  eexists. split; [reflexivity|]. simpl. unfold len. simpl. lia.
Qed.

(** ** Sequences of operations and of phases *)

Section Sequences.

Variable repr_block : list Operation → string.
Variable config : VMConfig.

Lemma execute_operations_app (ops ops' : list Operation) (s : VM) :
  execute_operations repr_block config (ops ++ ops') s =
  match execute_operations repr_block config ops s with
  | Normal s1 => execute_operations repr_block config ops' s1
  | Raise e s1 => Raise e s1
  end.
Proof.
  revert s. induction ops as [|op ops IH]; intros s; simpl; [reflexivity|].
  destruct (halted s) eqn:Hh.
  - destruct ops'; simpl; [reflexivity|now rewrite Hh].
  - destruct (execute_operation repr_block config op s); [apply IH|reflexivity].
Qed.

Lemma execute_phases_app (ps ps' : list Phase) (s : VM) :
  execute_phases repr_block config (ps ++ ps') s =
  match execute_phases repr_block config ps s with
  | Normal s1 => execute_phases repr_block config ps' s1
  | Raise e s1 => Raise e s1
  end.
Proof.
  revert s. induction ps as [|p ps IH]; intros s; simpl; [reflexivity|].
  destruct (halted s) eqn:Hh.
  - destruct ps'; simpl; [reflexivity|now rewrite Hh].
  - destruct (execute_phase repr_block config p _); [apply IH|reflexivity].
Qed.

Lemma halted_same (s : VM) (c : Completion) :
  state_of c = s → halted_kept s c.
Proof. intros <-. destruct c as [|[]]; reflexivity. Qed.

Lemma halted_trans (s s1 : VM) (c : Completion) :
  halted_kept s (Normal s1) → halted_kept s1 c → halted_kept s c.
Proof.
  unfold halted_kept. simpl. intros H1 H2.
  destruct c as [|[]]; simpl in *; congruence.
Qed.

(** No operator but HALT writes the flag. *)
Ltac halted_operator :=
  intros; unfold halted_kept, count_operation, op_push, op_bind, op_witness;
  repeat match goal with
         | |- context [if ?b then _ else _] => destruct b
         end;
  solve [reflexivity | exact I | assumption].

Lemma halted_execute_operations (ops : list Operation) (s : VM) :
  halted_kept s (execute_operations repr_block config ops s).
Proof.
  apply Q_execute_operations;
    first [exact halted_same | exact halted_trans | halted_operator].
Qed.

Lemma halted_execute_phases (ps : list Phase) (s : VM) :
  halted_kept s (execute_phases repr_block config ps s).
Proof.
  apply Q_execute_phases;
    first [exact halted_same | exact halted_trans | halted_operator].
Qed.

(** An operation dispatched while the budget lasts is counted, then run. *)
Lemma execute_operation_counted (op : Operation) (s : VM) :
  operation_counter s < max_operations config →
  execute_operation repr_block config op s =
  dispatch repr_block config (operator op) (arguments op)
    (set_operation_counter (operation_counter s + 1) s).
Proof.
  intros H. rewrite execute_operation_dispatch. unfold count_operation.
  now assert ((operation_counter s >=? max_operations config) = false)
    as -> by lia.
Qed.


End Sequences.

(** ** SATURATE *)



(** C7.  When [max_saturate_iterations ≥ 1] and the first run of the block
    returns with the stack and the bindings it started with, SATURATE runs
    the block once and returns, in the state that run left.  A SATURATE with
    an empty block, dispatched within the operation budget, returns with
    nothing changed but the operation counter, which counts the SATURATE
    alone. *)
Theorem saturate_fixed_point (config : VMConfig) (block : VM → Completion)
    (self self' : VM) :
  1 <= max_saturate_iterations config →
  block self = Normal self' →
  stack self' = stack self →
  bindings self' = bindings self →
  (op_saturate config block self = Normal self'
   ∧ op_saturate_runs config block self = 1%nat)
  ∧ (∀ repr_block t l s,
       operation_counter s < max_operations config →
       execute_operation repr_block config
         (mkOperation "SATURATE" [mkArgument t (VBlock [])] l) s
       = Normal (set_operation_counter (operation_counter s + 1) s)).
Proof.
  intros Hmax Hblock Hstack Hbindings.
  assert (Hfuel : ∃ fuel, Z.to_nat (max_saturate_iterations config) = S fuel).
  { exists (Z.to_nat (max_saturate_iterations config - 1)). lia. }
  destruct Hfuel as [fuel Hfuel].
  assert (Hlt : (0 <? max_saturate_iterations config) = true) by lia.
  assert (Hge : (0 >=? max_saturate_iterations config) = false) by lia.
  assert (Hfix : ∀ (b : VM → Completion) s s',
             b s = Normal s' → stack s' = stack s → bindings s' = bindings s →
             op_saturate config b s = Normal s'
             ∧ op_saturate_runs config b s = 1%nat).
  { intros b s s' Hb Hs Hd.
    assert (Heq : states_equal (snapshot_state s) (snapshot_state s') = true).
    { unfold states_equal, snapshot_state; simpl. rewrite Hs, Hd.
      now rewrite !bool_decide_eq_true_2. }
    unfold op_saturate, op_saturate_runs. rewrite Hfuel. simpl.
    now rewrite Hlt, Hb, Heq, Hge. }
  split; [now apply Hfix|].
  intros repr_block t l s Hbudget.
  rewrite execute_operation_counted by exact Hbudget.
  unfold dispatch; simpl. now apply Hfix.
Qed.

Lemma saturate_fixed_point_witness :
  (1 <= max_saturate_iterations default_config
   ∧ execute_block repr_unused default_config invert_twice
       (set_stack ["a"; "b"] reset)
     = Normal (set_operation_counter 2 (set_stack ["a"; "b"] reset)))
  ∧ op_saturate default_config
      (execute_block repr_unused default_config invert_twice)
      (set_stack ["a"; "b"] reset)
    = Normal (set_operation_counter 2 (set_stack ["a"; "b"] reset))
  ∧ op_saturate_runs default_config
      (execute_block repr_unused default_config invert_twice)
      (set_stack ["a"; "b"] reset)
    = 1%nat.
Proof.
  assert (H1 : 1 <= max_saturate_iterations default_config) by (simpl; lia).
  split; [split; [exact H1|reflexivity]|].
  exact (proj1 (saturate_fixed_point default_config
                  (execute_block repr_unused default_config invert_twice)
                  (set_stack ["a"; "b"] reset)
                  (set_operation_counter 2 (set_stack ["a"; "b"] reset))
                  H1 eq_refl eq_refl eq_refl)).
Defined.

(** The block [PUSH "i"] run again and again: while the stack and the
    operation budget have room, every run changes the stack, so the loop
    goes on to its bound. *)
Section PushForever.

Variable repr_block : list Operation → string.
Variable config : VMConfig.


Lemma push_changes_state (s : VM) (x : string) (c : Z) :
  states_equal (snapshot_state s)
    (snapshot_state (set_stack (stack s ++ [x]) (set_operation_counter c s)))
  = false.
Proof.
  unfold states_equal, snapshot_state; simpl.
  rewrite bool_decide_eq_false_2; [reflexivity|].
  intros H. apply (f_equal length) in H. rewrite length_app in H.
  simpl in H. lia.
Qed.



End PushForever.



(** ** Tracing *)

(** Two machines run the same program under configurations that differ in
    [trace_enabled] at most; they stay in step. *)
Section Tracing.

Variable repr_block : list Operation → string.
Variables config1 config2 : VMConfig.

Hypothesis same_operations :
  max_operations config1 = max_operations config2.
Hypothesis same_stack_depth :
  max_stack_depth config1 = max_stack_depth config2.
Hypothesis same_iterations :
  max_saturate_iterations config1 = max_saturate_iterations config2.
Hypothesis same_bindings :
  max_bindings config1 = max_bindings config2.

Ltac same :=
  unfold same_completion, same_but_trace in *; simpl in *;
  intuition congruence.

Lemma same_refl_but (s1 s2 : VM) (e : Exn) :
  same_but_trace s1 s2 → same_completion (Raise e s1) (Raise e s2).
Proof. same. Qed.

Lemma evaluate_condition_same (c : string) (s1 s2 : VM) :
  same_but_trace s1 s2 →
  evaluate_condition c s1 = evaluate_condition c s2.
Proof.
  intros (Hs & Hb & _). unfold evaluate_condition. now rewrite Hs, Hb.
Qed.

Lemma same_count (s1 s2 : VM) :
  same_but_trace s1 s2 →
  same_completion (count_operation config1 s1) (count_operation config2 s2).
Proof.
  intros H. unfold count_operation.
  replace (operation_counter s2) with (operation_counter s1) by same.
  rewrite same_operations.
  destruct (operation_counter s1 >=? max_operations config2); same.
Qed.

Lemma same_push (v : Value) (s1 s2 : VM) :
  same_but_trace s1 s2 →
  same_completion (op_push repr_block config1 v s1)
    (op_push repr_block config2 v s2).
Proof.
  intros H. unfold op_push.
  replace (stack s2) with (stack s1) by same.
  rewrite same_stack_depth.
  destruct (len (stack s1) >=? max_stack_depth config2); same.
Qed.

Lemma same_bind (k v : Value) (s1 s2 : VM) :
  same_but_trace s1 s2 →
  same_completion (op_bind repr_block config1 k v s1)
    (op_bind repr_block config2 k v s2).
Proof.
  intros H. unfold op_bind.
  replace (bindings s2) with (bindings s1) by same.
  rewrite same_bindings.
  destruct (dict_len (bindings s1) >=? max_bindings config2); same.
Qed.

Lemma same_gate (v : Value) (s1 s2 : VM) :
  same_but_trace s1 s2 → same_completion (op_gate v s1) (op_gate v s2).
Proof.
  intros H. unfold op_gate. destruct v as [c| |]; try same.
  rewrite (evaluate_condition_same c s1 s2 H).
  destruct (evaluate_condition c s2) as [e|[|]]; same.
Qed.

Lemma same_witness (s1 s2 : VM) :
  same_but_trace s1 s2 →
  same_completion (op_witness config1 s1) (op_witness config2 s2).
Proof.
  intros H. unfold op_witness.
  destruct (trace_enabled config1), (trace_enabled config2); same.
Qed.

Lemma same_block_of_str (t : string) (s1 s2 : VM) :
  same_but_trace s1 s2 →
  same_completion (block_of_str config1 t s1) (block_of_str config2 t s2).
Proof.
  intros H. destruct t as [|c t]; simpl; [exact H|].
  pose proof (same_count s1 s2 H) as Hc.
  destruct (count_operation config1 s1), (count_operation config2 s2); same.
Qed.

Lemma states_equal_same (s1 s2 s1' s2' : VM) :
  same_but_trace s1 s2 → same_but_trace s1' s2' →
  states_equal (snapshot_state s1) (snapshot_state s1')
  = states_equal (snapshot_state s2) (snapshot_state s2').
Proof.
  intros (Hs & Hb & _) (Hs' & Hb' & _).
  unfold states_equal, snapshot_state; simpl.
  now rewrite Hs, Hb, Hs', Hb'.
Qed.

Section Loop.

Variables block1 block2 : VM → Completion.
Hypothesis same_block : ∀ s1 s2,
  same_but_trace s1 s2 → same_completion (block1 s1) (block2 s2).

Lemma same_saturate_loop (fuel : nat) (iteration : Z) (s1 s2 : VM) :
  same_but_trace s1 s2 →
  (saturate_loop config1 block1 fuel iteration s1).1
  = (saturate_loop config2 block2 fuel iteration s2).1
  ∧ same_completion (saturate_loop config1 block1 fuel iteration s1).2
      (saturate_loop config2 block2 fuel iteration s2).2.
Proof.
  revert iteration s1 s2.
  induction fuel as [|fuel IH]; intros iteration s1 s2 H; simpl;
    [split; [reflexivity|exact H]|].
  rewrite same_iterations.
  destruct (iteration <? max_saturate_iterations config2);
    [|split; [reflexivity|exact H]].
  pose proof (same_block s1 s2 H) as Hb.
  destruct (block1 s1) as [s1'|e1 s1'], (block2 s2) as [s2'|e2 s2'];
    simpl in Hb; try contradiction.
  - rewrite (states_equal_same s1 s2 s1' s2' H Hb).
    destruct (states_equal _ _); [split; [reflexivity|exact Hb]|].
    now apply IH.
  - destruct Hb as [<- Hb].
    destruct e1; simpl; (split; [reflexivity|]); same.
Qed.

Lemma same_saturate (s1 s2 : VM) :
  same_but_trace s1 s2 →
  same_completion (op_saturate config1 block1 s1)
    (op_saturate config2 block2 s2).
Proof.
  intros H. unfold op_saturate. rewrite same_iterations.
  destruct (same_saturate_loop
              (Z.to_nat (max_saturate_iterations config2)) 0 s1 s2 H)
    as [Hi Hc].
  destruct (saturate_loop config1 _ _ _ _) as [i1 c1],
           (saturate_loop config2 _ _ _ _) as [i2 c2].
  simpl in Hi, Hc. subst i2.
  destruct c1 as [s1'|e1 s1'], c2 as [s2'|e2 s2'];
    simpl in Hc; try contradiction; [|exact Hc].
  destruct (i1 >=? max_saturate_iterations config2); same.
Qed.

End Loop.

Lemma same_execute_block (ops : list Operation) :
  Forall (λ op, ∀ s1 s2, same_but_trace s1 s2 →
                  same_completion (execute_operation repr_block config1 op s1)
                    (execute_operation repr_block config2 op s2)) ops →
  ∀ s1 s2, same_but_trace s1 s2 →
    same_completion (execute_block repr_block config1 ops s1)
      (execute_block repr_block config2 ops s2).
Proof.
  induction 1 as [|op ops Hop _ IH]; intros s1 s2 H; simpl; [exact H|].
  specialize (Hop s1 s2 H).
  destruct (execute_operation repr_block config1 op s1) as [s1'|e1 s1'],
           (execute_operation repr_block config2 op s2) as [s2'|e2 s2'];
    simpl in Hop; try contradiction; [now apply IH|exact Hop].
Qed.

Lemma same_execute_operation (op : Operation) :
  ∀ s1 s2, same_but_trace s1 s2 →
    same_completion (execute_operation repr_block config1 op s1)
      (execute_operation repr_block config2 op s2).
Proof.
  induction op as [o args l IH] using Operation_nested_ind; intros s1 s2 H.
  rewrite !execute_operation_dispatch; simpl.
  pose proof (same_count s1 s2 H) as Hc.
  destruct (count_operation config1 s1) as [s1'|e1 s1'],
           (count_operation config2 s2) as [s2'|e2 s2'];
    simpl in Hc; try contradiction; [|exact Hc].
  clear H s1 s2. unfold dispatch.
  repeat (match goal with
          | |- context [String.eqb o ?k] => destruct (String.eqb o k)
          end;
          [try (destruct args as [|a0 [|a1 args]]);
           auto using same_push, same_bind, same_gate, same_witness,
             same_refl_but;
           try same|]);
    [..|exact Hc].
  all: inversion IH as [|? ? Ha0 _]; subst;
    apply same_saturate; [|exact Hc]; intros s1 s2 H;
    destruct a0 as [t [c|n|ops]]; simpl in *;
    [now apply same_block_of_str|same|now apply same_execute_block].
Qed.

Lemma same_execute_operations (ops : list Operation) (s1 s2 : VM) :
  same_but_trace s1 s2 →
  same_completion (execute_operations repr_block config1 ops s1)
    (execute_operations repr_block config2 ops s2).
Proof.
  revert s1 s2. induction ops as [|op ops IH]; intros s1 s2 H; simpl;
    [exact H|].
  replace (halted s2) with (halted s1) by same.
  destruct (halted s1); [exact H|].
  pose proof (same_execute_operation op s1 s2 H) as Hop.
  destruct (execute_operation repr_block config1 op s1) as [s1'|e1 s1'],
           (execute_operation repr_block config2 op s2) as [s2'|e2 s2'];
    simpl in Hop; try contradiction; [now apply IH|exact Hop].
Qed.

Lemma same_execute_phases (ps : list Phase) (s1 s2 : VM) :
  same_but_trace s1 s2 →
  same_completion (execute_phases repr_block config1 ps s1)
    (execute_phases repr_block config2 ps s2).
Proof.
  revert s1 s2. induction ps as [|p ps IH]; intros s1 s2 H; simpl;
    [exact H|].
  replace (halted s2) with (halted s1) by same.
  destruct (halted s1); [exact H|].
  unfold execute_phase.
  match goal with
  | |- same_completion
         match execute_operations _ _ _ ?a with _ => _ end
         match execute_operations _ _ _ ?b with _ => _ end =>
      assert (Hab : same_but_trace a b) by same;
      pose proof (same_execute_operations (operations p) a b Hab) as Hp;
      destruct (execute_operations repr_block config1 (operations p) a)
        as [s1'|e1 s1'],
        (execute_operations repr_block config2 (operations p) b)
        as [s2'|e2 s2']
  end;
    simpl in Hp; try contradiction; [now apply IH|exact Hp].
Qed.

Lemma same_execute (program : Program) :
  same_outcome (execute repr_block config1 program)
    (execute repr_block config2 program).
Proof.
  unfold execute.
  assert (H0 : same_but_trace reset reset) by same.
  pose proof (same_execute_phases (phases program) reset reset H0) as H.
  destruct (execute_phases repr_block config1 (phases program) reset)
    as [s1|e1 s1],
    (execute_phases repr_block config2 (phases program) reset)
    as [s2|e2 s2];
    simpl in H; try contradiction.
  - destruct H as (Hs & Hb & Hp & Ho & Hh & Hn).
    unfold same_outcome, make_result; simpl.
    rewrite Hs, Hb, Hp, Ho, Hh. repeat split.
  - destruct H as (<- & Hs & Hb & Hp & Ho & Hh & Hn).
    destruct e1; unfold same_outcome, make_result; simpl;
      rewrite ?Hs, ?Hb, ?Hp, ?Ho; repeat split.
Qed.

End Tracing.

(** C9.  For every program and configuration, the execution with
    [trace_enabled] set and the one with it cleared both return or both let
    the same exception escape; when they return, the status, the final
    state, [phases_executed], [operations_executed] and the error message
    are the same.  The flag decides what WITNESS does, append a checkpoint or
    nothing, and whether the result carries the trace. *)
Theorem tracing_transparency (repr_block : list Operation → string)
    (config : VMConfig) (program : Program) :
  same_outcome (execute repr_block (with_trace true config) program)
    (execute repr_block (with_trace false config) program)
  ∧ (∀ self, op_witness (with_trace true config) self
             = Normal (set_trace (trace self ++ [checkpoint_of self]) self))
  ∧ (∀ self, op_witness (with_trace false config) self = Normal self)
  ∧ match execute repr_block (with_trace false config) program with
    | Returned result => result_trace result = []
    | Escaped _ => True
    end.
Proof.
  split; [now apply same_execute|].
  split; [reflexivity|]. split; [reflexivity|].
  unfold execute.
  destruct (execute_phases _ _ _ _) as [s|[] s]; exact I || reflexivity.
Qed.

(** ** BIND *)

Section Bind.

Variable repr_block : list Operation → string.
Variable config : VMConfig.

(** BIND in a dictionary that is not full. *)
Lemma op_bind_room (k v : Value) (self : VM) :
  dict_len (bindings self) < max_bindings config →
  op_bind repr_block config k v self
  = Normal (set_bindings
              (<[py_str repr_block k := py_str repr_block v]> (bindings self))
              self).
Proof.
  intros H. unfold op_bind.
  now assert ((dict_len (bindings self) >=? max_bindings config) = false)
    as -> by lia.
Qed.

Lemma dict_len_insert_bound (k v : string) (d : gmap string string) :
  is_Some (d !! k) → dict_len (<[k:=v]> d) = dict_len d.
Proof. intros H. unfold dict_len. now rewrite map_size_insert_Some. Qed.

Lemma dict_len_insert_unbound (k v : string) (d : gmap string string) :
  d !! k = None → dict_len (<[k:=v]> d) = dict_len d + 1.
Proof. intros H. unfold dict_len. rewrite map_size_insert_None; [lia|done]. Qed.

(** Two BIND operations in a row, within the operation budget and with
    room for each. *)
Lemma bind_twice_run (k v1 v2 : Argument) (self : VM) :
  operation_counter self + 2 <= max_operations config →
  dict_len (bindings self) < max_bindings config →
  dict_len (<[py_str repr_block (value k) := py_str repr_block (value v1)]>
              (bindings self)) < max_bindings config →
  execute_block repr_block config
    [bind_operation k v1; bind_operation k v2] self
  = Normal (set_bindings
              (<[py_str repr_block (value k) := py_str repr_block (value v2)]>
                 (bindings self))
              (set_operation_counter (operation_counter self + 1 + 1) self)).
Proof.
  intros Hops H1 H2. cbn [execute_block].
  rewrite execute_operation_counted by lia.
  cbn -[op_bind]. rewrite op_bind_room by exact H1.
  rewrite execute_operation_counted by (simpl; lia).
  cbn -[op_bind]. rewrite op_bind_room by exact H2.
  cbn. unfold set_bindings; cbn. now rewrite insert_insert_eq.
Qed.

End Bind.

(** C3, as the code has it.  While the bindings hold fewer than
    [max_bindings] entries, BIND k v succeeds and sets [bindings[k]] to [v];
    on a key already present the number of bindings stays the same.  The
    sequence BIND k v1; BIND k v2, run within the operation budget, leaves
    [bindings[k] == v2]; from a state where [k] is not bound and two entries
    are free, [binding_count] is one greater than before, and from a state
    where [k] is bound it is the same as before. *)
Theorem bind_overwrite (repr_block : list Operation → string)
    (config : VMConfig) (k v v1 v2 : Argument) (self : VM) :
  dict_len (bindings self) < max_bindings config →
  let key := py_str repr_block (value k) in
  (∃ self',
     op_bind repr_block config (value k) (value v) self = Normal self'
     ∧ bindings self' !! key = Some (py_str repr_block (value v))
     ∧ stack self' = stack self
     ∧ (is_Some (bindings self !! key) →
        dict_len (bindings self') = dict_len (bindings self)))
  ∧ (operation_counter self + 2 <= max_operations config →
     bindings self !! key = None →
     dict_len (bindings self) + 1 < max_bindings config →
     ∃ self',
       execute_block repr_block config
         [bind_operation k v1; bind_operation k v2] self = Normal self'
       ∧ bindings self' !! key = Some (py_str repr_block (value v2))
       ∧ dict_len (bindings self') = dict_len (bindings self) + 1)
  ∧ (operation_counter self + 2 <= max_operations config →
     is_Some (bindings self !! key) →
     ∃ self',
       execute_block repr_block config
         [bind_operation k v1; bind_operation k v2] self = Normal self'
       ∧ bindings self' !! key = Some (py_str repr_block (value v2))
       ∧ dict_len (bindings self') = dict_len (bindings self)).
Proof.
  intros Hroom key. split; [|split].
  - eexists. split; [now apply op_bind_room|]. simpl.
    split; [apply lookup_insert_eq|]. split; [reflexivity|].
    apply dict_len_insert_bound.
  - intros Hops Hnew Hroom2. eexists.
    split; [apply bind_twice_run; [exact Hops|exact Hroom|]|].
    + fold key. rewrite dict_len_insert_unbound by exact Hnew. lia.
    + simpl. fold key. split; [apply lookup_insert_eq|].
      now apply dict_len_insert_unbound.
  - intros Hops Hold. eexists.
    split; [apply bind_twice_run; [exact Hops|exact Hroom|]|].
    + fold key. rewrite dict_len_insert_bound by exact Hold. exact Hroom.
    + simpl. fold key. split; [apply lookup_insert_eq|].
      now apply dict_len_insert_bound.
Qed.

Lemma bind_overwrite_witness :
  dict_len (bindings reset) < max_bindings default_config
  ∧ ∃ self',
      execute_block repr_unused default_config
        [bind_operation (mkArgument "LITERAL" (VStr "k"))
           (mkArgument "LITERAL" (VStr "a"));
         bind_operation (mkArgument "LITERAL" (VStr "k"))
           (mkArgument "LITERAL" (VStr "b"))] reset = Normal self'
      ∧ bindings self' !! "k" = Some "b"
      ∧ dict_len (bindings self') = dict_len (bindings reset) + 1.
Proof.
  assert (H : dict_len (bindings reset) < max_bindings default_config)
    by (vm_compute; reflexivity).
  split; [exact H|].
  apply (proj1 (proj2 (bind_overwrite repr_unused default_config
                         (mkArgument "LITERAL" (VStr "k"))
                         (mkArgument "LITERAL" (VStr "a"))
                         (mkArgument "LITERAL" (VStr "a"))
                         (mkArgument "LITERAL" (VStr "b")) reset H)));
    vm_compute; (reflexivity || discriminate).
Defined.

(** C3 as stated fails: with [max_bindings = 1], after BIND "k" "a" the key
    is present and the dictionary is full; BIND "k" "b" then raises the
    overflow error and the binding keeps its first value. *)
Lemma bind_overwrite_full :
  execute repr_unused one_binding_config bind_twice_program
  = Returned
      (mkExecutionResult "ERR_BINDINGS_OVERFLOW" 1 2
         (mkFinalState [] {["k" := "a"]} 0 1) []
         (Some "Bindings overflow (max: 1)"))
  ∧ op_bind repr_unused one_binding_config (VStr "k") (VStr "b")
      (set_bindings {["k" := "a"]} reset)
    = Raise (BindingsOverflowError "Bindings overflow (max: 1)")
        (set_bindings {["k" := "a"]} reset).
Proof. split; vm_compute; reflexivity. Qed.

(** ** GATE at the top level of a phase *)

(** A GATE that is reached at the top level of a phase, within the operation
    budget, and whose condition is false: [BreakBlock] leaves
    [execute_phase], and [execute] has no handler for it. *)
Lemma top_level_gate_escapes (repr_block : list Operation → string)
    (config : VMConfig) (before after : list Phase) (phase_name t : string)
    (ops ops' : list Operation) (condition : string) (args : list Argument)
    (l : Z) (s1 s2 : VM) :
  execute_phases repr_block config before reset = Normal s1 →
  execute_operations repr_block config ops (enter_phase phase_name s1)
  = Normal s2 →
  operation_counter s2 < max_operations config →
  evaluate_condition condition
    (set_operation_counter (operation_counter s2 + 1) s2) = inr false →
  execute repr_block config
    (mkProgram
       (before
        ++ mkPhase phase_name
             (ops
              ++ mkOperation "GATE" (mkArgument t (VStr condition) :: args) l
              :: ops')
        :: after))
  = Escaped BreakBlock.
Proof.
  intros Hbefore Hops Hlt Hcond.
  unfold execute; simpl.
  rewrite execute_phases_app, Hbefore. simpl.
  pose proof (halted_execute_phases repr_block config before reset) as Hh1.
  rewrite Hbefore in Hh1. simpl in Hh1. rewrite Hh1.
  unfold execute_phase; simpl.
  fold (enter_phase phase_name s1).
  rewrite execute_operations_app, Hops. simpl.
  pose proof (halted_execute_operations repr_block config ops
                (enter_phase phase_name s1)) as Hh2.
  rewrite Hops in Hh2. simpl in Hh2. rewrite Hh2, Hh1.
  rewrite execute_operation_counted by exact Hlt.
  unfold dispatch, op_gate; simpl. now rewrite Hcond.
Qed.

(** C2 fails on the code.  The text [A { GATE bound } B { PUSH 12 }]
    parses; the condition [bound] is false, the GATE of phase [A] raises
    [BreakBlock], and the exception escapes [execute]: no phase [B], no
    status. *)
Theorem gate_break_escapes :
  parse_program gate_source = POk gate_program []
  ∧ execute repr_unused default_config gate_program = Escaped BreakBlock.
Proof. split; vm_compute; reflexivity. Qed.

(** ** The parser: the recursion bound is never reached *)

Section ParserFuel.

Import Parser.

Lemma consume_consumes (expected_type : option string) (tokens : list Token) :
  consumes tokens (consume expected_type tokens).
Proof.
  destruct tokens as [|[[[t v] l] c] rest]; simpl; [exact I|].
  destruct expected_type as [e|]; simpl; [|lia].
  destruct (negb (PyStr.is_empty e) && negb (String.eqb t e)); simpl;
    [exact I|lia].
Qed.

Lemma parse_argument_consumes (tokens : list Token) :
  consumes tokens (parse_argument tokens).
Proof.
  destruct tokens as [|[[[t v] l] c] rest]; simpl; [exact I|].
  repeat match goal with
         | |- context [String.eqb t ?k] => destruct (String.eqb t k)
         end; simpl; try lia; try exact I.
  - destruct (PyStr.int v); simpl; [lia|exact I].
  - destruct (peek_is "NUMBER" rest || peek_is "IDENT" rest); simpl; [|lia].
    destruct rest as [|[[[t' v'] l'] c'] rest']; simpl; [exact I|lia].
Qed.

Lemma parse_arguments_keeps (expected_arity : nat) (tokens : list Token)
    (arguments : list Argument) :
  keeps tokens (parse_arguments expected_arity tokens arguments).
Proof.
  revert tokens arguments.
  induction expected_arity as [|k IH]; intros tokens arguments; simpl; [lia|].
  pose proof (parse_argument_consumes tokens) as Ha.
  destruct (parse_argument tokens) as [arg rest| | |]; simpl in *;
    try exact I; [|contradiction].
  specialize (IH rest (arguments ++ [arg])).
  destruct (parse_arguments k rest (arguments ++ [arg])); simpl in *;
    try exact I; [lia|contradiction].
Qed.

(** The loop up to the closing brace, over a [parse_operation] that
    consumes on every text shorter than [bound]. *)
Lemma parse_until_rbrace_keeps
    (parse_operation : list Token → PResult Operation)
    (unclosed : ParseError) (bound : nat) :
  (∀ tokens, (length tokens < bound)%nat →
             consumes tokens (parse_operation tokens)) →
  ∀ fuel tokens ops,
    (length tokens < fuel)%nat → (length tokens < bound)%nat →
    keeps tokens (parse_until_rbrace parse_operation unclosed fuel tokens ops).
Proof.
  intros Hop. induction fuel as [|fuel IH]; intros tokens ops Hfuel Hbound;
    [lia|].
  simpl. destruct (peek_is "RBRACE" tokens); simpl; [lia|].
  destruct tokens as [|token rest]; simpl; [exact I|].
  pose proof (Hop (token :: rest) Hbound) as Ho.
  destruct (parse_operation (token :: rest)) as [operation rest'| | |];
    simpl in *; try exact I; [|contradiction].
  specialize (IH rest' (ops ++ [operation])).
  destruct (parse_until_rbrace parse_operation unclosed fuel rest'
              (ops ++ [operation])); simpl in *; try exact I;
    [specialize (IH ltac:(lia) ltac:(lia)); lia
    |apply IH; lia].
Qed.

Lemma parse_operation_consumes (fuel : nat) (tokens : list Token) :
  (length tokens < fuel)%nat → consumes tokens (parse_operation fuel tokens).
Proof.
  revert tokens. induction fuel as [|fuel IH]; intros tokens Hfuel; [lia|].
  simpl.
  pose proof (consume_consumes (Some "KEYWORD") tokens) as H1.
  destruct (consume (Some "KEYWORD") tokens) as [[[[t o] l] c] rest| | |];
    simpl in *; try exact I; [|contradiction].
  destruct (OPERATOR_ARITY o) as [expected_arity|]; simpl; [|exact I].
  destruct (String.eqb o "SATURATE").
  - pose proof (consume_consumes (Some "LBRACE") rest) as H2.
    destruct (consume (Some "LBRACE") rest) as [? rest1| | |];
      simpl in *; try exact I; [|contradiction].
    pose proof (parse_until_rbrace_keeps (parse_operation fuel)
                  (mkParseError "Unclosed SATURATE block" (Some l)) fuel IH
                  fuel rest1 [] ltac:(lia) ltac:(lia)) as H3.
    destruct (parse_until_rbrace _ _ fuel rest1 []) as [block_ops rest2| | |];
      simpl in *; try exact I; [|contradiction].
    pose proof (consume_consumes (Some "RBRACE") rest2) as H4.
    destruct (consume (Some "RBRACE") rest2) as [? rest3| | |];
      simpl in *; try exact I; [lia|contradiction].
  - pose proof (parse_arguments_keeps expected_arity rest []) as H2.
    destruct (parse_arguments expected_arity rest []) as [args rest1| | |];
      simpl in *; try exact I; [lia|contradiction].
Qed.

Lemma parse_phase_consumes (fuel : nat) (tokens : list Token) :
  (length tokens <= fuel)%nat → consumes tokens (parse_phase fuel tokens).
Proof.
  intros Hfuel. unfold parse_phase.
  pose proof (consume_consumes (Some "KEYWORD") tokens) as H1.
  destruct (consume (Some "KEYWORD") tokens) as [[[[t n] l] c] rest| | |];
    simpl in *; try exact I; [|contradiction].
  pose proof (consume_consumes (Some "LBRACE") rest) as H2.
  destruct (consume (Some "LBRACE") rest) as [? rest1| | |];
    simpl in *; try exact I; [|contradiction].
  pose proof (parse_until_rbrace_keeps (parse_operation fuel)
                (mkParseError ("Unclosed phase '" +:+ n +:+ "'") (Some l))
                fuel (parse_operation_consumes fuel)
                fuel rest1 [] ltac:(lia) ltac:(lia)) as H3.
  destruct (parse_until_rbrace _ _ fuel rest1 []) as [ops rest2| | |];
    simpl in *; try exact I; [|contradiction].
  pose proof (consume_consumes (Some "RBRACE") rest2) as H4.
  destruct (consume (Some "RBRACE") rest2) as [? rest3| | |];
    simpl in *; try exact I; [|contradiction].
  destruct ops; simpl; [exact I|lia].
Qed.

Lemma parse_phases_keeps (fuel : nat) (tokens : list Token)
    (phases : list Phase) :
  (length tokens < fuel)%nat → keeps tokens (parse_phases fuel tokens phases).
Proof.
  revert tokens phases.
  induction fuel as [|fuel IH]; intros tokens phases Hfuel; [lia|].
  simpl. destruct tokens as [|token rest]; simpl; [lia|].
  pose proof (parse_phase_consumes fuel (token :: rest) ltac:(simpl in *; lia))
    as H1.
  destruct (parse_phase fuel (token :: rest)) as [phase rest'| | |];
    simpl in *; try exact I; [|contradiction].
  specialize (IH rest' (phases ++ [phase]) ltac:(lia)).
  destruct (parse_phases fuel rest' (phases ++ [phase])); simpl in *;
    try exact I; [lia|contradiction].
Qed.

End ParserFuel.

(** The recursion bound of the model never gives out: parsing gives a
    program, a [ParseError] or the [ValueError] of [int]. *)
Lemma parse_program_total (source : string) :
  parse_program source ≠ POutOfFuel.
Proof.
  unfold parse_program, Parser.parse_program.
  pose proof (parse_phases_keeps (S (length (Tokenizer.tokenize source)))
                (Tokenizer.tokenize source) [] ltac:(lia)) as H.
  destruct (Parser.parse_phases _ _ []) as [[|p ps] rest| | |]; simpl in H;
    try discriminate; contradiction.
Qed.

(** ** The condition of a GATE in the source text *)

(** C1 fails on the code.  In [T { SATURATE { PUSH "x" GATE depth < 5 } HALT }]
    the argument of GATE is the identifier [depth] alone; the parser then
    wants an operator and finds [<], so parsing raises [ParseError].  The
    tree with the whole condition [depth < 5], built by hand, does run to
    [HALTED] with five symbols on the stack and no bindings. *)
Theorem saturate_gate_source_rejected :
  parse_program saturate_gate_source
  = PFail (mkParseError "Expected KEYWORD, got SYMBOL '<'" (Some 1))
  ∧ execute repr_unused default_config saturate_gate_program
    = Returned
        (mkExecutionResult "HALTED" 1 12
           (mkFinalState ["x"; "x"; "x"; "x"; "x"] ∅ 5 0) [] None).
Proof. split; vm_compute; reflexivity. Qed.

(** ** The tokenizer *)

Section Scan.

Import Tokenizer.

Lemma span_shorter (p : ascii → bool) (s : string) :
  (String.length (span p s).2 <= String.length s)%nat.
Proof.
  induction s as [|c r IH]; simpl; [lia|].
  destruct (p c); simpl; [|lia].
  destruct (span p r) as [a b]; simpl in *. lia.
Qed.

Lemma re_char_shorter (c : ascii) (s text rest : string) :
  re_char c s = Some (text, rest) →
  (String.length rest < String.length s)%nat.
Proof.
  destruct s as [|d r]; simpl; [discriminate|].
  destruct (Ascii.eqb c d); [|discriminate].
  intros [= _ <-]. lia.
Qed.

Lemma re_first_rest_shorter (first rest_class : ascii → bool)
    (s text rest : string) :
  re_first_rest first rest_class s = Some (text, rest) →
  (String.length rest < String.length s)%nat.
Proof.
  destruct s as [|c r]; simpl; [discriminate|].
  destruct (first c); [|discriminate].
  pose proof (span_shorter rest_class r) as H.
  destruct (span rest_class r) as [a b]. intros [= _ <-]. simpl in H. lia.
Qed.

Lemma re_string_shorter (s text rest : string) :
  re_string s = Some (text, rest) →
  (String.length rest < String.length s)%nat.
Proof.
  destruct s as [|c r]; simpl; [discriminate|].
  destruct (Ascii.eqb c quote); [|discriminate].
  pose proof (span_shorter (λ d, negb (Ascii.eqb d quote)) r) as H.
  destruct (span _ r) as [a [|q b]]; [discriminate|].
  intros [= _ <-]. simpl in H. lia.
Qed.

(** Every match consumes a character. *)
Lemma first_match_shorter (s token_type text rest : string) :
  first_match TOKEN_PATTERNS s = Some (token_type, text, rest) →
  (String.length rest < String.length s)%nat.
Proof.
  unfold TOKEN_PATTERNS, first_match.
  repeat match goal with
         | |- context [match ?pat s with _ => _ end] =>
             let E := fresh "E" in
             destruct (pat s) as [[? ?]|] eqn:E;
             [intros [= _ _ <-];
              first [ eapply re_char_shorter; exact E
                    | eapply re_string_shorter; exact E
                    | eapply re_first_rest_shorter; exact E ]|]
         end.
  discriminate.
Qed.

(** With as much fuel as characters the loop scans the whole text; more
    fuel changes nothing. *)
Lemma scan_fuel (fuel1 fuel2 : nat) (s : string) (line column : Z) :
  (String.length s <= fuel1)%nat → (String.length s <= fuel2)%nat →
  scan fuel1 s line column = scan fuel2 s line column.
Proof.
  revert fuel2 s line column.
  induction fuel1 as [|fuel1 IH]; intros fuel2 s line column H1 H2.
  - destruct s; [|simpl in H1; lia]. destruct fuel2; reflexivity.
  - destruct fuel2 as [|fuel2];
      [destruct s; [reflexivity|simpl in H2; lia]|].
    destruct s as [|c next]; [reflexivity|].
    cbn [scan]. simpl in H1, H2.
    destruct (first_match TOKEN_PATTERNS (String c next))
      as [[[token_type text] rest]|] eqn:E; [|apply IH; lia].
    apply first_match_shorter in E. simpl in E.
    repeat match goal with
           | |- context [if ?b then _ else _] => destruct b
           end;
      first [apply IH; lia | apply (f_equal (cons _)); apply IH; lia].
Qed.

(** No rule matches at a character with which no token starts. *)
Lemma starts_no_token_unmatched (c : ascii) (rest : string) :
  starts_no_token c = true →
  first_match TOKEN_PATTERNS (String c rest) = None.
Proof.
  destruct c as [[] [] [] [] [] [] [] []]; intros H;
    first [discriminate H | reflexivity].
Qed.

(** No rule matches at a quote that is never closed. *)
Lemma open_quote_unmatched (rest : string) :
  (span (λ d, negb (Ascii.eqb d quote)) rest).2 = EmptyString →
  first_match TOKEN_PATTERNS (String quote rest) = None.
Proof.
  intros H. cbn. destruct (span _ rest) as [a b]. simpl in H. now subst b.
Qed.

End Scan.

(** C4, as the code has it.  The tokenizer never raises: at a byte where
    none of its rules matches, [finditer] goes on with the next byte, and
    the line and column counters stay as they are.  So the tokens of a text
    that starts with such a byte, and the result of parsing it, are those of
    the text without the byte. *)
Theorem unmatched_byte_skipped (c : ascii) (rest : string) :
  Tokenizer.first_match Tokenizer.TOKEN_PATTERNS (String c rest) = None →
  (∀ fuel line column,
     (String.length rest <= fuel)%nat →
     Tokenizer.scan (S fuel) (String c rest) line column
     = Tokenizer.scan (String.length rest) rest line column)
  ∧ Tokenizer.tokenize (String c rest) = Tokenizer.tokenize rest
  ∧ parse_program (String c rest) = parse_program rest.
Proof.
  intros Hnone.
  assert (Hscan : ∀ fuel line column,
             (String.length rest <= fuel)%nat →
             Tokenizer.scan (S fuel) (String c rest) line column
             = Tokenizer.scan (String.length rest) rest line column).
  { intros fuel line column Hfuel. cbn [Tokenizer.scan]. rewrite Hnone.
    apply scan_fuel; lia. }
  assert (Htok : Tokenizer.tokenize (String c rest) = Tokenizer.tokenize rest).
  { unfold Tokenizer.tokenize. cbn [String.length]. now apply Hscan. }
  split; [exact Hscan|]. split; [exact Htok|].
  unfold parse_program. now rewrite Htok.
Qed.

Lemma unmatched_byte_skipped_witness :
  Tokenizer.first_match Tokenizer.TOKEN_PATTERNS (String "@"%char "T { HALT }")
  = None
  ∧ Tokenizer.tokenize (String "@"%char "T { HALT }")
    = Tokenizer.tokenize "T { HALT }".
Proof.
  assert (H : Tokenizer.first_match Tokenizer.TOKEN_PATTERNS
                (String "@"%char "T { HALT }") = None) by reflexivity.
  split; [exact H|].
  exact (proj1 (proj2 (unmatched_byte_skipped "@"%char "T { HALT }" H))).
Defined.

(** C4 as stated fails: the byte [@] in [T { PUSH 1 @ }] matches no rule,
    yet the text tokenizes and parses, to the program of [T { PUSH 1 }]. *)
Lemma stray_byte_accepted :
  starts_no_token "@"%char = true
  ∧ Tokenizer.tokenize stray_byte_source
    = [("KEYWORD", "T", 1, 1); ("LBRACE", "{", 1, 3); ("KEYWORD", "PUSH", 1, 5);
       ("NUMBER", "1", 1, 10); ("RBRACE", "}", 1, 13)]
  ∧ parse_program stray_byte_source = POk stray_byte_program [].
Proof. repeat split; vm_compute; reflexivity. Qed.

(** ** Strings: [strip], [split] and [int] on words *)

Section Words.

Import PyStr.

Lemma app_cons (c : ascii) (s t : string) :
  String c s +:+ t = String c (s +:+ t).
Proof. reflexivity. Qed.

Lemma app_empty_r (s : string) : s +:+ EmptyString = s.
Proof. induction s as [|c s IH]; [reflexivity|]. now rewrite app_cons, IH. Qed.

Lemma app_assoc_cons (s : string) (c : ascii) (t : string) :
  (s +:+ String c EmptyString) +:+ t = s +:+ String c t.
Proof.
  induction s as [|d s IH]; [reflexivity|]. now rewrite !app_cons, IH.
Qed.

Lemma is_empty_app (s t : string) :
  is_empty t = false → is_empty (s +:+ t) = false.
Proof. destruct s; [trivial|reflexivity]. Qed.

Lemma is_word_inv (w : string) :
  is_word w = true →
  ∃ c r, w = String c r ∧ is_space c = false
         ∧ all_chars (λ c, negb (is_space c)) w = true.
Proof.
  unfold is_word. destruct w as [|c r]; [discriminate|]. simpl.
  destruct (is_space c) eqn:E; [discriminate|].
  intros H. exists c, r. now rewrite E.
Qed.

Lemma is_number_word (s : string) : is_number s = true → is_word s = true.
Proof.
  unfold is_number, is_word. destruct (negb (is_empty s)); [simpl|trivial].
  induction s as [|c r IH]; [trivial|]. simpl.
  destruct (is_digit c) eqn:E; [simpl|discriminate].
  intros H. rewrite (IH H), andb_true_r.
  revert E. destruct c as [[] [] [] [] [] [] [] []]; now vm_compute.
Qed.

Lemma lstrip_word (w rest : string) :
  is_word w = true → lstrip (w +:+ rest) = w +:+ rest.
Proof.
  intros (c & r & -> & Hc & _)%is_word_inv.
  rewrite app_cons. simpl. now rewrite Hc.
Qed.

Lemma rstrip_no_space (w : string) :
  all_chars (λ c, negb (is_space c)) w = true → rstrip w = w.
Proof.
  induction w as [|c r IH]; [reflexivity|]. simpl.
  destruct (is_space c); [discriminate|]. simpl.
  intros H. now rewrite (IH H).
Qed.

Lemma rstrip_word (w : string) :
  is_word w = true → rstrip w = w ∧ is_empty (rstrip w) = false.
Proof.
  intros (c & r & -> & Hc & Hall)%is_word_inv.
  now rewrite rstrip_no_space.
Qed.

Lemma rstrip_app (s t : string) :
  is_empty (rstrip t) = false → rstrip (s +:+ t) = s +:+ rstrip t.
Proof.
  intros Ht. induction s as [|c s IH]; [reflexivity|].
  rewrite !app_cons. simpl. rewrite IH.
  now rewrite (is_empty_app s _ Ht), andb_false_r.
Qed.

(** A text that ends with a word keeps its right end under [rstrip]. *)
Lemma rstrip_app_word (s w : string) :
  is_word w = true → rstrip (s +:+ w) = s +:+ w.
Proof.
  intros [Hw He]%rstrip_word. rewrite rstrip_app by exact He.
  now rewrite Hw.
Qed.

Lemma split_go_no_space (w cur rest : string) :
  all_chars (λ c, negb (is_space c)) w = true →
  split_go cur (w +:+ rest) = split_go (cur +:+ w) rest.
Proof.
  revert cur. induction w as [|c r IH]; intros cur.
  - now rewrite app_empty_r.
  - simpl. destruct (is_space c) eqn:E; [discriminate|]. simpl.
    intros H. rewrite (IH _ H). now rewrite app_assoc_cons.
Qed.

(** A word, then a space: [split] closes the word. *)
Lemma split_go_word_space (w rest : string) :
  is_word w = true →
  split_go EmptyString (w +:+ String " "%char rest)
  = w :: split_go EmptyString rest.
Proof.
  intros (c & r & -> & Hc & Hall)%is_word_inv.
  rewrite split_go_no_space by exact Hall. reflexivity.
Qed.

(** A word at the end of the text. *)
Lemma split_go_last_word (w : string) :
  is_word w = true → split_go EmptyString w = [w].
Proof.
  intros (c & r & -> & Hc & Hall)%is_word_inv.
  rewrite <- (app_empty_r (String c r)) at 1.
  rewrite split_go_no_space by exact Hall. reflexivity.
Qed.

Lemma int_digits_decimal (s : string) (acc : Z) (after_digit : bool) :
  all_chars is_digit s = true →
  (is_empty s = false ∨ after_digit = true) →
  int_digits acc after_digit s = Some (decimal acc s).
Proof.
  revert acc after_digit.
  induction s as [|c r IH]; intros acc after_digit Hall Hne.
  - destruct Hne as [Hne | ->]; [discriminate|reflexivity].
  - simpl in *. destruct (is_digit c); [simpl in Hall|discriminate].
    apply IH; [exact Hall|now right].
Qed.

(** [int] on a string of digits gives the number that they write, when
    they are no more than the limit, and raises otherwise. *)
Lemma int_number (s : string) :
  is_number s = true →
  int s = if int_max_str_digits <? digit_count s then None
          else Some (decimal 0 s).
Proof.
  intros Hn. pose proof (is_number_word s Hn) as Hw.
  unfold int, strip.
  destruct (is_word_inv s Hw) as (c & r & -> & Hc & Hall).
  simpl lstrip. rewrite Hc. rewrite rstrip_no_space by exact Hall.
  unfold is_number in Hn. simpl in Hn.
  assert (Hd : is_digit c = true) by (destruct (is_digit c); trivial).
  assert (Hi : int_literal (String c r)
               = if int_max_str_digits <? digit_count (String c r) then None
                 else Some (decimal 0 (String c r))).
  { unfold int_literal.
    now rewrite (int_digits_decimal (String c r) 0 false Hn (or_introl eq_refl)). }
  revert Hd Hi. generalize (digit_count (String c r)). intros count.
  destruct c as [[] [] [] [] [] [] [] []]; intros Hd Hi;
    first [discriminate Hd | exact Hi].
Qed.

Lemma int_short_number (s : string) :
  is_number s = true → digit_count s <= int_max_str_digits →
  int s = Some (decimal 0 s).
Proof.
  intros Hn Hshort. rewrite int_number by exact Hn.
  now assert ((int_max_str_digits <? digit_count s) = false) as -> by lia.
Qed.

Lemma int_long_number (s : string) :
  is_number s = true → int_max_str_digits < digit_count s → int s = None.
Proof.
  intros Hn Hlong. rewrite int_number by exact Hn.
  now assert ((int_max_str_digits <? digit_count s) = true) as -> by lia.
Qed.

End Words.

(** ** The condition evaluator *)

Section Conditions.

Import PyStr.

Lemma rstrip_app_keeps (s t : string) :
  rstrip t = t → is_empty t = false → rstrip (s +:+ t) = s +:+ t.
Proof.
  intros Ht He. rewrite rstrip_app; rewrite Ht; [reflexivity|exact He].
Qed.

Lemma is_comparison_inv (op : string) :
  is_comparison op = true → op = "<" ∨ op = ">" ∨ op = "==".
Proof.
  unfold is_comparison. intros H.
  destruct (String.eqb op "<") eqn:E1;
    [left; now apply String.eqb_eq|].
  destruct (String.eqb op ">") eqn:E2;
    [right; left; now apply String.eqb_eq|].
  destruct (String.eqb op "==") eqn:E3;
    [right; right; now apply String.eqb_eq|discriminate].
Qed.

Lemma is_comparison_word (op : string) :
  is_comparison op = true → is_word op = true.
Proof. intros [-> | [-> | ->]]%is_comparison_inv; reflexivity. Qed.

(** A text made of a first word [w] and of words after single spaces is
    what [strip] leaves of itself. *)
Lemma strip_two_words (w1 w2 : string) :
  is_word w1 = true → is_word w2 = true →
  strip (w1 +:+ String " "%char w2) = w1 +:+ String " "%char w2.
Proof.
  intros H1 H2. unfold strip. rewrite lstrip_word by exact H1.
  apply rstrip_app_keeps; [|reflexivity].
  change (String " "%char w2) with (" " +:+ w2).
  now apply rstrip_app_word.
Qed.

Lemma strip_three_words (w1 w2 w3 : string) :
  is_word w1 = true → is_word w2 = true → is_word w3 = true →
  strip (w1 +:+ String " "%char (w2 +:+ String " "%char w3))
  = w1 +:+ String " "%char (w2 +:+ String " "%char w3).
Proof.
  intros H1 H2 H3. unfold strip. rewrite lstrip_word by exact H1.
  apply rstrip_app_keeps; [|reflexivity].
  change (String " "%char (w2 +:+ String " "%char w3))
    with (" " +:+ (w2 +:+ String " "%char w3)).
  apply rstrip_app_keeps.
  - apply rstrip_app_keeps; [|reflexivity].
    change (String " "%char w3) with (" " +:+ w3).
    now apply rstrip_app_word.
  - apply is_empty_app. reflexivity.
Qed.

Lemma split_two_words (w1 w2 : string) :
  is_word w1 = true → is_word w2 = true →
  split (w1 +:+ String " "%char w2) = [w1; w2].
Proof.
  intros H1 H2. unfold split.
  rewrite split_go_word_space by exact H1.
  now rewrite split_go_last_word.
Qed.

Lemma split_three_words (w1 w2 w3 : string) :
  is_word w1 = true → is_word w2 = true → is_word w3 = true →
  split (w1 +:+ String " "%char (w2 +:+ String " "%char w3)) = [w1; w2; w3].
Proof.
  intros H1 H2 H3. unfold split.
  rewrite split_go_word_space by exact H1.
  rewrite split_go_word_space by exact H2.
  now rewrite split_go_last_word.
Qed.

Variable self : VM.

Lemma evaluate_depth (op digits : string) :
  is_comparison op = true → is_number digits = true →
  evaluate_condition ("depth " +:+ op +:+ " " +:+ digits) self
  = if int_max_str_digits <? digit_count digits
    then inl (ConditionError
                ("Invalid numeric value in condition: "
                 +:+ "depth " +:+ op +:+ " " +:+ digits))
    else inr (compare_depth op (len (stack self)) (decimal 0 digits)).
Proof.
  intros Hop Hn.
  pose proof (is_comparison_word op Hop) as Hw.
  pose proof (is_number_word digits Hn) as Hd.
  change ("depth " +:+ op +:+ " " +:+ digits)
    with ("depth" +:+ String " "%char (op +:+ String " "%char digits)).
  unfold evaluate_condition.
  rewrite strip_three_words by (exact Hw || exact Hd || reflexivity).
  rewrite split_three_words by (exact Hw || exact Hd || reflexivity).
  change (startswith
            ("depth" +:+ String " "%char (op +:+ String " "%char digits))
            "depth") with true.
  cbv iota. rewrite int_number by exact Hn.
  destruct (int_max_str_digits <? digit_count digits); [reflexivity|].
  unfold compare_depth.
  destruct (is_comparison_inv op Hop) as [-> | [-> | ->]]; reflexivity.
Qed.

Lemma evaluate_depth_short (op digits : string) :
  is_comparison op = true → is_number digits = true →
  digit_count digits <= int_max_str_digits →
  evaluate_condition ("depth " +:+ op +:+ " " +:+ digits) self
  = inr (compare_depth op (len (stack self)) (decimal 0 digits)).
Proof.
  intros Hop Hn Hshort. rewrite evaluate_depth by assumption.
  now assert ((int_max_str_digits <? digit_count digits) = false)
    as -> by lia.
Qed.

Lemma evaluate_bound (key : string) :
  is_word key = true →
  evaluate_condition ("bound " +:+ key) self
  = inr (dict_has key (bindings self)).
Proof.
  intros Hk.
  change ("bound " +:+ key) with ("bound" +:+ String " "%char key).
  unfold evaluate_condition.
  rewrite strip_two_words by (exact Hk || reflexivity).
  rewrite split_two_words by (exact Hk || reflexivity).
  reflexivity.
Qed.

Lemma evaluate_unbound (key : string) :
  is_word key = true →
  evaluate_condition ("unbound " +:+ key) self
  = inr (negb (dict_has key (bindings self))).
Proof.
  intros Hk.
  change ("unbound " +:+ key) with ("unbound" +:+ String " "%char key).
  unfold evaluate_condition.
  rewrite strip_two_words by (exact Hk || reflexivity).
  rewrite split_two_words by (exact Hk || reflexivity).
  reflexivity.
Qed.

(** The evaluator returns a truth value on the accepted conditions, and
    raises [ConditionError] on the others. *)
Lemma evaluate_accepted (condition : string) :
  if accepted condition
  then ∃ b, evaluate_condition condition self = inr b
  else ∃ m, evaluate_condition condition self = inl (ConditionError m).
Proof.
  unfold accepted, evaluate_condition, is_comparison.
  destruct (startswith (strip condition) "depth").
  - destruct (split (strip condition)) as [|f1 [|op [|operand [|f4 fs]]]];
      try (eexists; reflexivity).
    destruct (int operand) as [n|];
      [|rewrite andb_false_r; eexists; reflexivity].
    destruct (String.eqb op "<"); [eexists; reflexivity|].
    destruct (String.eqb op ">"); [eexists; reflexivity|].
    destruct (String.eqb op "=="); eexists; reflexivity.
  - destruct (startswith (strip condition) "bound");
      [eexists; reflexivity|].
    destruct (startswith (strip condition) "unbound"); eexists; reflexivity.
Qed.

(** A condition that starts with [bound] or [unbound], whatever follows. *)
Lemma evaluate_bound_prefix (condition : string) :
  startswith (strip condition) "bound" = true →
  evaluate_condition condition self
  = inr (dict_has (tested_key condition) (bindings self)).
Proof.
  intros H. unfold evaluate_condition, tested_key.
  assert (Hd : startswith (strip condition) "depth" = false).
  { revert H. unfold startswith.
    destruct (strip condition) as [|c r]; [discriminate|].
    destruct c as [[] [] [] [] [] [] [] []]; intros H;
      first [reflexivity | vm_compute in H; discriminate H]. }
  rewrite Hd, H.
  destruct (split (strip condition)) as [|f1 [|k fs]]; reflexivity.
Qed.

Lemma evaluate_unbound_prefix (condition : string) :
  startswith (strip condition) "unbound" = true →
  evaluate_condition condition self
  = inr (negb (dict_has (tested_key condition) (bindings self))).
Proof.
  intros H. unfold evaluate_condition, tested_key.
  assert (Hd : startswith (strip condition) "depth" = false
               ∧ startswith (strip condition) "bound" = false).
  { revert H. unfold startswith.
    destruct (strip condition) as [|c r]; [discriminate|].
    destruct c as [[] [] [] [] [] [] [] []]; intros H;
      first [split; reflexivity | vm_compute in H; discriminate H]. }
  destruct Hd as [-> ->]. rewrite H.
  destruct (split (strip condition)) as [|f1 [|k fs]]; reflexivity.
Qed.

End Conditions.

(** C8, as the code has it.  In every state the evaluator returns the truth
    value that the specification gives for the three forms it names,
    [depth OP N], [bound K] and [unbound K], where [N] has no more digits
    than [int] reads, 4300; for a longer [N] it raises [ConditionError], as
    for a number that is none.  It returns a truth value exactly on the
    accepted conditions, which are more: any condition that starts with
    [bound] or with [unbound] (a bare one tests the empty key, a longer first
    word is not looked at), and a [depth] condition whose third field [int]
    accepts (a sign, underscores between digits, 4300 digits at most).  On
    every other condition it raises [ConditionError]. *)
Theorem evaluate_condition_forms (op digits key condition : string)
    (self : VM) :
  is_comparison op = true →
  is_number digits = true →
  is_word key = true →
  evaluate_condition ("depth " +:+ op +:+ " " +:+ digits) self
  = (if PyStr.int_max_str_digits <? PyStr.digit_count digits
     then inl (ConditionError
                 ("Invalid numeric value in condition: "
                  +:+ "depth " +:+ op +:+ " " +:+ digits))
     else inr (compare_depth op (len (stack self)) (decimal 0 digits)))
  ∧ evaluate_condition ("bound " +:+ key) self
    = inr (dict_has key (bindings self))
  ∧ evaluate_condition ("unbound " +:+ key) self
    = inr (negb (dict_has key (bindings self)))
  ∧ (if accepted condition
     then ∃ b, evaluate_condition condition self = inr b
     else ∃ m, evaluate_condition condition self = inl (ConditionError m))
  ∧ (PyStr.startswith (PyStr.strip condition) "bound" = true →
     evaluate_condition condition self
     = inr (dict_has (tested_key condition) (bindings self)))
  ∧ (PyStr.startswith (PyStr.strip condition) "unbound" = true →
     evaluate_condition condition self
     = inr (negb (dict_has (tested_key condition) (bindings self)))).
Proof.
  intros Hop Hn Hk.
  split; [now apply evaluate_depth|].
  split; [now apply evaluate_bound|].
  split; [now apply evaluate_unbound|].
  split; [apply evaluate_accepted|].
  split; [apply evaluate_bound_prefix|apply evaluate_unbound_prefix].
Qed.

Lemma evaluate_condition_forms_witness :
  (is_comparison "<" = true ∧ is_number "5" = true ∧ is_word "done" = true)
  ∧ evaluate_condition ("depth " +:+ "<" +:+ " " +:+ "5")
      (set_stack ["x"; "x"] reset)
    = inr (compare_depth "<" (len (stack (set_stack ["x"; "x"] reset)))
             (decimal 0 "5")).
Proof.
  assert (H1 : is_comparison "<" = true) by reflexivity.
  assert (H2 : is_number "5" = true) by reflexivity.
  assert (H3 : is_word "done" = true) by reflexivity.
  split; [repeat split; assumption|].
  exact (proj1 (evaluate_condition_forms "<" "5" "done" "bound"
                  (set_stack ["x"; "x"] reset) H1 H2 H3)).
Defined.

(** C8 as stated fails: a bare [bound] or [unbound], a word that begins with
    [bound], and a [depth] condition with a signed or underscored number are
    all evaluated, not refused. *)
Lemma other_conditions_evaluated :
  evaluate_condition "bound" reset = inr false
  ∧ evaluate_condition "unbound" reset = inr true
  ∧ evaluate_condition "boundary x" reset = inr false
  ∧ evaluate_condition "depth > -1" reset = inr true
  ∧ evaluate_condition "depth < 1_0" reset = inr true.
Proof. repeat split; vm_compute; reflexivity. Qed.

(** * More properties of the machine *)

(** ** The operators one by one *)

(** X1.  INVERT twice, within the operation budget, gives back the machine
    as it was but for the two operations counted; the arguments and the line
    of an INVERT play no part. *)
Theorem invert_involution (repr_block : list Operation → string)
    (config : VMConfig) (args1 args2 : list Argument) (l1 l2 : Z) (self : VM) :
  operation_counter self + 2 <= max_operations config →
  execute_block repr_block config
    [mkOperation "INVERT" args1 l1; mkOperation "INVERT" args2 l2] self
  = Normal (set_operation_counter (operation_counter self + 2) self).
Proof.
  intros Hops. cbn [execute_block].
  rewrite execute_operation_counted by lia. cbn.
  rewrite execute_operation_counted by (cbn; lia). cbn.
  unfold set_stack, set_operation_counter; cbn.
  rewrite rev_involutive. do 2 f_equal. lia.
Qed.

Lemma invert_involution_witness :
  operation_counter ab_state + 2 <= max_operations default_config
  ∧ execute_block repr_unused default_config invert_twice ab_state
    = Normal (set_operation_counter (operation_counter ab_state + 2) ab_state).
Proof.
  assert (H : operation_counter ab_state + 2 <= max_operations default_config)
    by (vm_compute; discriminate).
  split; [exact H|].
  exact (invert_involution repr_unused default_config [] [] 1 1 ab_state H).
Defined.

(** X2.  RELEASE never raises and is idempotent: after it the key is not
    bound, every other key is bound as before and the stack is untouched; a
    second RELEASE of the key changes nothing, and neither does a first one
    when the key was not bound. *)
Theorem release_idempotent (repr_block : list Operation → string)
    (k : Value) (self : VM) :
  let key := py_str repr_block k in
  ∃ s1,
    op_release repr_block k self = Normal s1
    ∧ op_release repr_block k s1 = Normal s1
    ∧ bindings s1 !! key = None
    ∧ (∀ k', k' ≠ key → bindings s1 !! k' = bindings self !! k')
    ∧ stack s1 = stack self
    ∧ (if dict_has key (bindings self)
       then dict_len (bindings s1) = dict_len (bindings self) - 1
       else s1 = self).
Proof.
  intros key. eexists. split; [reflexivity|].
  unfold op_release; cbn. fold key.
  split; [|split; [|split; [|split]]].
  - unfold set_bindings; cbn. now rewrite delete_delete_eq.
  - apply lookup_delete_eq.
  - intros k' Hne. now apply lookup_delete_ne.
  - reflexivity.
  - unfold dict_has, dict_len. rewrite map_size_delete.
    destruct (bindings self !! key) as [v|] eqn:E; cbn.
    + assert (size (bindings self) ≠ 0%nat)
        by (apply map_size_ne_0_lookup_2 with key; now rewrite E).
      lia.
    + rewrite delete_id by exact E. now destruct self.
Qed.

(** X3.  BIND and the conditions of GATE agree: after BIND k v in a
    dictionary that is not full, where the key is a word without white
    space, [bound k] holds and [unbound k] does not; after RELEASE k it is
    the other way round, and when the key was not bound before the BIND the
    bindings are the ones before it. *)
Theorem bind_release_round_trip (repr_block : list Operation → string)
    (config : VMConfig) (k v : Value) (self : VM) :
  dict_len (bindings self) < max_bindings config →
  is_word (py_str repr_block k) = true →
  let key := py_str repr_block k in
  ∃ s1 s2,
    op_bind repr_block config k v self = Normal s1
    ∧ evaluate_condition ("bound " +:+ key) s1 = inr true
    ∧ evaluate_condition ("unbound " +:+ key) s1 = inr false
    ∧ op_release repr_block k s1 = Normal s2
    ∧ evaluate_condition ("bound " +:+ key) s2 = inr false
    ∧ evaluate_condition ("unbound " +:+ key) s2 = inr true
    ∧ (if dict_has key (bindings self) then True
       else bindings s2 = bindings self).
Proof.
  intros Hroom Hword key. eexists. eexists.
  split; [now apply op_bind_room|].
  rewrite !evaluate_bound, !evaluate_unbound by exact Hword.
  unfold dict_has; cbn. fold key. rewrite lookup_insert_eq.
  split; [reflexivity|]. split; [reflexivity|].
  split; [reflexivity|]. cbn. fold key. rewrite lookup_delete_eq.
  split; [reflexivity|]. split; [reflexivity|].
  destruct (bindings self !! key) eqn:E; [exact I|].
  now rewrite delete_insert_id.
Qed.

Lemma bind_release_round_trip_witness :
  (dict_len (bindings reset) < max_bindings default_config
   ∧ is_word (py_str repr_unused (VStr "done")) = true)
  ∧ ∃ s1 s2,
      op_bind repr_unused default_config (VStr "done") (VStr "yes") reset
      = Normal s1
      ∧ evaluate_condition "bound done" s1 = inr true
      ∧ evaluate_condition "unbound done" s1 = inr false
      ∧ op_release repr_unused (VStr "done") s1 = Normal s2
      ∧ evaluate_condition "bound done" s2 = inr false
      ∧ evaluate_condition "unbound done" s2 = inr true
      ∧ (if dict_has "done" (bindings reset) then True
         else bindings s2 = bindings reset).
Proof.
  assert (H1 : dict_len (bindings reset) < max_bindings default_config)
    by (vm_compute; reflexivity).
  assert (H2 : is_word (py_str repr_unused (VStr "done")) = true)
    by reflexivity.
  split; [split; assumption|].
  exact (bind_release_round_trip repr_unused default_config (VStr "done")
           (VStr "yes") reset H1 H2).
Defined.

(** Case analysis on the operator of an operation, and on every test that
    an operator makes. *)
Ltac operator_cases o :=
  repeat match goal with
         | |- context [String.eqb o ?k] =>
             destruct (String.eqb_spec o k) as [-> | ?]
         end.

Ltac operator_tests :=
  repeat match goal with
         | |- context [match ?x with _ => _ end] => destruct x; cbn
         end.

(** X4.  Only PUSH, INVERT and SATURATE can change the stack, and only BIND,
    RELEASE and SATURATE can change the bindings: whatever an operation of
    another operator does, return or raise, it leaves them as they were. *)
Theorem only_writers_write (repr_block : list Operation → string)
    (config : VMConfig) (op : Operation) (self : VM) :
  (if writes_stack (operator op) then True
   else stack (state_of (execute_operation repr_block config op self))
        = stack self)
  ∧ (if writes_bindings (operator op) then True
     else bindings (state_of (execute_operation repr_block config op self))
          = bindings self).
Proof.
  rewrite execute_operation_dispatch.
  destruct op as [o args l]; cbn [operator arguments].
  unfold count_operation, dispatch, writes_stack, writes_bindings.
  destruct (operation_counter self >=? max_operations config);
    operator_cases o; cbn; try (split; exact I || reflexivity);
    unfold op_push, op_bind, op_gate, op_witness;
    operator_tests; split; exact I || reflexivity.
Qed.

(** X5.  An operator other than SATURATE that raises has changed neither
    the stack, nor the bindings, nor the trace, nor the phase counter: a
    PUSH on a full stack, a BIND in a full dictionary, a GATE, a missing
    argument leave them as they were, and so does HALT. *)
Theorem failure_leaves_state (repr_block : list Operation → string)
    (config : VMConfig) (op : Operation) (self self' : VM) (e : Exn) :
  String.eqb (operator op) "SATURATE" = false →
  execute_operation repr_block config op self = Raise e self' →
  stack self' = stack self
  ∧ bindings self' = bindings self
  ∧ trace self' = trace self
  ∧ phase_counter self' = phase_counter self
  ∧ current_phase_name self' = current_phase_name self.
Proof.
  rewrite execute_operation_dispatch.
  destruct op as [o args l]; cbn [operator arguments].
  unfold count_operation, dispatch. intros Hsat. rewrite Hsat.
  destruct (operation_counter self >=? max_operations config);
    [intros [= _ <-]; repeat split|].
  operator_cases o; cbn;
    unfold op_push, op_bind, op_gate, op_witness;
    operator_tests; intros [= ? <-] || discriminate; repeat split.
Qed.

Lemma failure_leaves_state_witness :
  (String.eqb (operator push_c) "SATURATE" = false
   ∧ execute_operation repr_unused full_stack_config push_c ab_state
     = Raise (StackOverflowError "Stack overflow (max depth: 2)")
         (set_operation_counter 1 ab_state))
  ∧ stack (set_operation_counter 1 ab_state) = stack ab_state
  ∧ bindings (set_operation_counter 1 ab_state) = bindings ab_state.
Proof.
  assert (H1 : String.eqb (operator push_c) "SATURATE" = false) by reflexivity.
  assert (H2 : execute_operation repr_unused full_stack_config push_c ab_state
               = Raise (StackOverflowError "Stack overflow (max depth: 2)")
                   (set_operation_counter 1 ab_state)) by reflexivity.
  split; [split; assumption|].
  destruct (failure_leaves_state repr_unused full_stack_config push_c ab_state
              (set_operation_counter 1 ab_state)
              (StackOverflowError "Stack overflow (max depth: 2)") H1 H2)
    as (Ha & Hb & _).
  split; assumption.
Defined.

(** ** The counters *)

(** The operators on a property that compares the fields of two states. *)
Ltac operator_steps tac :=
  intros;
  unfold counter_grows, phase_kept, count_operation, op_push, op_invert,
    op_bind, op_release, op_witness, op_halt in *;
  repeat match goal with
         | |- context [if ?b then _ else _] => destruct b
         end;
  cbn in *; subst; tac.

Section Counters.

Variable repr_block : list Operation → string.
Variable config : VMConfig.

Lemma counter_grows_dispatch (o : string) (args : list Argument) (s : VM) :
  counter_grows s (dispatch repr_block config o args s).
Proof. apply Q_dispatch; operator_steps lia. Qed.

Lemma counter_grows_phases (ps : list Phase) (s : VM) :
  counter_grows s (execute_phases repr_block config ps s).
Proof. apply Q_execute_phases; operator_steps lia. Qed.

Lemma phase_kept_operations (ops : list Operation) (s : VM) :
  phase_kept s (execute_operations repr_block config ops s).
Proof. apply Q_execute_operations; operator_steps congruence. Qed.

(** The phases started are at most the phases there are. *)
Lemma phase_counter_bounds (ps : list Phase) (s : VM) :
  phase_counter s
  <= phase_counter (state_of (execute_phases repr_block config ps s))
  <= phase_counter s + len ps.
Proof.
  revert s. induction ps as [|p ps IH]; intros s; unfold len in *;
    cbn [execute_phases length]; [cbn; lia|].
  destruct (halted s); [cbn; lia|].
  unfold execute_phase.
  pose proof (phase_kept_operations (operations p)
                (set_phase_counter (phase_counter s + 1)
                   (set_current_phase_name (Some (name p)) s))) as Hp.
  unfold phase_kept in Hp. cbn in Hp.
  destruct (execute_operations _ _ _ _) as [s1|e s1]; cbn in *; [|lia].
  specialize (IH s1). lia.
Qed.

(** The first phase is started when the machine is not halted. *)
Lemma phase_counter_first (p : Phase) (ps : list Phase) (s : VM) :
  halted s = false →
  phase_counter s + 1
  <= phase_counter (state_of (execute_phases repr_block config (p :: ps) s)).
Proof.
  intros Hh. cbn [execute_phases]. rewrite Hh. unfold execute_phase.
  pose proof (phase_kept_operations (operations p)
                (set_phase_counter (phase_counter s + 1)
                   (set_current_phase_name (Some (name p)) s))) as Hp.
  unfold phase_kept in Hp. cbn in Hp.
  destruct (execute_operations _ _ _ _) as [s1|e s1]; cbn in *; [|lia].
  pose proof (phase_counter_bounds ps s1). lia.
Qed.

(** Phases that all return have all been started. *)
Lemma phase_counter_normal (ps : list Phase) (s s' : VM) :
  halted s = false →
  execute_phases repr_block config ps s = Normal s' →
  phase_counter s' = phase_counter s + len ps ∧ halted s' = false.
Proof.
  revert s. induction ps as [|p ps IH]; intros s Hh; unfold len in *;
    cbn [execute_phases length].
  - intros [= <-]. cbn. split; [lia|exact Hh].
  - rewrite Hh. unfold execute_phase.
    match goal with
    | |- context [execute_operations _ _ _ ?s0] =>
        pose proof (phase_kept_operations (operations p) s0) as Hp;
        pose proof (halted_execute_operations repr_block config
                      (operations p) s0) as Hk
    end.
    unfold phase_kept in Hp. cbn in Hp, Hk.
    destruct (execute_operations _ _ _ _) as [s1|e s1]; [|discriminate].
    cbn in Hp, Hk. intros Hrest.
    destruct (IH s1 ltac:(congruence) Hrest) as [H1 H2].
    split; [lia|exact H2].
Qed.

End Counters.

(** X6.  An operation dispatched within the operation budget is counted:
    the counter is at least one more afterwards, whether the operation
    returns or raises, and exactly one more for every operator but SATURATE,
    which also counts the operations of its block. *)
Theorem operations_counted (repr_block : list Operation → string)
    (config : VMConfig) (op : Operation) (self : VM) :
  operation_counter self < max_operations config →
  operation_counter self + 1
  <= operation_counter (state_of (execute_operation repr_block config op self))
  ∧ (if String.eqb (operator op) "SATURATE" then True
     else operation_counter
            (state_of (execute_operation repr_block config op self))
          = operation_counter self + 1).
Proof.
  intros Hlt. rewrite execute_operation_counted by exact Hlt. split.
  - pose proof (counter_grows_dispatch repr_block config (operator op)
                  (arguments op)
                  (set_operation_counter (operation_counter self + 1) self))
      as H.
    unfold counter_grows in H. cbn in H. exact H.
  - destruct op as [o args l]; cbn [operator arguments]. unfold dispatch.
    destruct (String.eqb_spec o "SATURATE") as [-> | Hne]; [exact I|].
    operator_cases o; cbn;
      unfold op_push, op_bind, op_gate, op_witness;
      operator_tests; reflexivity.
Qed.

Lemma operations_counted_witness :
  operation_counter ab_state < max_operations full_stack_config
  ∧ operation_counter ab_state + 1
    <= operation_counter
         (state_of (execute_operation repr_unused full_stack_config push_c
                      ab_state)).
Proof.
  assert (H : operation_counter ab_state < max_operations full_stack_config)
    by (vm_compute; reflexivity).
  split; [exact H|].
  exact (proj1 (operations_counted repr_unused full_stack_config push_c
                  ab_state H)).
Defined.

(** X7.  In a result that [execute] returns, [phases_executed] counts the
    phases that were started: it is at most the number of phases of the
    program and at least one when the program has a phase, and
    [operations_executed] is not negative.  A result with status [COMPLETE]
    has started every phase.  The result has no error message exactly when
    its status is [COMPLETE] or [HALTED]. *)
Theorem phases_counted (repr_block : list Operation → string)
    (config : VMConfig) (program : Program) (result : ExecutionResult) :
  execute repr_block config program = Returned result →
  0 <= operations_executed result
  ∧ phases_executed result <= len (phases program)
  ∧ (if is_none (head (phases program)) then phases_executed result = 0
     else 1 <= phases_executed result)
  ∧ (if String.eqb (status result) "COMPLETE"
     then phases_executed result = len (phases program)
     else True)
  ∧ is_none (error_message result) = is_success (status result).
Proof.
  unfold execute. intros Hexec.
  pose proof (counter_grows_phases repr_block config (phases program) reset)
    as Hc.
  pose proof (phase_counter_bounds repr_block config (phases program) reset)
    as Hb.
  assert (Hfirst : if is_none (head (phases program))
                   then phase_counter
                          (state_of (execute_phases repr_block config
                                       (phases program) reset)) = 0
                   else 1 <= phase_counter
                               (state_of (execute_phases repr_block config
                                            (phases program) reset))).
  { destruct (phases program) as [|p ps]; cbn [head is_none]; [reflexivity|].
    now apply (phase_counter_first repr_block config p ps reset). }
  pose proof (phase_counter_normal repr_block config (phases program) reset)
    as Hn.
  unfold counter_grows in Hc.
  destruct (execute_phases repr_block config (phases program) reset)
    as [s|e s]; cbn in Hc, Hb, Hfirst.
  - destruct (Hn s eq_refl eq_refl) as [Hall Hh]. rewrite Hh in Hexec.
    injection Hexec as <-. cbn.
    repeat split; try assumption; lia.
  - destruct e; try discriminate Hexec; injection Hexec as <-; cbn;
      repeat split; try assumption; lia.
Qed.

Lemma phases_counted_witness :
  execute repr_unused default_config push_halt_program
  = Returned push_halt_result
  ∧ 0 <= operations_executed push_halt_result
  ∧ phases_executed push_halt_result <= len (phases push_halt_program).
Proof.
  assert (H : execute repr_unused default_config push_halt_program
              = Returned push_halt_result) by reflexivity.
  split; [exact H|].
  destruct (phases_counted repr_unused default_config push_halt_program
              push_halt_result H) as (Ha & Hb & _).
  split; assumption.
Defined.

(** ** HALT *)



(** ** Where [BreakBlock] can come from *)

Section Break.

Variable repr_block : list Operation → string.
Variable config : VMConfig.

(** SATURATE handles every [BreakBlock] of its block and raises none. *)
Lemma saturate_loop_no_break (block : VM → Completion) (fuel : nat)
    (iteration : Z) (s : VM) :
  is_break (saturate_loop config block fuel iteration s).2 = false.
Proof.
  revert iteration s. induction fuel as [|fuel IH]; intros iteration s; cbn;
    [reflexivity|].
  destruct (iteration <? max_saturate_iterations config); [|reflexivity].
  destruct (block s) as [s1|e s1].
  - destruct (states_equal _ _); [reflexivity|apply IH].
  - destruct e; reflexivity.
Qed.

Lemma op_saturate_no_break (block : VM → Completion) (s : VM) :
  is_break (op_saturate config block s) = false.
Proof.
  unfold op_saturate.
  pose proof (saturate_loop_no_break block
                (Z.to_nat (max_saturate_iterations config)) 0 s) as H.
  destruct (saturate_loop _ _ _ _ _) as [iteration [s1|e s1]]; cbn in *;
    [|exact H].
  destruct (iteration >=? max_saturate_iterations config); reflexivity.
Qed.

(** Only a GATE lets [BreakBlock] out. *)
Lemma execute_operation_no_break (op : Operation) (s : VM) :
  is_gate op = false →
  is_break (execute_operation repr_block config op s) = false.
Proof.
  rewrite execute_operation_dispatch. unfold is_gate.
  destruct op as [o args l]; cbn [operator arguments]. intros Hgate.
  unfold count_operation, dispatch. rewrite Hgate.
  destruct (operation_counter s >=? max_operations config); [reflexivity|].
  operator_cases o; cbn;
    try (destruct args as [|a0 args]; [reflexivity|apply op_saturate_no_break]);
    unfold op_push, op_bind, op_witness;
    operator_tests; reflexivity.
Qed.

Lemma execute_operations_no_break (ops : list Operation) (s : VM) :
  forallb (λ op, negb (is_gate op)) ops = true →
  is_break (execute_operations repr_block config ops s) = false.
Proof.
  revert s. induction ops as [|op ops IH]; intros s; cbn; [reflexivity|].
  intros [Hop Hops]%andb_prop. apply negb_true_iff in Hop.
  destruct (halted s); [reflexivity|].
  pose proof (execute_operation_no_break op s Hop) as H.
  destruct (execute_operation repr_block config op s) as [s1|e s1];
    [now apply IH|exact H].
Qed.

Lemma execute_phases_no_break (ps : list Phase) (s : VM) :
  forallb (λ p, forallb (λ op, negb (is_gate op)) (operations p)) ps = true →
  is_break (execute_phases repr_block config ps s) = false.
Proof.
  revert s. induction ps as [|p ps IH]; intros s; cbn; [reflexivity|].
  intros [Hp Hps]%andb_prop.
  destruct (halted s); [reflexivity|]. unfold execute_phase.
  match goal with
  | |- context [execute_operations _ _ _ ?s0] =>
      pose proof (execute_operations_no_break (operations p) s0 Hp) as H
  end.
  destruct (execute_operations _ _ _ _) as [s1|e s1];
    [now apply IH|exact H].
Qed.

End Break.

(** X9.  [BreakBlock] leaves [execute] only from a GATE at the top level of
    a phase: SATURATE handles the [BreakBlock] of the GATEs of its block,
    at any depth, and no other operator raises it.  So a program with no
    top-level GATE never escapes with [BreakBlock]. *)
Theorem break_only_from_top_level_gate (repr_block : list Operation → string)
    (config : VMConfig) (program : Program) :
  no_top_level_gate program = true →
  execute repr_block config program ≠ Escaped BreakBlock.
Proof.
  intros Hgate. unfold execute.
  pose proof (execute_phases_no_break repr_block config (phases program) reset
                Hgate) as H.
  destruct (execute_phases repr_block config (phases program) reset)
    as [s|e s]; [discriminate|].
  destruct e; first [discriminate H | discriminate].
Qed.

Lemma break_only_from_top_level_gate_witness :
  no_top_level_gate saturate_gate_program = true
  ∧ execute repr_unused default_config saturate_gate_program
    ≠ Escaped BreakBlock.
Proof.
  assert (H : no_top_level_gate saturate_gate_program = true) by reflexivity.
  split; [exact H|].
  exact (break_only_from_top_level_gate repr_unused default_config
           saturate_gate_program H).
Defined.

(** ** The trace *)

Section Trace.

Variable repr_block : list Operation → string.
Variable config : VMConfig.

Lemma numbered_app (lo mid hi : Z) (t1 t2 : list Checkpoint) :
  numbered_from lo t1 mid → numbered_from mid t2 hi →
  numbered_from lo (t1 ++ t2) hi.
Proof.
  revert lo. induction t1 as [|r t1 IH]; intros lo; cbn.
  - destruct t2 as [|r2 t2]; cbn; [lia|]. intros H1 [H2 H3].
    split; [lia|exact H3].
  - intros [H1 H2] H3. split; [exact H1|now apply IH].
Qed.

Lemma numbered_lower (lo lo' hi : Z) (t : list Checkpoint) :
  lo' <= lo → numbered_from lo t hi → numbered_from lo' t hi.
Proof. destruct t; cbn; [lia|]. intros H [H1 H2]. split; [lia|exact H2]. Qed.

(** Numbers that increase strictly leave room for at most [hi - lo]
    checkpoints. *)
Lemma numbered_count (lo hi : Z) (t : list Checkpoint) :
  numbered_from lo t hi → lo + len t <= hi.
Proof.
  unfold len. revert lo. induction t as [|r t IH]; intros lo; cbn [numbered_from length];
    [lia|].
  intros [H1 H2]. specialize (IH _ H2). lia.
Qed.

Lemma records_same (s : VM) (c : Completion) :
  state_of c = s → records_after s c.
Proof.
  intros <-. exists []. split; [now rewrite app_nil_r|cbn; lia].
Qed.

Lemma records_trans (s s1 : VM) (c : Completion) :
  records_after s (Normal s1) → records_after s1 c → records_after s c.
Proof.
  intros (t1 & H1 & N1) (t2 & H2 & N2). cbn in *.
  exists (t1 ++ t2). split; [now rewrite H2, H1, app_assoc|].
  now apply numbered_app with (operation_counter s1).
Qed.

Lemma records_count (s : VM) : records_after s (count_operation config s).
Proof.
  unfold count_operation.
  destruct (operation_counter s >=? max_operations config);
    [now apply records_same|].
  exists []. split; [now rewrite app_nil_r|cbn; lia].
Qed.

(** An operation that is counted and then leaves the trace alone, or adds
    checkpoints numbered from the new count on. *)
Lemma records_counted (s : VM) (c : Completion) :
  records (operation_counter s)
    (set_operation_counter (operation_counter s + 1) s) c →
  records_after s c.
Proof. exact (λ H, H). Qed.

Lemma records_saturate (block : VM → Completion) (s : VM) :
  (∀ s0, records_after s0 (block s0)) →
  records_after s (op_saturate config block s).
Proof.
  intros Hblock. apply Q_saturate;
    [exact records_same | exact records_trans | auto | auto | exact Hblock].
Qed.

Lemma records_block (ops : list Operation) :
  Forall (λ op, ∀ s, records_after s
                       (execute_operation repr_block config op s)) ops →
  ∀ s, records_after s (execute_block repr_block config ops s).
Proof.
  apply Q_execute_block; [exact records_same|exact records_trans].
Qed.

Lemma records_execute_operation (op : Operation) :
  ∀ s, records_after s (execute_operation repr_block config op s).
Proof.
  induction op as [o args l IH] using Operation_nested_ind; intros s.
  rewrite execute_operation_dispatch; cbn [operator arguments].
  unfold count_operation.
  destruct (operation_counter s >=? max_operations config);
    [now apply records_same|].
  apply records_counted. unfold dispatch.
  destruct (String.eqb_spec o "SATURATE") as [-> | Hsat].
  - cbn. destruct args as [|[t v] args]; [exists []; cbn; split;
      [now rewrite app_nil_r|lia]|].
    inversion IH as [|? ? Ha0 _]; subst. cbn in Ha0.
    match goal with
    | |- records _ ?s1 (op_saturate _ ?b _) =>
        assert (Hs : records_after s1 (op_saturate config b s1))
    end.
    { apply records_saturate. intros s0.
      destruct v as [w|n|ops]; cbn;
        [|now apply records_same|now apply records_block].
      apply Q_block_of_str;
        [exact records_same|exact records_trans|exact records_count]. }
    destruct Hs as (t' & H1 & H2). exists t'. split; [exact H1|].
    cbn in H2. apply numbered_lower with (operation_counter s + 1);
      [lia|exact H2].
  - destruct (String.eqb_spec o "WITNESS") as [-> | Hwit].
    + cbn. unfold op_witness. destruct (trace_enabled config); cbn.
      * eexists. split; [reflexivity|]. cbn. lia.
      * exists []. split; [now rewrite app_nil_r|cbn; lia].
    + exists []. split; [rewrite app_nil_r|cbn];
        operator_cases o; cbn;
        unfold op_push, op_bind, op_gate;
        operator_tests; reflexivity || lia.
Qed.

Lemma records_execute_operations (ops : list Operation) (s : VM) :
  records_after s (execute_operations repr_block config ops s).
Proof.
  revert s. induction ops as [|op ops IH]; intros s; cbn;
    [now apply records_same|].
  destruct (halted s); [now apply records_same|].
  pose proof (records_execute_operation op s) as Hop.
  destruct (execute_operation repr_block config op s) as [s1|e s1];
    [|exact Hop].
  apply records_trans with s1; [exact Hop|apply IH].
Qed.

Lemma records_execute_phases (ps : list Phase) (s : VM) :
  records_after s (execute_phases repr_block config ps s).
Proof.
  revert s. induction ps as [|p ps IH]; intros s; cbn;
    [now apply records_same|].
  destruct (halted s); [now apply records_same|]. unfold execute_phase.
  match goal with
  | |- context [execute_operations _ _ _ ?s0] =>
      pose proof (records_execute_operations (operations p) s0) as Hp;
      assert (H0 : records_after s (Normal s0))
        by (exists []; split; [now rewrite app_nil_r|cbn; lia])
  end.
  destruct (execute_operations _ _ _ _) as [s1|e s1].
  - eapply records_trans; [exact H0|].
    eapply records_trans; [exact Hp|apply IH].
  - eapply records_trans; [exact H0|exact Hp].
Qed.

End Trace.

(** X10.  The trace of a result lists its checkpoints in the order of the
    run: their operation numbers increase strictly, the first is at least 1
    and the last at most [operations_executed], so there are at most
    [operations_executed] of them; without [trace_enabled] there is none.
    The trace only grows: whatever an operation does, a SATURATE with its
    block too, the checkpoints that were there stay as they were, and the
    new ones come after them; a WITNESS that traces adds one checkpoint, with
    the name of the phase, the operation counter, the stack and the bindings
    of the moment, and changes nothing else. *)
Theorem trace_numbered (repr_block : list Operation → string)
    (config : VMConfig) (program : Program) (result : ExecutionResult) :
  execute repr_block config program = Returned result →
  numbered_from 0 (result_trace result) (operations_executed result)
  ∧ len (result_trace result) <= operations_executed result
  ∧ (if trace_enabled config then True else result_trace result = [])
  ∧ (∀ op self,
       ∃ added,
         trace (state_of (execute_operation repr_block config op self))
         = trace self ++ added
         ∧ numbered_from (operation_counter self) added
             (operation_counter
                (state_of (execute_operation repr_block config op self))))
  ∧ (∀ self,
       op_witness config self
       = if trace_enabled config
         then Normal (set_trace
                        (trace self
                         ++ [mkCheckpoint (current_phase_name self)
                               (operation_counter self) (stack self)
                               (bindings self)])
                        self)
         else Normal self).
Proof.
  unfold execute. intros Hexec.
  destruct (records_execute_phases repr_block config (phases program) reset)
    as (t & Ht & Hn).
  change (operation_counter reset) with 0 in Hn.
  cbn in Ht. pose proof (numbered_count _ _ _ Hn) as Hcount.
  assert (Hres : ∀ st m s,
             s = state_of (execute_phases repr_block config (phases program)
                             reset) →
             result = make_result config st m s →
             numbered_from 0 (result_trace result) (operations_executed result)
             ∧ len (result_trace result) <= operations_executed result
             ∧ (if trace_enabled config then True else result_trace result = [])).
  { intros st m s -> ->. cbn.
    destruct (trace_enabled config); cbn.
    - rewrite Ht. repeat split; [exact Hn|lia].
    - unfold len in *. cbn. repeat split; lia. }
  assert (Hthree :
            numbered_from 0 (result_trace result) (operations_executed result)
            ∧ len (result_trace result) <= operations_executed result
            ∧ (if trace_enabled config then True
               else result_trace result = [])).
  { destruct (execute_phases repr_block config (phases program) reset)
      as [s|e s].
    - injection Hexec as <-. now eapply Hres.
    - destruct e; try discriminate Hexec; injection Hexec as <-;
        now eapply Hres. }
  destruct Hthree as (H1 & H2 & H3).
  split; [exact H1|]. split; [exact H2|]. split; [exact H3|].
  split; [|reflexivity].
  intros op self. exact (records_execute_operation repr_block config op self).
Qed.

Lemma trace_numbered_witness :
  execute repr_unused tracing_config witness_program = Returned witness_result
  ∧ numbered_from 0 (result_trace witness_result)
      (operations_executed witness_result)
  ∧ len (result_trace witness_result) <= operations_executed witness_result.
Proof.
  assert (H : execute repr_unused tracing_config witness_program
              = Returned witness_result) by reflexivity.
  split; [exact H|].
  destruct (trace_numbered repr_unused tracing_config witness_program
              witness_result H) as (Ha & Hb & _).
  split; assumption.
Defined.

(** ** The tokens *)

Section Tokens.

Import Tokenizer.

Lemma span_all (p : ascii → bool) (s : string) :
  all_chars p (span p s).1 = true.
Proof.
  induction s as [|c r IH]; cbn; [reflexivity|].
  destruct (p c) eqn:E; [|reflexivity].
  destruct (span p r) as [a b]; cbn in *. now rewrite E.
Qed.

Lemma span_stop (p : ascii → bool) (s : string) (q : ascii) (b : string) :
  (span p s).2 = String q b → p q = false.
Proof.
  induction s as [|c r IH]; cbn; [discriminate|].
  destruct (p c) eqn:E.
  - destruct (span p r) as [a b']; cbn in *. exact IH.
  - cbn. now intros [= <- _].
Qed.

Lemma drop_last_app (a : string) (q : ascii) :
  drop_last (a +:+ String q EmptyString) = a.
Proof.
  induction a as [|c a IH]; [reflexivity|].
  rewrite app_cons. cbn [drop_last]. rewrite IH.
  destruct a; reflexivity.
Qed.

Lemma re_char_text (c : ascii) (s text rest : string) :
  re_char c s = Some (text, rest) → text = String c EmptyString.
Proof.
  destruct s as [|d r]; cbn; [discriminate|].
  destruct (Ascii.eqb_spec c d) as [-> | _]; [|discriminate].
  now intros [= <- _].
Qed.

Lemma re_first_rest_text (first rest_class : ascii → bool)
    (s text rest : string) :
  re_first_rest first rest_class s = Some (text, rest) →
  ∃ c a, text = String c a ∧ first c = true ∧ all_chars rest_class a = true.
Proof.
  destruct s as [|c r]; cbn; [discriminate|].
  destruct (first c) eqn:E; [|discriminate].
  pose proof (span_all rest_class r) as H.
  destruct (span rest_class r) as [a b]. intros [= <- _].
  exists c, a. auto.
Qed.

Lemma re_string_text (s text rest : string) :
  re_string s = Some (text, rest) → has_no_quote (unquote text) = true.
Proof.
  destruct s as [|c r]; cbn; [discriminate|].
  destruct (Ascii.eqb c quote); [|discriminate].
  pose proof (span_all (λ d, negb (Ascii.eqb d quote)) r) as H.
  destruct (span _ r) as [a [|q b]]; [discriminate|].
  intros [= <- _]. cbn [unquote]. now rewrite drop_last_app.
Qed.

(** What the alternation matches is a comment, white space, or the text of
    a token of its kind. *)
Lemma first_match_shape (s token_type text rest : string) (line column : Z) :
  first_match TOKEN_PATTERNS s = Some (token_type, text, rest) →
  token_type = "COMMENT" ∨ token_type = "WHITESPACE"
  ∨ token_ok (token_type,
              if String.eqb token_type "STRING" then unquote text else text,
              line, column) = true.
Proof.
  unfold TOKEN_PATTERNS, first_match.
  destruct (re_first_rest _ _ s) as [[? ?]|] eqn:E1;
    [intros [= <- _ _]; now left|].
  destruct (re_char "{" s) as [[? ?]|] eqn:E2.
  { intros [= <- <- _]. right; right. apply re_char_text in E2. now subst. }
  destruct (re_char "}" s) as [[? ?]|] eqn:E3.
  { intros [= <- <- _]. right; right. apply re_char_text in E3. now subst. }
  destruct (re_string s) as [[? ?]|] eqn:E4.
  { intros [= <- <- _]. right; right. cbn. now apply re_string_text in E4. }
  destruct (re_plus PyStr.is_digit s) as [[? ?]|] eqn:E5.
  { intros [= <- <- _]. right; right. cbn.
    apply re_first_rest_text in E5 as (c & a & -> & Hc & Ha).
    unfold is_number. cbn. now rewrite Hc, Ha. }
  destruct (re_first_rest (λ c, PyStr.is_upper c || is_underscore c) _ s)
    as [[? ?]|] eqn:E6.
  { intros [= <- <- _]. right; right. cbn.
    apply re_first_rest_text in E6 as (c & a & -> & Hc & Ha).
    cbn. now rewrite Hc, Ha. }
  destruct (re_first_rest (λ c, PyStr.is_lower c || is_underscore c) _ s)
    as [[? ?]|] eqn:E7.
  { intros [= <- <- _]. right; right. cbn.
    apply re_first_rest_text in E7 as (c & a & -> & Hc & Ha).
    cbn. now rewrite Hc, Ha. }
  destruct (re_plus is_symbol s) as [[? ?]|] eqn:E8.
  { intros [= <- <- _]. right; right. cbn.
    apply re_first_rest_text in E8 as (c & a & -> & Hc & Ha).
    unfold is_symbol_text. cbn. now rewrite Hc, Ha. }
  destruct (re_plus is_blank s) as [[? ?]|] eqn:E9;
    [intros [= <- _ _]; now right; left|discriminate].
Qed.

Lemma scan_tokens_ok (fuel : nat) (s : string) (line column : Z) :
  forallb token_ok (scan fuel s line column) = true.
Proof.
  revert s line column.
  induction fuel as [|fuel IH]; intros s line column; [reflexivity|].
  cbn [scan]. destruct s as [|c next]; [reflexivity|].
  destruct (first_match TOKEN_PATTERNS (String c next))
    as [[[token_type text] rest]|] eqn:E; [|apply IH].
  destruct (String.eqb_spec token_type "WHITESPACE") as [-> | Hw]; [apply IH|].
  destruct (String.eqb_spec token_type "COMMENT") as [-> | Hc]; [apply IH|].
  cbn [forallb]. rewrite IH, andb_true_r.
  destruct (first_match_shape _ _ _ _ line column E) as [-> | [-> | H]];
    [contradiction..|exact H].
Qed.

Lemma count_nonneg (c : ascii) (s : string) : 0 <= PyStr.count c s.
Proof.
  induction s as [|d r IH]; cbn; [lia|]. destruct (Ascii.eqb c d); lia.
Qed.

Lemma positions_lower (lo lo' : Z) (tokens : list Token) :
  lo' <= lo → positions_from lo tokens → positions_from lo' tokens.
Proof.
  destruct tokens as [|[[[t v] l] c] rest]; cbn; [trivial|].
  intros H (H1 & H2 & H3). repeat split; [lia|exact H2|exact H3].
Qed.

Lemma scan_positions (fuel : nat) (s : string) (line column : Z) :
  1 <= column → positions_from line (scan fuel s line column).
Proof.
  revert s line column.
  induction fuel as [|fuel IH]; intros s line column Hcol; [exact I|].
  cbn [scan]. destruct s as [|c next]; [exact I|].
  destruct (first_match TOKEN_PATTERNS (String c next))
    as [[[token_type text] rest]|] eqn:E; [|now apply IH].
  pose proof (count_nonneg newline text) as Hn.
  assert (Hlen : ∀ t, 0 <= len t) by (intros t; unfold len; lia).
  destruct (String.eqb token_type "WHITESPACE").
  { apply positions_lower with (line + PyStr.count newline text); [lia|].
    apply IH. destruct (0 <? PyStr.count newline text).
    - pose proof (Hlen (last_line EmptyString text)). lia.
    - pose proof (Hlen text). lia. }
  destruct (String.eqb token_type "COMMENT").
  { apply positions_lower with (line + 1); [lia|]. apply IH. lia. }
  cbn [positions_from]. repeat split; [lia|exact Hcol|].
  apply IH. pose proof (Hlen text). lia.
Qed.

End Tokens.

(** X11.  Every token that the tokenizer emits is of one of the seven kinds
    LBRACE, RBRACE, STRING, NUMBER, KEYWORD, IDENT, SYMBOL, never a comment or
    white space, and its value has the shape of its kind: a brace, a text
    without a double quote, a non-empty string of digits, an upper-case or a
    lower-case identifier, a non-empty string of the characters < > = !. *)
Theorem tokens_well_formed (source : string) :
  forallb token_ok (Tokenizer.tokenize source) = true.
Proof. apply scan_tokens_ok. Qed.

(** X12.  The tokens come with lines that never decrease, starting from
    line 1, and with columns that are at least 1. *)
Theorem tokens_in_order (source : string) :
  positions_from 1 (Tokenizer.tokenize source).
Proof. apply scan_positions. lia. Qed.

(** ** What the parser builds *)

Section ParsedTrees.

Import Parser.

Variable short : bool.

Lemma decimal_nonneg (s : string) (acc : Z) :
  all_chars PyStr.is_digit s = true → 0 <= acc → 0 <= decimal acc s.
Proof.
  revert acc. induction s as [|c r IH]; intros acc; cbn; [trivial|].
  destruct (PyStr.is_digit c) eqn:E; [cbn|discriminate].
  intros Hr Hacc. apply IH; [exact Hr|].
  assert (0 <= PyStr.digit_value c); [|lia].
  unfold PyStr.is_digit in E. apply andb_prop in E as [E _].
  apply N.leb_le in E. unfold PyStr.digit_value. lia.
Qed.

Lemma consume_parses (expected_type : option string) (tokens : list Token) :
  forallb (token_read short) tokens = true →
  parses short (token_read short) (consume expected_type tokens).
Proof.
  destruct tokens as [|[[[t v] l] c] rest]; [intros _; exact I|].
  cbn [forallb]. intros [H1 H2]%andb_prop. cbn [consume].
  destruct (match expected_type with Some e => _ | None => false end);
    [exact I|now split].
Qed.

(** The token that [consume] returns when a kind is asked for is of that
    kind. *)
Lemma consume_kind (kind : string) (tokens rest : list Token)
    (t v : string) (l c : Z) :
  PyStr.is_empty kind = false →
  consume (Some kind) tokens = POk (t, v, l, c) rest → t = kind.
Proof.
  intros Hk. destruct tokens as [|[[[t' v'] l'] c'] rest']; [discriminate|].
  cbn [consume]. rewrite Hk. cbn.
  destruct (String.eqb_spec t' kind) as [-> | _]; cbn; [|discriminate].
  now intros [= <- _ _ _ _].
Qed.

Lemma parse_argument_parses (tokens : list Token) :
  forallb (token_read short) tokens = true →
  parses short arg_ok (parse_argument tokens).
Proof.
  destruct tokens as [|[[[t v] l] c] rest]; [intros _; exact I|].
  cbn [forallb]. intros [[H1 Hs]%andb_prop H2]%andb_prop.
  cbn [parse_argument].
  destruct (String.eqb_spec t "STRING") as [-> | _]; [now split|].
  destruct (String.eqb_spec t "NUMBER") as [-> | _].
  { cbn in H1. rewrite (int_number v H1).
    destruct (PyStr.int_max_str_digits <? PyStr.digit_count v) eqn:E; cbn.
    - destruct short; [|reflexivity]. cbn in Hs. lia.
    - split; [|exact H2].
      apply Z.leb_le. apply decimal_nonneg; [|lia].
      unfold is_number in H1. now apply andb_prop in H1 as [_ H1]. }
  destruct (String.eqb_spec t "IDENT") as [-> | _]; [now split|].
  destruct (String.eqb_spec t "SYMBOL") as [-> | _]; [|exact I].
  destruct (peek_is "NUMBER" rest || peek_is "IDENT" rest); [|now split].
  destruct rest as [|[[[t' v'] l'] c'] rest']; [exact I|].
  cbn [forallb] in H2. apply andb_prop in H2 as [_ H2]. now split.
Qed.

Lemma parse_arguments_parses (expected_arity : nat) (tokens : list Token)
    (arguments : list Argument) :
  forallb (token_read short) tokens = true →
  forallb arg_ok arguments = true →
  parses short
    (λ args, Nat.eqb (length args) (length arguments + expected_arity)
             && forallb arg_ok args)
    (parse_arguments expected_arity tokens arguments).
Proof.
  revert tokens arguments.
  induction expected_arity as [|k IH]; intros tokens arguments Ht Ha; cbn.
  - rewrite Nat.add_0_r, Nat.eqb_refl. now split.
  - pose proof (parse_argument_parses tokens Ht) as H.
    destruct (parse_argument tokens) as [arg rest| | |]; cbn in H;
      try exact I; [|exact H].
    destruct H as [Harg Hrest].
    specialize (IH rest (arguments ++ [arg]) Hrest).
    rewrite forallb_app in IH. cbn in IH. rewrite Ha, Harg in IH.
    specialize (IH eq_refl). rewrite length_app in IH. cbn in IH.
    now replace (length arguments + 1 + k)%nat
      with (length arguments + S k)%nat in IH by lia.
Qed.

Lemma parse_until_rbrace_parses
    (parse_operation : list Token → PResult Operation)
    (unclosed : ParseError) :
  (∀ tokens, forallb (token_read short) tokens = true →
             parses short wf_operation (parse_operation tokens)) →
  ∀ fuel tokens ops,
    forallb (token_read short) tokens = true →
    forallb wf_operation ops = true →
    parses short (forallb wf_operation)
      (parse_until_rbrace parse_operation unclosed fuel tokens ops).
Proof.
  intros Hop. induction fuel as [|fuel IH]; intros tokens ops Ht Ho;
    [exact I|].
  cbn [parse_until_rbrace].
  destruct (peek_is "RBRACE" tokens); [now split|].
  destruct (current_token tokens); [|exact I].
  pose proof (Hop tokens Ht) as H.
  destruct (parse_operation tokens) as [operation rest| | |]; cbn in H;
    try exact I; [|exact H].
  destruct H as [H1 H2]. apply IH; [exact H2|].
  rewrite forallb_app. cbn. now rewrite Ho, H1.
Qed.

Lemma parse_operation_parses (fuel : nat) (tokens : list Token) :
  forallb (token_read short) tokens = true →
  parses short wf_operation (parse_operation fuel tokens).
Proof.
  revert tokens. induction fuel as [|fuel IH]; intros tokens Ht; [exact I|].
  cbn [parse_operation].
  pose proof (consume_parses (Some "KEYWORD") tokens Ht) as H1.
  destruct (consume (Some "KEYWORD") tokens) as [[[[t o] l] c] rest| | |];
    cbn in H1; try exact I; [|exact H1].
  destruct H1 as [_ Hrest].
  destruct (OPERATOR_ARITY o) as [expected_arity|] eqn:Harity; [|exact I].
  destruct (String.eqb o "SATURATE") eqn:Hsat.
  - pose proof (consume_parses (Some "LBRACE") rest Hrest) as H2.
    destruct (consume (Some "LBRACE") rest) as [? rest1| | |];
      cbn in H2; try exact I; [|exact H2].
    destruct H2 as [_ Hrest1].
    pose proof (parse_until_rbrace_parses (parse_operation fuel)
                  (mkParseError "Unclosed SATURATE block" (Some l)) IH
                  fuel rest1 [] Hrest1 eq_refl) as H3.
    destruct (parse_until_rbrace _ _ fuel rest1 []) as [block_ops rest2| | |];
      cbn in H3; try exact I; [|exact H3].
    destruct H3 as [Hblock Hrest2].
    pose proof (consume_parses (Some "RBRACE") rest2 Hrest2) as H4.
    destruct (consume (Some "RBRACE") rest2) as [? rest3| | |];
      cbn in H4; try exact I; [|exact H4].
    destruct H4 as [_ Hrest3]. split; [|exact Hrest3].
    cbn [wf_operation]. now rewrite Hsat, Hblock.
  - pose proof (parse_arguments_parses expected_arity rest [] Hrest eq_refl)
      as H2.
    destruct (parse_arguments expected_arity rest []) as [args rest1| | |];
      cbn in H2; try exact I; [|exact H2].
    destruct H2 as [Hargs Hrest1]. split; [|exact Hrest1].
    cbn [wf_operation]. now rewrite Hsat, Harity.
Qed.

Lemma parse_phase_parses (fuel : nat) (tokens : list Token) :
  forallb (token_read short) tokens = true →
  parses short wf_phase (parse_phase fuel tokens).
Proof.
  intros Ht. unfold parse_phase.
  pose proof (consume_parses (Some "KEYWORD") tokens Ht) as H1.
  pose proof (consume_kind "KEYWORD" tokens) as Hkind.
  destruct (consume (Some "KEYWORD") tokens) as [[[[t n] l] c] rest| | |];
    cbn in H1; try exact I; [|exact H1].
  destruct H1 as [[Hname _]%andb_prop Hrest].
  rewrite (Hkind rest t n l c eq_refl eq_refl) in Hname. cbn in Hname.
  pose proof (consume_parses (Some "LBRACE") rest Hrest) as H2.
  destruct (consume (Some "LBRACE") rest) as [? rest1| | |];
    cbn in H2; try exact I; [|exact H2].
  destruct H2 as [_ Hrest1].
  pose proof (parse_until_rbrace_parses (parse_operation fuel)
                (mkParseError ("Unclosed phase '" +:+ n +:+ "'") (Some l))
                (parse_operation_parses fuel) fuel rest1 [] Hrest1 eq_refl)
    as H3.
  destruct (parse_until_rbrace _ _ fuel rest1 []) as [ops rest2| | |];
    cbn in H3; try exact I; [|exact H3].
  destruct H3 as [Hops Hrest2].
  pose proof (consume_parses (Some "RBRACE") rest2 Hrest2) as H4.
  destruct (consume (Some "RBRACE") rest2) as [? rest3| | |];
    cbn in H4; try exact I; [|exact H4].
  destruct H4 as [_ Hrest3].
  destruct ops as [|op ops]; [exact I|]. split; [|exact Hrest3].
  unfold wf_phase. cbn [name operations]. now rewrite Hname, Hops.
Qed.

(** The loop over the phases returns when no token is left. *)
Lemma parse_phases_parses (fuel : nat) (tokens : list Token)
    (phases : list Phase) :
  forallb (token_read short) tokens = true →
  forallb wf_phase phases = true →
  match parse_phases fuel tokens phases with
  | POk ps rest => forallb wf_phase ps = true ∧ rest = []
  | PValueError => short = false
  | _ => True
  end.
Proof.
  revert tokens phases.
  induction fuel as [|fuel IH]; intros tokens phases Ht Hp; [exact I|].
  cbn [parse_phases].
  destruct tokens as [|token rest]; [now split|]. cbn [current_token].
  pose proof (parse_phase_parses fuel (token :: rest) Ht) as H.
  destruct (parse_phase fuel (token :: rest)) as [phase rest'| | |];
    cbn in H; try exact I; [|exact H].
  destruct H as [H1 H2]. apply IH; [exact H2|].
  rewrite forallb_app. cbn. now rewrite Hp, H1.
Qed.

End ParsedTrees.

Lemma tokens_read (short : bool) (tokens : list Token) :
  forallb token_ok tokens = true →
  (if short then forallb short_number tokens = true else True) →
  forallb (token_read short) tokens = true.
Proof.
  induction tokens as [|token tokens IH]; [reflexivity|].
  cbn [forallb]. intros [H1 H2]%andb_prop Hs. unfold token_read at 1.
  rewrite H1. destruct short.
  - apply andb_prop in Hs as [-> Hs]. cbn. now apply IH.
  - cbn. now apply IH.
Qed.

(** X13.  What the parser returns.  When [parse_program] returns, it
    returns a program and no token is left over: the program has at least
    one phase; every phase has an upper-case name and at least one
    operation; every operation has one of the eight operators and exactly as
    many arguments as its arity, each a string or a non-negative integer,
    except SATURATE, whose only argument is a block of such operations.  And
    [int] raises [ValueError] on no NUMBER token of 4300 digits or fewer: if
    every NUMBER token of the text is that short, no [ValueError] leaves the
    parser. *)
Theorem parsed_program_well_formed (source : string) :
  (∀ program rest,
     parse_program source = POk program rest →
     wf_program program = true ∧ rest = [])
  ∧ (forallb short_number (Tokenizer.tokenize source) = true →
     parse_program source ≠ PValueError).
Proof.
  unfold parse_program, Parser.parse_program. split.
  - intros program rest.
    pose proof (parse_phases_parses false
                  (S (length (Tokenizer.tokenize source)))
                  (Tokenizer.tokenize source) []
                  (tokens_read false _ (scan_tokens_ok _ source 1 1) I)
                  eq_refl) as H.
    destruct (Parser.parse_phases _ _ []) as [[|p ps] rest'| | |];
      try discriminate.
    intros [= <- <-]. destruct H as [H ->]. now split.
  - intros Hshort.
    pose proof (parse_phases_parses true
                  (S (length (Tokenizer.tokenize source)))
                  (Tokenizer.tokenize source) []
                  (tokens_read true _ (scan_tokens_ok _ source 1 1) Hshort)
                  eq_refl) as H.
    destruct (Parser.parse_phases _ _ []) as [[|p ps] rest'| | |];
      discriminate.
Qed.

(** ** Running the trees that the parser builds *)

Section WellFormedRuns.

Variables repr1 repr2 : list Operation → string.
Variable config : VMConfig.

(** [str] of the argument of a parsed operator is the string itself or the
    digits of the integer, never the text of a block. *)
Lemma py_str_arg_ok (a : Argument) :
  arg_ok a = true → py_str repr1 (value a) = py_str repr2 (value a).
Proof. destruct a as [t [s|n|ops]]; [reflexivity..|discriminate]. Qed.

Section Loop.

Variables block1 block2 : VM → Completion.
Hypothesis same_block : ∀ s, block1 s = block2 s.
Hypothesis sound_block : ∀ s, tree_error (block1 s) = false.

Lemma saturate_loop_ext (fuel : nat) (iteration : Z) (s : VM) :
  saturate_loop config block1 fuel iteration s
  = saturate_loop config block2 fuel iteration s
  ∧ tree_error (saturate_loop config block1 fuel iteration s).2 = false.
Proof.
  revert iteration s. induction fuel as [|fuel IH]; intros iteration s; cbn;
    [now split|].
  destruct (iteration <? max_saturate_iterations config); [|now split].
  rewrite <- same_block. pose proof (sound_block s) as Hs.
  destruct (block1 s) as [s1|e s1].
  - destruct (states_equal _ _); [now split|apply IH].
  - destruct e; split; reflexivity || exact Hs.
Qed.

Lemma op_saturate_ext (s : VM) :
  op_saturate config block1 s = op_saturate config block2 s
  ∧ tree_error (op_saturate config block1 s) = false.
Proof.
  unfold op_saturate.
  destruct (saturate_loop_ext (Z.to_nat (max_saturate_iterations config)) 0 s)
    as [<- H].
  destruct (saturate_loop config block1 _ _ _) as [iteration [s1|e s1]];
    cbn in *; [|now split].
  destruct (iteration >=? max_saturate_iterations config); now split.
Qed.

End Loop.

(** A GATE raises [BreakBlock], [ConditionError], or [AttributeError] when
    its argument is not a string. *)
Lemma evaluate_condition_error (c : string) (s : VM) (e : Exn) :
  evaluate_condition c s = inl e → ∃ m, e = ConditionError m.
Proof.
  pose proof (evaluate_accepted s c) as H.
  destruct (accepted c); destruct H as [x Hx]; rewrite Hx;
    [discriminate|intros [= <-]; now exists x].
Qed.

Lemma op_gate_sound (v : Value) (s : VM) : tree_error (op_gate v s) = false.
Proof.
  unfold op_gate. destruct v as [c|n|ops]; [|reflexivity..].
  destruct (evaluate_condition c s) as [e|[|]] eqn:E; [|reflexivity..].
  apply evaluate_condition_error in E as [m ->]. reflexivity.
Qed.

Lemma execute_block_ext (ops : list Operation) :
  Forall (λ op, wf_operation op = true →
                ∀ s, execute_operation repr1 config op s
                     = execute_operation repr2 config op s
                     ∧ tree_error (execute_operation repr1 config op s)
                       = false) ops →
  forallb wf_operation ops = true →
  ∀ s, execute_block repr1 config ops s = execute_block repr2 config ops s
       ∧ tree_error (execute_block repr1 config ops s) = false.
Proof.
  induction 1 as [|op ops Hop _ IH]; cbn; [now split|].
  intros [H1 H2]%andb_prop s.
  destruct (Hop H1 s) as [<- Hs].
  destruct (execute_operation repr1 config op s) as [s1|e s1];
    [now apply IH|now split].
Qed.

Lemma execute_operation_ext (op : Operation) :
  wf_operation op = true →
  ∀ s, execute_operation repr1 config op s
       = execute_operation repr2 config op s
       ∧ tree_error (execute_operation repr1 config op s) = false.
Proof.
  induction op as [o args l IH] using Operation_nested_ind. intros Hwf s.
  rewrite !execute_operation_dispatch. cbn [operator arguments].
  unfold count_operation.
  destruct (operation_counter s >=? max_operations config); [now split|].
  cbn [wf_operation] in Hwf. unfold dispatch.
  destruct (String.eqb_spec o "SATURATE") as [-> | Hsat].
  - destruct args as [|[t [w|n|ops]] [|a1 args]]; try discriminate Hwf.
    apply andb_prop in Hwf as [_ Hops].
    inversion IH as [|? ? Ha0 _]; subst. cbn in Ha0 |- *.
    apply op_saturate_ext; intros s0;
      now apply (execute_block_ext ops Ha0 Hops s0).
  - destruct (String.eqb_spec o "GATE") as [-> | Hgate].
    { destruct args as [|a0 [|a1 args]]; try discriminate Hwf.
      cbn. split; [reflexivity|apply op_gate_sound]. }
    unfold OPERATOR_ARITY in Hwf.
    repeat match type of Hwf with
           | context [String.eqb o ?k] =>
               destruct (String.eqb_spec o k) as [-> | ?]
           end;
      try discriminate Hwf; try contradiction;
      destruct args as [|a0 [|a1 [|a2 args]]]; try discriminate Hwf;
      cbn in Hwf |- *;
      repeat match type of Hwf with
             | _ && _ = true => apply andb_prop in Hwf as [? Hwf]
             end;
      unfold op_push, op_bind, op_release, op_gate, op_witness, op_halt,
        op_invert;
      repeat match goal with
             | H : arg_ok ?a = true |- _ =>
                 rewrite (py_str_arg_ok a H); clear H
             end;
      operator_tests; split; reflexivity.
Qed.

Lemma execute_operations_ext (ops : list Operation) (s : VM) :
  forallb wf_operation ops = true →
  execute_operations repr1 config ops s = execute_operations repr2 config ops s
  ∧ tree_error (execute_operations repr1 config ops s) = false.
Proof.
  revert s. induction ops as [|op ops IH]; intros s; cbn; [now split|].
  intros [H1 H2]%andb_prop. destruct (halted s); [now split|].
  destruct (execute_operation_ext op H1 s) as [<- Hs].
  destruct (execute_operation repr1 config op s) as [s1|e s1];
    [now apply IH|now split].
Qed.

Lemma execute_phases_ext (ps : list Phase) (s : VM) :
  forallb wf_phase ps = true →
  execute_phases repr1 config ps s = execute_phases repr2 config ps s
  ∧ tree_error (execute_phases repr1 config ps s) = false.
Proof.
  revert s. induction ps as [|p ps IH]; intros s; cbn; [now split|].
  intros [H1 H2]%andb_prop. destruct (halted s); [now split|].
  unfold execute_phase.
  assert (Hops : forallb wf_operation (operations p) = true).
  { unfold wf_phase in H1. apply andb_prop in H1 as [_ H1].
    now destruct (operations p). }
  match goal with
  | |- context [execute_operations repr1 config _ ?s0] =>
      destruct (execute_operations_ext (operations p) s0 Hops) as [<- Hs]
  end.
  destruct (execute_operations repr1 config _ _) as [s1|e s1];
    [now apply IH|now split].
Qed.

End WellFormedRuns.

(** X14.  Running a well-formed program tree, such as the parser builds,
    never raises [IndexError] or [TypeError]: every operator finds its
    arguments and SATURATE finds a list.  No operator converts a block to a
    string, so the outcome is the same whatever text Python would print for
    a block. *)
Theorem well_formed_programs_run (repr1 repr2 : list Operation → string)
    (config : VMConfig) (program : Program) :
  wf_program program = true →
  execute repr1 config program = execute repr2 config program
  ∧ match execute repr1 config program with
    | Escaped IndexError | Escaped TypeError => False
    | _ => True
    end.
Proof.
  unfold wf_program, execute. intros Hwf.
  assert (Hps : forallb wf_phase (phases program) = true)
    by (destruct (phases program); [discriminate|exact Hwf]).
  destruct (execute_phases_ext repr1 repr2 config (phases program) reset Hps)
    as [<- Hs].
  split; [reflexivity|].
  destruct (execute_phases repr1 config (phases program) reset) as [s|e s];
    [exact I|].
  destruct e; first [exact I | discriminate Hs].
Qed.

Lemma well_formed_programs_run_witness :
  wf_program saturate_gate_program = true
  ∧ execute repr_unused default_config saturate_gate_program
    = execute (λ _, "a block") default_config saturate_gate_program.
Proof.
  assert (H : wf_program saturate_gate_program = true) by reflexivity.
  split; [exact H|].
  exact (proj1 (well_formed_programs_run repr_unused (λ _, "a block")
                  default_config saturate_gate_program H)).
Defined.

(** ** SATURATE, from the runs of its block *)

Section SaturateRuns.

Variable config : VMConfig.
Variable block : VM → Completion.

Lemma saturate_loop_of_runs (n : nat) (self s : VM) :
  changing_runs block n self s →
  ∀ fuel iteration,
    fuel = Z.to_nat (max_saturate_iterations config - iteration) →
    iteration + Z.of_nat n <= max_saturate_iterations config →
    saturate_loop config block fuel iteration self
    = saturate_loop config block (fuel - n) (iteration + Z.of_nat n) s
    ∧ block_runs config block fuel iteration self
      = (n + block_runs config block (fuel - n) (iteration + Z.of_nat n) s)%nat.
Proof.
  induction 1 as [s|n s s1 s' Hblock Hneq _ IH];
    intros fuel iteration Hfuel Hle.
  - rewrite Nat.sub_0_r, Z.add_0_r. now split.
  - destruct fuel as [|fuel]; [lia|].
    cbn [saturate_loop block_runs].
    assert ((iteration <? max_saturate_iterations config) = true)
      as -> by lia.
    rewrite Hblock, Hneq.
    destruct (IH fuel (iteration + 1) ltac:(lia) ltac:(lia)) as [H1 H2].
    replace (iteration + Z.of_nat (S n))
      with (iteration + 1 + Z.of_nat n) by lia.
    replace (S fuel - S n)%nat with (fuel - n)%nat by lia.
    split; [exact H1|]. rewrite H2. lia.
Qed.

End SaturateRuns.

(** X15.  What SATURATE does is read off the runs of its block.  After [n]
    runs in a row that return and change the stack or the bindings: if [n]
    is below [max_saturate_iterations] and the next run returns without a
    change, or breaks at a GATE, SATURATE returns with the state of that run,
    and if it raises anything else SATURATE raises the same, the block having
    run [n + 1] times; if [n] is [max_saturate_iterations], SATURATE raises
    the cycle-limit error in the state reached, after [n] runs. *)
Theorem saturate_result_of_runs (config : VMConfig) (block : VM → Completion)
    (n : nat) (self s : VM) :
  changing_runs block n self s →
  (if Z.of_nat n <? max_saturate_iterations config
   then ∀ c, saturate_end block s c →
             op_saturate config block self = c
             ∧ op_saturate_runs config block self = S n
   else Z.of_nat n = max_saturate_iterations config →
        op_saturate config block self
        = Raise (CycleLimitError (cycle_limit_message config)) s
        ∧ op_saturate_runs config block self = n).
Proof.
  intros Hruns.
  pose proof (saturate_loop_of_runs config block n self s Hruns
                (Z.to_nat (max_saturate_iterations config)) 0
                ltac:(f_equal; lia)) as Hof.
  change (0 + Z.of_nat n) with (Z.of_nat n) in Hof.
  unfold op_saturate, op_saturate_runs.
  destruct (Z.of_nat n <? max_saturate_iterations config) eqn:Hlt.
  - intros c Hend. destruct (Hof ltac:(lia)) as [Hloop Hcount].
    rewrite Hloop, Hcount.
    destruct (Z.to_nat (max_saturate_iterations config) - n)%nat
      as [|fuel] eqn:Hfuel; [lia|].
    cbn [saturate_loop block_runs]. rewrite Hlt.
    assert (Hge : (Z.of_nat n >=? max_saturate_iterations config) = false)
      by lia.
    destruct Hend as [s' H1 H2|s' H1|e s' H1 H2]; rewrite H1.
    + rewrite H2, Hge. split; [reflexivity|lia].
    + rewrite Hge. split; [reflexivity|lia].
    + destruct e; try contradiction; split; reflexivity || lia.
  - intros Heq. destruct (Hof ltac:(lia)) as [Hloop Hcount].
    rewrite Hloop, Hcount.
    replace (Z.to_nat (max_saturate_iterations config) - n)%nat with O by lia.
    cbn. assert ((Z.of_nat n >=? max_saturate_iterations config) = true)
      as -> by lia.
    split; [reflexivity|lia].
Qed.

Lemma saturate_result_of_runs_witness :
  changing_runs (execute_block repr_unused default_config bind_once) 1 reset
    (set_bindings {["done" := "yes"]} (set_operation_counter 2 reset))
  ∧ op_saturate default_config
      (execute_block repr_unused default_config bind_once) reset
    = Normal (set_bindings {["done" := "yes"]} (set_operation_counter 3 reset))
  ∧ op_saturate_runs default_config
      (execute_block repr_unused default_config bind_once) reset = 2%nat.
Proof.
  assert (H : changing_runs
                (execute_block repr_unused default_config bind_once) 1 reset
                (set_bindings {["done" := "yes"]}
                   (set_operation_counter 2 reset))).
  { eapply changing_runs_S; [reflexivity|reflexivity|apply changing_runs_O]. }
  assert (Hbreak : execute_block repr_unused default_config bind_once
                     (set_bindings {["done" := "yes"]}
                        (set_operation_counter 2 reset))
                   = Raise BreakBlock
                       (set_bindings {["done" := "yes"]}
                          (set_operation_counter 3 reset))) by reflexivity.
  split; [exact H|].
  exact (saturate_result_of_runs default_config
           (execute_block repr_unused default_config bind_once) 1 reset _ H
           (Normal (set_bindings {["done" := "yes"]}
                      (set_operation_counter 3 reset)))
           (end_gate_break _ _ _ Hbreak)).
Defined.

(** ** Programs that return a result *)

Section Results.

Variable repr_block : list Operation → string.
Variable config : VMConfig.

Lemma saturate_loop_reads (block : VM → Completion) (fuel : nat)
    (iteration : Z) (s : VM) :
  (∀ s0, attribute_error (block s0) = false) →
  attribute_error (saturate_loop config block fuel iteration s).2 = false.
Proof.
  intros Hblock. revert iteration s.
  induction fuel as [|fuel IH]; intros iteration s; cbn; [reflexivity|].
  destruct (iteration <? max_saturate_iterations config); [|reflexivity].
  pose proof (Hblock s) as Hs.
  destruct (block s) as [s1|e s1].
  - destruct (states_equal _ _); [reflexivity|apply IH].
  - destruct e; reflexivity || exact Hs.
Qed.

Lemma op_saturate_reads (block : VM → Completion) (s : VM) :
  (∀ s0, attribute_error (block s0) = false) →
  attribute_error (op_saturate config block s) = false.
Proof.
  intros Hblock. unfold op_saturate.
  pose proof (saturate_loop_reads block
                (Z.to_nat (max_saturate_iterations config)) 0 s Hblock) as H.
  destruct (saturate_loop _ _ _ _ _) as [iteration [s1|e s1]]; cbn in *;
    [|exact H].
  destruct (iteration >=? max_saturate_iterations config); reflexivity.
Qed.

Lemma op_gate_reads (c : string) (s : VM) :
  attribute_error (op_gate (VStr c) s) = false.
Proof.
  unfold op_gate.
  destruct (evaluate_condition c s) as [e|[|]] eqn:E; [|reflexivity..].
  apply evaluate_condition_error in E as [m ->]. reflexivity.
Qed.

Lemma execute_block_reads (ops : list Operation) :
  Forall (λ op, wf_operation op = true → gates_read op = true →
                ∀ s, attribute_error
                       (execute_operation repr_block config op s) = false)
    ops →
  forallb wf_operation ops = true → forallb gates_read ops = true →
  ∀ s, attribute_error (execute_block repr_block config ops s) = false.
Proof.
  induction 1 as [|op ops Hop _ IH]; cbn; [reflexivity|].
  intros [H1 H2]%andb_prop [G1 G2]%andb_prop s.
  pose proof (Hop H1 G1 s) as Hs.
  destruct (execute_operation repr_block config op s) as [s1|e s1];
    [now apply IH|exact Hs].
Qed.

Lemma execute_operation_reads (op : Operation) :
  wf_operation op = true → gates_read op = true →
  ∀ s, attribute_error (execute_operation repr_block config op s) = false.
Proof.
  induction op as [o args l IH] using Operation_nested_ind.
  intros Hwf Hgates s.
  rewrite execute_operation_dispatch. cbn [operator arguments].
  unfold count_operation.
  destruct (operation_counter s >=? max_operations config); [reflexivity|].
  cbn [wf_operation] in Hwf. cbn [gates_read] in Hgates. unfold dispatch.
  destruct (String.eqb_spec o "SATURATE") as [-> | Hsat].
  - destruct args as [|[t [w|n|ops]] [|a1 args]]; try discriminate Hwf.
    apply andb_prop in Hwf as [_ Hops].
    inversion IH as [|? ? Ha0 _]; subst. cbn in Ha0 |- *.
    apply op_saturate_reads. intros s0.
    now apply (execute_block_reads ops Ha0 Hops Hgates).
  - destruct (String.eqb_spec o "GATE") as [-> | Hgate].
    { destruct args as [|[t [c|n|ops]] [|a1 args]]; try discriminate.
      cbn. apply op_gate_reads. }
    operator_cases o; cbn;
      unfold op_push, op_bind, op_witness;
      operator_tests; reflexivity.
Qed.

Lemma execute_operations_reads (ops : list Operation) (s : VM) :
  forallb wf_operation ops = true → forallb gates_read ops = true →
  attribute_error (execute_operations repr_block config ops s) = false.
Proof.
  revert s. induction ops as [|op ops IH]; intros s; cbn; [reflexivity|].
  intros [H1 H2]%andb_prop [G1 G2]%andb_prop.
  destruct (halted s); [reflexivity|].
  pose proof (execute_operation_reads op H1 G1 s) as Hs.
  destruct (execute_operation repr_block config op s) as [s1|e s1];
    [now apply IH|exact Hs].
Qed.

Lemma execute_phases_reads (ps : list Phase) (s : VM) :
  forallb wf_phase ps = true →
  forallb (λ p, forallb gates_read (operations p)) ps = true →
  attribute_error (execute_phases repr_block config ps s) = false.
Proof.
  revert s. induction ps as [|p ps IH]; intros s; cbn; [reflexivity|].
  intros [H1 H2]%andb_prop [G1 G2]%andb_prop.
  destruct (halted s); [reflexivity|]. unfold execute_phase.
  assert (Hops : forallb wf_operation (operations p) = true).
  { unfold wf_phase in H1. apply andb_prop in H1 as [_ H1].
    now destruct (operations p). }
  match goal with
  | |- context [execute_operations _ _ _ ?s0] =>
      pose proof (execute_operations_reads (operations p) s0 Hops G1) as Hs
  end.
  destruct (execute_operations _ _ _ _) as [s1|e s1];
    [now apply IH|exact Hs].
Qed.

End Results.

(** X16.  A well-formed program in which no GATE stands at the top level of
    a phase and no GATE has a number as its argument, nested [max_nesting]
    deep at most so that the recursion of the interpreter stays within its
    limit, always returns a result: no exception leaves [execute]. *)
Theorem safe_programs_return (repr_block : list Operation → string)
    (config : VMConfig) (program : Program) :
  wf_program program = true →
  no_top_level_gate program = true →
  program_gates_read program = true →
  (program_nesting program <= max_nesting)%nat →
  ∃ result, execute repr_block config program = Returned result.
Proof.
  unfold wf_program. intros Hwf Hgate Hreads _.
  assert (Hps : forallb wf_phase (phases program) = true)
    by (destruct (phases program); [discriminate|exact Hwf]).
  pose proof (execute_phases_no_break repr_block config (phases program)
                reset Hgate) as H1.
  destruct (execute_phases_ext repr_block repr_block config (phases program)
              reset Hps) as [_ H2].
  pose proof (execute_phases_reads repr_block config (phases program) reset
                Hps Hreads) as H3.
  unfold execute.
  destruct (execute_phases repr_block config (phases program) reset)
    as [s|e s]; [eexists; reflexivity|].
  destruct e; try (eexists; reflexivity); discriminate.
Qed.

Lemma safe_programs_return_witness :
  (wf_program saturate_gate_program = true
   ∧ no_top_level_gate saturate_gate_program = true
   ∧ program_gates_read saturate_gate_program = true
   ∧ (program_nesting saturate_gate_program <= max_nesting)%nat)
  ∧ ∃ result,
      execute repr_unused default_config saturate_gate_program
      = Returned result.
Proof.
  assert (H1 : wf_program saturate_gate_program = true) by reflexivity.
  assert (H2 : no_top_level_gate saturate_gate_program = true) by reflexivity.
  assert (H3 : program_gates_read saturate_gate_program = true)
    by reflexivity.
  assert (H4 : (program_nesting saturate_gate_program <= max_nesting)%nat)
    by (vm_compute; lia).
  split; [repeat split; assumption|].
  exact (safe_programs_return repr_unused default_config
           saturate_gate_program H1 H2 H3 H4).
Defined.

(** ** A counting loop *)

Section CountingLoop.

Variable repr_block : list Operation → string.
Variable config : VMConfig.
Variable x : Argument.
Variable t digits : string.
Variable l : Z.
Hypothesis digits_number : is_number digits = true.
Hypothesis digits_short :
  PyStr.digit_count digits <= PyStr.int_max_str_digits.

Local Abbreviation v := (py_str repr_block (value x)).
Local Abbreviation block :=
  (execute_block repr_block config (push_below x t digits l)).

Lemma push_below_run (s : VM) :
  operation_counter s + 1 < max_operations config →
  len (stack s) < max_stack_depth config →
  block s
  = (if len (stack s) + 1 <? decimal 0 digits
     then Normal (pushed v 1 2 s)
     else Raise BreakBlock (pushed v 1 2 s)).
Proof.
  intros Hops Hstack. unfold push_below. cbn [execute_block].
  rewrite execute_operation_counted by lia.
  unfold dispatch; cbn. unfold op_push; cbn.
  assert ((len (stack s) >=? max_stack_depth config) = false) as -> by lia.
  rewrite execute_operation_counted by (cbn; lia).
  unfold dispatch; cbn. unfold op_gate.
  rewrite (evaluate_depth_short _ "<" digits eq_refl digits_number
             digits_short).
  unfold pushed, set_operation_counter, set_stack; cbn.
  rewrite len_app_one. unfold compare_depth; cbn.
  replace (operation_counter s + 1 + 1) with (operation_counter s + 2)
    by lia.
  destruct (len (stack s) + 1 <? decimal 0 digits); reflexivity.
Qed.

Lemma pushed_pushed (k : nat) (s : VM) :
  pushed v (Z.of_nat (S k)) (2 * Z.of_nat (S k)) (pushed v 1 2 s)
  = pushed v (Z.of_nat (S (S k))) (2 * Z.of_nat (S (S k))) s.
Proof.
  unfold pushed; cbn [stack operation_counter set_stack
                        set_operation_counter bindings phase_counter halted
                        trace current_phase_name].
  rewrite !Nat2Z.id.
  change (Z.to_nat 1) with 1%nat. cbn [repeat].
  rewrite <- app_assoc. cbn [app].
  unfold set_stack, set_operation_counter; cbn. f_equal. lia.
Qed.

Lemma len_pushed_once (s : VM) :
  len (stack (pushed v 1 2 s)) = len (stack s) + 1.
Proof. exact (len_app_one (stack s) v). Qed.

Lemma counting_loop_runs (m : nat) :
  ∀ (s : VM) (fuel : nat) (iteration : Z),
    pushes_needed digits s = Z.of_nat (S m) →
    len (stack s) + Z.of_nat (S m) <= max_stack_depth config →
    operation_counter s + 2 * Z.of_nat (S m) <= max_operations config →
    iteration + Z.of_nat m < max_saturate_iterations config →
    (m < fuel)%nat →
    0 <= iteration →
    saturate_loop config block fuel iteration s
    = (iteration + Z.of_nat m,
       Normal (pushed v (Z.of_nat (S m)) (2 * Z.of_nat (S m)) s)).
Proof.
  unfold pushes_needed.
  induction m as [|m IH]; intros s fuel iteration Hk Hstack Hops Hit Hfuel H0;
    (destruct fuel as [|fuel]; [lia|]); cbn [saturate_loop].
  - assert ((iteration <? max_saturate_iterations config) = true) as -> by lia.
    rewrite push_below_run by lia.
    assert ((len (stack s) + 1 <? decimal 0 digits) = false) as -> by lia.
    now rewrite Z.add_0_r.
  - assert ((iteration <? max_saturate_iterations config) = true) as -> by lia.
    rewrite push_below_run by lia.
    assert ((len (stack s) + 1 <? decimal 0 digits) = true) as -> by lia.
    unfold pushed at 1 2. change (Z.to_nat 1) with 1%nat. cbn [repeat].
    rewrite push_changes_state.
    change (set_stack (stack s ++ [v])
              (set_operation_counter (operation_counter s + 2) s))
      with (pushed v 1 2 s).
    rewrite (IH (pushed v 1 2 s) fuel (iteration + 1)).
    + rewrite pushed_pushed. f_equal. lia.
    + rewrite len_pushed_once. lia.
    + rewrite len_pushed_once. lia.
    + change (operation_counter (pushed v 1 2 s))
        with (operation_counter s + 2). lia.
    + lia.
    + lia.
    + lia.
Qed.

End CountingLoop.

(** X17.  The counting loop [SATURATE { PUSH x GATE "depth < N" }], [N]
    written with 4300 digits at most so that [int] reads it, pushes [x]
    until the stack has [N] entries, and once when it has [N - 1] or more
    already: with room on the stack, in the iteration budget and in the
    operation budget for that many pushes it returns, the stack is the old
    one followed by the copies of [x], its depth is the larger of [N] and the
    old depth plus one, two operations are counted for each push and one for
    the SATURATE, and nothing else of the machine changes. *)
Theorem counting_loop_pushes (repr_block : list Operation → string)
    (config : VMConfig) (x : Argument) (t digits : string) (l : Z)
    (self : VM) :
  is_number digits = true →
  PyStr.digit_count digits <= PyStr.int_max_str_digits →
  len (stack self) + pushes_needed digits self <= max_stack_depth config →
  pushes_needed digits self <= max_saturate_iterations config →
  operation_counter self + 2 * pushes_needed digits self
  < max_operations config →
  execute_operation repr_block config (counting_loop x t digits l) self
  = Normal (pushed (py_str repr_block (value x)) (pushes_needed digits self)
              (1 + 2 * pushes_needed digits self) self)
  ∧ len (stack (pushed (py_str repr_block (value x))
                  (pushes_needed digits self)
                  (1 + 2 * pushes_needed digits self) self))
    = Z.max (decimal 0 digits) (len (stack self) + 1).
Proof.
  intros Hdigits Hshort Hstack Hit Hops.
  assert (Hk : ∃ m, pushes_needed digits self = Z.of_nat (S m)).
  { exists (Z.to_nat (pushes_needed digits self - 1)).
    unfold pushes_needed. lia. }
  destruct Hk as [m Hk]. split.
  - unfold counting_loop.
    rewrite execute_operation_counted by (rewrite Hk in Hops; lia).
    unfold dispatch; cbn [String.eqb Ascii.eqb Bool.eqb arguments value].
    cbn. unfold op_saturate.
    rewrite (counting_loop_runs repr_block config x t digits l Hdigits
               Hshort m).
    + assert ((0 + Z.of_nat m >=? max_saturate_iterations config) = false)
        as -> by lia.
      rewrite Hk. unfold pushed; cbn. do 2 f_equal.
      unfold set_operation_counter; cbn. f_equal. lia.
    + unfold pushes_needed in *. cbn. exact Hk.
    + cbn. lia.
    + cbn. lia.
    + lia.
    + lia.
    + lia.
  - unfold pushed; cbn. unfold len at 1. rewrite length_app, repeat_length.
    unfold pushes_needed, len in *. lia.
Qed.

Lemma counting_loop_pushes_witness :
  (is_number "3" = true
   ∧ PyStr.digit_count "3" <= PyStr.int_max_str_digits
   ∧ len (stack reset) + pushes_needed "3" reset
     <= max_stack_depth default_config
   ∧ pushes_needed "3" reset <= max_saturate_iterations default_config
   ∧ operation_counter reset + 2 * pushes_needed "3" reset
     < max_operations default_config)
  ∧ execute_operation repr_unused default_config
      (counting_loop (mkArgument "string" (VStr "x")) "string" "3" 1) reset
    = Normal (set_stack ["x"; "x"; "x"] (set_operation_counter 7 reset)).
Proof.
  assert (H1 : is_number "3" = true) by reflexivity.
  assert (H0 : PyStr.digit_count "3" <= PyStr.int_max_str_digits)
    by (vm_compute; discriminate).
  assert (H2 : len (stack reset) + pushes_needed "3" reset
               <= max_stack_depth default_config) by (vm_compute; discriminate).
  assert (H3 : pushes_needed "3" reset
               <= max_saturate_iterations default_config)
    by (vm_compute; discriminate).
  assert (H4 : operation_counter reset + 2 * pushes_needed "3" reset
               < max_operations default_config) by reflexivity.
  split; [repeat split; assumption|].
  exact (proj1 (counting_loop_pushes repr_unused default_config
                  (mkArgument "string" (VStr "x")) "string" "3" 1 reset
                  H1 H0 H2 H3 H4)).
Defined.

(** ** The dictionary of a result *)

Section Messages.

Variable repr_block : list Operation → string.
Variable config : VMConfig.

Lemma evaluate_condition_text (c : string) (s : VM) (e : Exn) :
  evaluate_condition c s = inl e → has_text (Raise e s) = true.
Proof.
  unfold evaluate_condition.
  repeat match goal with
         | |- context [match ?x with _ => _ end] => destruct x
         end;
    intros [= <-]; reflexivity.
Qed.

Lemma op_gate_text (v : Value) (s : VM) : has_text (op_gate v s) = true.
Proof.
  unfold op_gate. destruct v as [c|n|ops]; [|reflexivity..].
  destruct (evaluate_condition c s) as [e|[|]] eqn:E; [|reflexivity..].
  exact (evaluate_condition_text c s e E).
Qed.

Lemma has_text_state (e : Exn) (s s' : VM) :
  has_text (Raise e s) = has_text (Raise e s').
Proof. now destruct e. Qed.

Lemma block_of_str_text (t : string) (s : VM) :
  has_text (block_of_str config t s) = true.
Proof.
  destruct t as [|c t]; cbn; [reflexivity|]. unfold count_operation.
  destruct (operation_counter s >=? max_operations config); reflexivity.
Qed.

Lemma saturate_loop_text (block : VM → Completion) (fuel : nat)
    (iteration : Z) (s : VM) :
  (∀ s0, has_text (block s0) = true) →
  has_text (saturate_loop config block fuel iteration s).2 = true.
Proof.
  intros Hblock. revert iteration s.
  induction fuel as [|fuel IH]; intros iteration s; cbn; [reflexivity|].
  destruct (iteration <? max_saturate_iterations config); [|reflexivity].
  pose proof (Hblock s) as Hs.
  destruct (block s) as [s1|e s1].
  - destruct (states_equal _ _); [reflexivity|apply IH].
  - destruct e; reflexivity || exact Hs.
Qed.

Lemma op_saturate_text (block : VM → Completion) (s : VM) :
  (∀ s0, has_text (block s0) = true) →
  has_text (op_saturate config block s) = true.
Proof.
  intros Hblock. unfold op_saturate.
  pose proof (saturate_loop_text block
                (Z.to_nat (max_saturate_iterations config)) 0 s Hblock) as H.
  destruct (saturate_loop _ _ _ _ _) as [iteration [s1|e s1]]; cbn in *;
    [|exact H].
  destruct (iteration >=? max_saturate_iterations config); reflexivity.
Qed.

Lemma execute_block_text (ops : list Operation) :
  Forall (λ op, ∀ s, has_text (execute_operation repr_block config op s)
                     = true) ops →
  ∀ s, has_text (execute_block repr_block config ops s) = true.
Proof.
  induction 1 as [|op ops Hop _ IH]; intros s; cbn; [reflexivity|].
  specialize (Hop s).
  destruct (execute_operation repr_block config op s) as [s1|e s1];
    [apply IH|exact Hop].
Qed.

Lemma execute_operation_text (op : Operation) :
  ∀ s, has_text (execute_operation repr_block config op s) = true.
Proof.
  induction op as [o args l IH] using Operation_nested_ind; intros s.
  rewrite execute_operation_dispatch. cbn [operator arguments].
  unfold count_operation.
  destruct (operation_counter s >=? max_operations config); [reflexivity|].
  unfold dispatch.
  destruct (String.eqb_spec o "SATURATE") as [-> | Hsat].
  - cbn. destruct args as [|[t [w|n|ops]] args]; [reflexivity|..];
      apply op_saturate_text; intros s0; cbn.
    + apply block_of_str_text.
    + reflexivity.
    + inversion IH as [|? ? Ha0 _]; subst. cbn in Ha0.
      now apply execute_block_text.
  - destruct (String.eqb_spec o "GATE") as [-> | Hgate].
    { cbn. destruct args as [|a0 args]; [reflexivity|apply op_gate_text]. }
    operator_cases o; cbn;
      unfold op_push, op_bind, op_witness;
      operator_tests; reflexivity.
Qed.

Lemma execute_operations_text (ops : list Operation) (s : VM) :
  has_text (execute_operations repr_block config ops s) = true.
Proof.
  revert s. induction ops as [|op ops IH]; intros s; cbn; [reflexivity|].
  destruct (halted s); [reflexivity|].
  pose proof (execute_operation_text op s) as Hs.
  destruct (execute_operation repr_block config op s) as [s1|e s1];
    [apply IH|exact Hs].
Qed.

Lemma execute_phases_text (ps : list Phase) (s : VM) :
  has_text (execute_phases repr_block config ps s) = true.
Proof.
  revert s. induction ps as [|p ps IH]; intros s; cbn; [reflexivity|].
  destruct (halted s); [reflexivity|]. unfold execute_phase.
  match goal with
  | |- context [execute_operations _ _ _ ?s0] =>
      pose proof (execute_operations_text (operations p) s0) as Hs
  end.
  destruct (execute_operations _ _ _ _) as [s1|e s1]; [apply IH|exact Hs].
Qed.

Lemma execute_message_given (program : Program) (result : ExecutionResult) :
  execute repr_block config program = Returned result →
  message_given result = true
  ∧ is_none (error_message result) = is_success (status result).
Proof.
  unfold execute.
  pose proof (execute_phases_text (phases program) reset) as H.
  destruct (execute_phases repr_block config (phases program) reset)
    as [s|e s].
  - intros [= <-]. destruct (halted s); now split.
  - destruct e; intros [= <-]; split; reflexivity || exact H.
Qed.

End Messages.

Lemma to_dict_inj (r r' : ExecutionResult) :
  message_given r = true → message_given r' = true →
  to_dict r = to_dict r' → r = r'.
Proof.
  destruct r as [st ph ops fs tr em], r' as [st' ph' ops' fs' tr' em'].
  unfold message_given, to_dict; cbn.
  destruct em as [[|c m]|], em' as [[|c' m']|]; cbn; try discriminate;
    intros _ _; destruct tr as [|x tr], tr' as [|x' tr']; cbn;
    intros H; inversion H; subst; reflexivity.
Qed.

(** X18.  The dictionary of a result that [execute] returns has the four
    keys of the counters and the state, then [error_message] exactly when the
    status is neither [COMPLETE] nor [HALTED] (the message of an error is
    never empty), then [trace] exactly when checkpoints were recorded; and
    it drops nothing: two results of [execute] with the same dictionary are
    the same result. *)
Theorem result_dictionary (repr_block : list Operation → string)
    (config : VMConfig) (program : Program) (result : ExecutionResult) :
  execute repr_block config program = Returned result →
  keys (to_dict result)
  = ["status"; "phases_executed"; "operations_executed"; "final_state"]
    ++ (if is_success (status result) then [] else ["error_message"])
    ++ (if is_none (head (result_trace result)) then [] else ["trace"])
  ∧ ∀ repr_block' config' program' result',
      execute repr_block' config' program' = Returned result' →
      to_dict result = to_dict result' → result = result'.
Proof.
  intros Hexec.
  destruct (execute_message_given _ _ _ _ Hexec) as [Hgiven Hnone].
  split.
  - rewrite <- Hnone. unfold message_given in Hgiven.
    unfold to_dict, keys.
    destruct (error_message result) as [m|]; cbn [is_none].
    + destruct (PyStr.is_empty m); [discriminate|].
      now destruct (result_trace result).
    + now destruct (result_trace result).
  - intros repr_block' config' program' result' Hexec' Hdict.
    destruct (execute_message_given _ _ _ _ Hexec') as [Hgiven' _].
    now apply to_dict_inj.
Qed.

Lemma result_dictionary_witness :
  execute repr_unused tracing_config witness_program = Returned witness_result
  ∧ keys (to_dict witness_result)
    = ["status"; "phases_executed"; "operations_executed"; "final_state";
       "trace"].
Proof.
  assert (H : execute repr_unused tracing_config witness_program
              = Returned witness_result) by reflexivity.
  split; [exact H|].
  exact (proj1 (result_dictionary repr_unused tracing_config witness_program
                  witness_result H)).
Defined.

(** ** The dump of a program *)

Lemma Operation_to_dict_eq (o : string) (args : list Argument) (l : Z) :
  Operation_to_dict (mkOperation o args l)
  = (items ← mapM Argument_to_dict args;
     Some (JDict [("operator", JStr o); ("arguments", JList items)])).
Proof. reflexivity. Qed.

Lemma Argument_to_dict_block (t : string) (ops : list Operation) :
  Argument_to_dict (mkArgument t (VBlock ops))
  = (if String.eqb t "BLOCK"
     then items ← mapM Operation_to_dict ops;
          Some (JDict [("type", JStr t); ("operations", JList items)])
     else Some (JDict [("type", JStr t); ("value", JObjects ops)])).
Proof. reflexivity. Qed.

Lemma forallb_all {A : Type} (p : A → bool) (l : list A) :
  forallb p l = true → Forall (λ x, p x = true) l.
Proof.
  induction l as [|x l IH]; cbn; [constructor|].
  intros [H1 H2]%andb_prop. constructor; [exact H1|now apply IH].
Qed.

Lemma Forall_apply {A : Type} (P Q : A → Prop) (l : list A) :
  Forall (λ x, P x → Q x) l → Forall P l → Forall Q l.
Proof.
  induction 1 as [|x l Hx _ IH]; intros H; inversion H; subst;
    constructor; auto.
Qed.

Lemma mapM_total {A B : Type} (f : A → option B) (l : list A) :
  Forall (λ x, is_Some (f x)) l → is_Some (mapM f l).
Proof.
  induction 1 as [|x l [y Hy] _ [k Hk]]; cbn; [now eexists|].
  rewrite Hy, Hk. now eexists.
Qed.

Lemma mapM_same {A B : Type} (f : A → option B) (l l' : list A)
    (k : list B) :
  mapM f l = Some k → mapM f l' = Some k →
  Forall2 (λ x y, f x = f y) l l'.
Proof.
  rewrite !mapM_Some. intros H. revert l'.
  induction H as [|x z l k Hx _ IH]; intros l' H'; inversion H'; subst;
    constructor; [congruence|now apply IH].
Qed.

Lemma arg_ok_dict (a : Argument) :
  arg_ok a = true →
  Argument_to_dict a
  = Some (JDict [("type", JStr (type a));
                 ("value", match value a with
                           | VStr s => JStr s
                           | VInt n => JInt n
                           | VBlock ops => JObjects ops
                           end)]).
Proof.
  destruct a as [t [s|n|ops]]; cbn [arg_ok]; [..|discriminate].
  - intros [->%String.eqb_eq | ->%String.eqb_eq]%orb_prop; reflexivity.
  - intros [->%String.eqb_eq _]%andb_prop; reflexivity.
Qed.

Lemma arg_ok_dict_inj (a a' : Argument) :
  arg_ok a = true → arg_ok a' = true →
  Argument_to_dict a = Argument_to_dict a' → a = a'.
Proof.
  intros H H'. rewrite (arg_ok_dict a H), (arg_ok_dict a' H').
  destruct a as [t [s|n|ops]], a' as [t' [s'|n'|ops']]; cbn;
    intros [=]; subst; reflexivity.
Qed.

Lemma args_ok_dict_inj (args args' : list Argument) :
  forallb arg_ok args = true → forallb arg_ok args' = true →
  Forall2 (λ a a', Argument_to_dict a = Argument_to_dict a') args args' →
  args = args'.
Proof.
  intros H H' Hall. induction Hall as [|a a' args args' Ha _ IH];
    [reflexivity|].
  cbn in H, H'. apply andb_prop in H as [H1 H2], H' as [H1' H2'].
  f_equal; [now apply arg_ok_dict_inj|now apply IH].
Qed.

Lemma Operation_to_dict_total (op : Operation) :
  wf_operation op = true → is_Some (Operation_to_dict op).
Proof.
  induction op as [o args l IH] using Operation_nested_ind.
  cbn [wf_operation]. rewrite Operation_to_dict_eq.
  destruct (String.eqb o "SATURATE").
  - destruct args as [|[t [w|n|ops]] [|a1 args]]; try discriminate.
    intros [->%String.eqb_eq Hops]%andb_prop.
    inversion IH as [|? ? Ha0 _]; subst. cbn in Ha0.
    cbn [mapM]. rewrite Argument_to_dict_block. cbn [String.eqb Ascii.eqb
      Bool.eqb].
    destruct (mapM_total Operation_to_dict ops) as [its Hits].
    { exact (Forall_apply _ _ ops Ha0 (forallb_all _ _ Hops)). }
    rewrite Hits. cbn. now eexists.
  - destruct (OPERATOR_ARITY o); [|discriminate].
    intros [_ Hargs]%andb_prop.
    destruct (mapM_total Argument_to_dict args) as [its Hits].
    { eapply Forall_impl; [exact (forallb_all _ _ Hargs)|].
      intros a Ha. cbn in Ha. rewrite arg_ok_dict by exact Ha.
      now eexists. }
    rewrite Hits. cbn. now eexists.
Qed.

Section SameDump.

Variable repr_block : list Operation → string.
Variable config : VMConfig.

Lemma saturate_loop_pointwise (block1 block2 : VM → Completion)
    (fuel : nat) (iteration : Z) (s : VM) :
  (∀ s0, block1 s0 = block2 s0) →
  saturate_loop config block1 fuel iteration s
  = saturate_loop config block2 fuel iteration s.
Proof.
  intros Hblock. revert iteration s.
  induction fuel as [|fuel IH]; intros iteration s; cbn; [reflexivity|].
  rewrite Hblock.
  destruct (iteration <? max_saturate_iterations config); [|reflexivity].
  destruct (block2 s) as [s1|e s1]; [|reflexivity].
  destruct (states_equal _ _); [reflexivity|apply IH].
Qed.

Lemma op_saturate_pointwise (block1 block2 : VM → Completion) (s : VM) :
  (∀ s0, block1 s0 = block2 s0) →
  op_saturate config block1 s = op_saturate config block2 s.
Proof.
  intros Hblock. unfold op_saturate.
  now rewrite (saturate_loop_pointwise block1 block2 _ _ _ Hblock).
Qed.

Local Abbreviation same_run op :=
  (wf_operation op = true →
   ∀ op', wf_operation op' = true →
          Operation_to_dict op = Operation_to_dict op' →
          ∀ s, execute_operation repr_block config op s
               = execute_operation repr_block config op' s).

Lemma execute_block_same_dump (ops : list Operation) :
  Forall (λ op, same_run op) ops →
  ∀ ops', forallb wf_operation ops = true →
          forallb wf_operation ops' = true →
          Forall2 (λ op op', Operation_to_dict op = Operation_to_dict op')
            ops ops' →
          ∀ s, execute_block repr_block config ops s
               = execute_block repr_block config ops' s.
Proof.
  induction 1 as [|op ops Hop _ IH]; intros ops' Hwf Hwf' Hall s;
    inversion Hall as [|? op' ? ops1 Hd Hrest]; subst; [reflexivity|].
  cbn in Hwf, Hwf' |- *.
  apply andb_prop in Hwf as [H1 H2], Hwf' as [H1' H2'].
  rewrite (Hop H1 op' H1' Hd s).
  destruct (execute_operation repr_block config op' s) as [s1|e s1];
    [now apply IH|reflexivity].
Qed.

Lemma execute_operation_same_dump (op : Operation) : same_run op.
Proof.
  induction op as [o args l IH] using Operation_nested_ind.
  intros Hwf [o' args' l'] Hwf' Hdict s.
  destruct (Operation_to_dict_total _ Hwf) as [j Hj].
  rewrite Hj in Hdict. symmetry in Hdict.
  rewrite Operation_to_dict_eq in Hj, Hdict.
  destruct (mapM Argument_to_dict args) as [its|] eqn:E; [|discriminate].
  destruct (mapM Argument_to_dict args') as [its'|] eqn:E'; [|discriminate].
  cbn in Hj, Hdict. rewrite <- Hj in Hdict.
  injection Hdict as -> ->.
  rewrite !execute_operation_dispatch. cbn [operator arguments].
  destruct (count_operation config s) as [s1|e s1]; [|reflexivity].
  cbn [wf_operation] in Hwf, Hwf'.
  destruct (String.eqb_spec o "SATURATE") as [-> | Hsat].
  - destruct args as [|[t [w|n|ops]] [|a1 args]]; try discriminate.
    destruct args' as [|[t' [w'|n'|ops']] [|a1' args']]; try discriminate.
    apply andb_prop in Hwf as [->%String.eqb_eq Hops].
    apply andb_prop in Hwf' as [->%String.eqb_eq Hops'].
    inversion IH as [|? ? Ha0 _]; subst. cbn in Ha0.
    cbn [mapM] in E, E'. rewrite Argument_to_dict_block in E, E'.
    cbn [String.eqb Ascii.eqb Bool.eqb] in E, E'.
    destruct (mapM Operation_to_dict ops) as [k|] eqn:K; [|discriminate].
    destruct (mapM Operation_to_dict ops') as [k'|] eqn:K'; [|discriminate].
    cbn in E, E'. rewrite <- E in E'. injection E' as ->.
    unfold dispatch; cbn. apply op_saturate_pointwise. intros s0.
    apply (execute_block_same_dump ops Ha0 ops' Hops Hops').
    exact (mapM_same _ _ _ _ K K').
  - destruct (OPERATOR_ARITY o); [|discriminate].
    apply andb_prop in Hwf as [_ Hargs], Hwf' as [_ Hargs'].
    rewrite (args_ok_dict_inj args args' Hargs Hargs');
      [reflexivity|exact (mapM_same _ _ _ _ E E')].
Qed.

Lemma execute_operations_same_dump (ops ops' : list Operation) :
  forallb wf_operation ops = true → forallb wf_operation ops' = true →
  Forall2 (λ op op', Operation_to_dict op = Operation_to_dict op') ops ops' →
  ∀ s, execute_operations repr_block config ops s
       = execute_operations repr_block config ops' s.
Proof.
  intros Hwf Hwf' Hall. induction Hall as [|op op' ops ops' Hd _ IH];
    intros s; [reflexivity|].
  cbn in Hwf, Hwf' |- *.
  apply andb_prop in Hwf as [H1 H2], Hwf' as [H1' H2'].
  destruct (halted s); [reflexivity|].
  rewrite (execute_operation_same_dump op H1 op' H1' Hd s).
  destruct (execute_operation repr_block config op' s) as [s1|e s1];
    [now apply IH|reflexivity].
Qed.

Lemma wf_phase_operations (p : Phase) :
  wf_phase p = true → forallb wf_operation (operations p) = true.
Proof.
  unfold wf_phase. intros [_ H]%andb_prop. now destruct (operations p).
Qed.

Lemma Phase_to_dict_total (p : Phase) :
  wf_phase p = true → is_Some (Phase_to_dict p).
Proof.
  intros Hwf%wf_phase_operations. unfold Phase_to_dict.
  destruct (mapM_total Operation_to_dict (operations p)) as [its Hits].
  { eapply Forall_impl; [exact (forallb_all _ _ Hwf)|].
    intros op Hop. now apply Operation_to_dict_total. }
  rewrite Hits. cbn. now eexists.
Qed.

Lemma execute_phases_same_dump (ps ps' : list Phase) :
  forallb wf_phase ps = true → forallb wf_phase ps' = true →
  Forall2 (λ p p', Phase_to_dict p = Phase_to_dict p') ps ps' →
  ∀ s, execute_phases repr_block config ps s
       = execute_phases repr_block config ps' s.
Proof.
  intros Hwf Hwf' Hall. induction Hall as [|p p' ps ps' Hd _ IH];
    intros s; [reflexivity|].
  cbn in Hwf, Hwf' |- *.
  apply andb_prop in Hwf as [H1 H2], Hwf' as [H1' H2'].
  destruct (halted s); [reflexivity|].
  destruct (Phase_to_dict_total p H1) as [j Hj].
  rewrite Hj in Hd. symmetry in Hd. unfold Phase_to_dict in Hj, Hd.
  destruct (mapM Operation_to_dict (operations p)) as [k|] eqn:K;
    [|discriminate].
  destruct (mapM Operation_to_dict (operations p')) as [k'|] eqn:K';
    [|discriminate].
  cbn in Hj, Hd. rewrite <- Hj in Hd. injection Hd as Hname ->.
  rewrite Hname. unfold execute_phase.
  rewrite (execute_operations_same_dump (operations p) (operations p')
             (wf_phase_operations p H1) (wf_phase_operations p' H1')
             (mapM_same _ _ _ _ K K')).
  destruct (execute_operations _ _ _ _) as [s1|e s1];
    [now apply IH|reflexivity].
Qed.

End SameDump.

(** X19.  The dump of a well-formed program, as the parser builds them,
    nested [max_nesting] deep at most so that the recursion of the
    interpreter stays within its limit, does not raise; and a dump says all
    that the machine looks at: two well-formed programs with the same dump,
    which may differ in the line numbers of their operations, run to the
    same outcome under every configuration. *)
Theorem dump_determines_run (program program' : Program) :
  wf_program program = true →
  wf_program program' = true →
  ((program_nesting program <= max_nesting)%nat →
   is_Some (Program_to_dict program))
  ∧ (Program_to_dict program = Program_to_dict program' →
     ∀ repr_block config,
       execute repr_block config program
       = execute repr_block config program').
Proof.
  unfold wf_program. intros Hwf Hwf'.
  assert (Hps : forallb wf_phase (phases program) = true)
    by (destruct (phases program); [discriminate|exact Hwf]).
  assert (Hps' : forallb wf_phase (phases program') = true)
    by (destruct (phases program'); [discriminate|exact Hwf']).
  assert (Htotal : is_Some (Program_to_dict program)).
  { unfold Program_to_dict.
    destruct (mapM_total Phase_to_dict (phases program)) as [its Hits].
    { eapply Forall_impl; [exact (forallb_all _ _ Hps)|].
      intros p Hp. now apply Phase_to_dict_total. }
    rewrite Hits. cbn. now eexists. }
  split; [intros _; exact Htotal|].
  destruct Htotal as [j Hj]. intros Hd repr_block config.
  rewrite Hj in Hd. symmetry in Hd. unfold Program_to_dict in Hj, Hd.
  destruct (mapM Phase_to_dict (phases program)) as [k|] eqn:K;
    [|discriminate].
  destruct (mapM Phase_to_dict (phases program')) as [k'|] eqn:K';
    [|discriminate].
  cbn in Hj, Hd. rewrite <- Hj in Hd. injection Hd as ->.
  unfold execute.
  now rewrite (execute_phases_same_dump repr_block config _ _ Hps Hps'
                 (mapM_same _ _ _ _ K K') reset).
Qed.

Lemma dump_determines_run_witness :
  (wf_program (loop_program 1 1 1) = true
   ∧ wf_program (loop_program 2 3 4) = true)
  ∧ (program_nesting (loop_program 1 1 1) <= max_nesting)%nat
  ∧ is_Some (Program_to_dict (loop_program 1 1 1))
  ∧ Program_to_dict (loop_program 1 1 1)
    = Program_to_dict (loop_program 2 3 4)
  ∧ ∀ repr_block config,
      execute repr_block config (loop_program 1 1 1)
      = execute repr_block config (loop_program 2 3 4).
Proof.
  assert (H1 : wf_program (loop_program 1 1 1) = true) by reflexivity.
  assert (H2 : wf_program (loop_program 2 3 4) = true) by reflexivity.
  assert (H3 : Program_to_dict (loop_program 1 1 1)
               = Program_to_dict (loop_program 2 3 4)) by reflexivity.
  assert (H4 : (program_nesting (loop_program 1 1 1) <= max_nesting)%nat)
    by (vm_compute; lia).
  split; [split; assumption|]. split; [exact H4|].
  split; [exact (proj1 (dump_determines_run (loop_program 1 1 1)
                          (loop_program 2 3 4) H1 H2) H4)|].
  split; [exact H3|].
  exact (proj2 (dump_determines_run (loop_program 1 1 1)
                  (loop_program 2 3 4) H1 H2) H3).
Defined.

(** ** Limits that are reached *)

Section Limits.

Variable repr_block : list Operation → string.
Variable config : VMConfig.

Lemma op_gate_at_limit (v : Value) (s : VM) : at_limit config (op_gate v s).
Proof.
  unfold op_gate. destruct v as [c|n|ops]; [|exact I..].
  destruct (evaluate_condition c s) as [e|[|]] eqn:E; [|exact I..].
  apply evaluate_condition_error in E as [m ->]. exact I.
Qed.

Lemma block_of_str_at_limit (t : string) (s : VM) :
  at_limit config (block_of_str config t s).
Proof.
  destruct t as [|c t]; cbn; [exact I|]. unfold count_operation.
  destruct (operation_counter s >=? max_operations config) eqn:E; cbn;
    [lia|exact I].
Qed.

Lemma saturate_loop_at_limit (block : VM → Completion) (fuel : nat)
    (iteration : Z) (s : VM) :
  (∀ s0, at_limit config (block s0)) →
  at_limit config (saturate_loop config block fuel iteration s).2.
Proof.
  intros Hblock. revert iteration s.
  induction fuel as [|fuel IH]; intros iteration s; cbn; [exact I|].
  destruct (iteration <? max_saturate_iterations config); [|exact I].
  pose proof (Hblock s) as Hs.
  destruct (block s) as [s1|e s1].
  - destruct (states_equal _ _); [exact I|apply IH].
  - destruct e; exact I || exact Hs.
Qed.

Lemma op_saturate_at_limit (block : VM → Completion) (s : VM) :
  (∀ s0, at_limit config (block s0)) →
  at_limit config (op_saturate config block s).
Proof.
  intros Hblock. unfold op_saturate.
  pose proof (saturate_loop_at_limit block
                (Z.to_nat (max_saturate_iterations config)) 0 s Hblock) as H.
  destruct (saturate_loop _ _ _ _ _) as [iteration [s1|e s1]]; cbn in *;
    [|exact H].
  destruct (iteration >=? max_saturate_iterations config); exact I.
Qed.

Lemma execute_block_at_limit (ops : list Operation) :
  Forall (λ op, ∀ s, at_limit config
                       (execute_operation repr_block config op s)) ops →
  ∀ s, at_limit config (execute_block repr_block config ops s).
Proof.
  induction 1 as [|op ops Hop _ IH]; intros s; cbn; [exact I|].
  specialize (Hop s).
  destruct (execute_operation repr_block config op s) as [s1|e s1];
    [apply IH|exact Hop].
Qed.

Lemma execute_operation_at_limit (op : Operation) :
  ∀ s, at_limit config (execute_operation repr_block config op s).
Proof.
  induction op as [o args l IH] using Operation_nested_ind; intros s.
  rewrite execute_operation_dispatch. cbn [operator arguments].
  unfold count_operation.
  destruct (operation_counter s >=? max_operations config) eqn:E;
    [cbn; lia|].
  unfold dispatch.
  destruct (String.eqb_spec o "SATURATE") as [-> | Hsat].
  - cbn. destruct args as [|[t [w|n|ops]] args]; [exact I|..];
      apply op_saturate_at_limit; intros s0; cbn.
    + apply block_of_str_at_limit.
    + exact I.
    + inversion IH as [|? ? Ha0 _]; subst. cbn in Ha0.
      now apply execute_block_at_limit.
  - destruct (String.eqb_spec o "GATE") as [-> | Hgate].
    { cbn. destruct args as [|a0 args]; [exact I|apply op_gate_at_limit]. }
    operator_cases o; cbn; unfold op_push, op_bind, op_witness;
      repeat match goal with
             | |- context [match ?x with _ => _ end] =>
                 destruct x eqn:?; cbn
             end;
      try exact I; lia.
Qed.

Lemma execute_operations_at_limit (ops : list Operation) (s : VM) :
  at_limit config (execute_operations repr_block config ops s).
Proof.
  revert s. induction ops as [|op ops IH]; intros s; cbn; [exact I|].
  destruct (halted s); [exact I|].
  pose proof (execute_operation_at_limit op s) as Hs.
  destruct (execute_operation repr_block config op s) as [s1|e s1];
    [apply IH|exact Hs].
Qed.

Lemma execute_phases_at_limit (ps : list Phase) (s : VM) :
  at_limit config (execute_phases repr_block config ps s).
Proof.
  revert s. induction ps as [|p ps IH]; intros s; cbn; [exact I|].
  destruct (halted s); [exact I|]. unfold execute_phase.
  match goal with
  | |- context [execute_operations _ _ _ ?s0] =>
      pose proof (execute_operations_at_limit (operations p) s0) as Hs
  end.
  destruct (execute_operations _ _ _ _) as [s1|e s1]; [apply IH|exact Hs].
Qed.

End Limits.

(** X20.  An error status names a limit that the machine has reached.  With
    limits that are not negative, a result with status [TERM_OP_LIMIT] has
    counted exactly [max_operations] operations, one with status
    [ERR_STACK_OVERFLOW] has a final stack of exactly [max_stack_depth]
    symbols, and one with status [ERR_BINDINGS_OVERFLOW] has exactly
    [max_bindings] final bindings. *)
Theorem error_status_at_limit (repr_block : list Operation → string)
    (config : VMConfig) (program : Program) (result : ExecutionResult) :
  0 <= max_operations config →
  0 <= max_stack_depth config →
  0 <= max_bindings config →
  execute repr_block config program = Returned result →
  (status result = "TERM_OP_LIMIT" →
   operations_executed result = max_operations config)
  ∧ (status result = "ERR_STACK_OVERFLOW" →
     depth (final_state result) = max_stack_depth config
     ∧ len (final_stack (final_state result)) = max_stack_depth config)
  ∧ (status result = "ERR_BINDINGS_OVERFLOW" →
     binding_count (final_state result) = max_bindings config
     ∧ dict_len (final_bindings (final_state result)) = max_bindings config).
Proof.
  intros Hops Hstack Hbind. unfold execute.
  pose proof (execute_phases_at_limit repr_block config (phases program)
                reset) as Hlimit.
  pose proof (budget_execute_phases repr_block config (phases program) reset)
    as Hkept.
  assert (Hreset : within_budget config reset).
  { unfold within_budget, reset, len, dict_len. cbn.
    rewrite map_size_empty. lia. }
  specialize (Hkept Hreset).
  destruct (execute_phases repr_block config (phases program) reset)
    as [s|e s]; cbn in Hkept, Hlimit.
  - intros [= <-]; cbn.
    destruct (halted s); (split; [|split]); discriminate.
  - destruct Hkept as (K1 & K2 & K3).
    destruct e; intros [= <-]; cbn; (split; [|split]); intros Hstatus;
      first [discriminate Hstatus | lia].
Qed.

Lemma error_status_at_limit_witness :
  (0 <= max_operations two_symbols_config
   ∧ 0 <= max_stack_depth two_symbols_config
   ∧ 0 <= max_bindings two_symbols_config
   ∧ execute repr_unused two_symbols_config push_three_program
     = Returned push_three_result)
  ∧ depth (final_state push_three_result)
    = max_stack_depth two_symbols_config.
Proof.
  assert (H1 : 0 <= max_operations two_symbols_config) by (cbn; lia).
  assert (H2 : 0 <= max_stack_depth two_symbols_config) by (cbn; lia).
  assert (H3 : 0 <= max_bindings two_symbols_config) by (cbn; lia).
  assert (H4 : execute repr_unused two_symbols_config push_three_program
               = Returned push_three_result) by reflexivity.
  split; [repeat split; assumption|].
  exact (proj1 (proj1 (proj2 (error_status_at_limit repr_unused
                                two_symbols_config push_three_program
                                push_three_result H1 H2 H3 H4))
                  eq_refl)).
Defined.

(** ** Larger limits *)

Section Roomier.

Variable repr_block : list Operation → string.
Variables config config' : VMConfig.
Hypothesis room : roomier config config'.

Lemma count_operation_roomier (s : VM) :
  budget_error (count_operation config s) = false →
  count_operation config' s = count_operation config s.
Proof.
  destruct room as (H & _). unfold count_operation.
  destruct (operation_counter s >=? max_operations config) eqn:E;
    [discriminate|].
  now assert ((operation_counter s >=? max_operations config') = false)
    as -> by lia.
Qed.

Lemma op_push_roomier (v : Value) (s : VM) :
  budget_error (op_push repr_block config v s) = false →
  op_push repr_block config' v s = op_push repr_block config v s.
Proof.
  destruct room as (_ & H & _). unfold op_push.
  destruct (len (stack s) >=? max_stack_depth config) eqn:E;
    [discriminate|].
  now assert ((len (stack s) >=? max_stack_depth config') = false)
    as -> by lia.
Qed.

Lemma op_bind_roomier (k v : Value) (s : VM) :
  budget_error (op_bind repr_block config k v s) = false →
  op_bind repr_block config' k v s = op_bind repr_block config k v s.
Proof.
  destruct room as (_ & _ & _ & H & _). unfold op_bind.
  destruct (dict_len (bindings s) >=? max_bindings config) eqn:E;
    [discriminate|].
  now assert ((dict_len (bindings s) >=? max_bindings config') = false)
    as -> by lia.
Qed.

Lemma op_witness_roomier (s : VM) : op_witness config' s = op_witness config s.
Proof.
  destruct room as (_ & _ & _ & _ & H). unfold op_witness. now rewrite H.
Qed.

Lemma block_of_str_roomier (t : string) (s : VM) :
  budget_error (block_of_str config t s) = false →
  block_of_str config' t s = block_of_str config t s.
Proof.
  destruct t as [|c t]; cbn; [reflexivity|]. intros H.
  rewrite count_operation_roomier; [reflexivity|].
  now destruct (count_operation config s).
Qed.

Section Loop.

Variables block block' : VM → Completion.
Hypothesis block_roomier :
  ∀ s, budget_error (block s) = false → block' s = block s.

Lemma saturate_loop_roomier (fuel : nat) :
  ∀ (fuel' : nat) (iteration : Z) (s : VM),
    (Z.to_nat (max_saturate_iterations config - iteration) <= fuel)%nat →
    (fuel <= fuel')%nat →
    budget_error (saturate_loop config block fuel iteration s).2 = false →
    (∀ s', (saturate_loop config block fuel iteration s).2 = Normal s' →
           (saturate_loop config block fuel iteration s).1
           < max_saturate_iterations config) →
    saturate_loop config' block' fuel' iteration s
    = saturate_loop config block fuel iteration s.
Proof.
  destruct room as (_ & _ & Hmax & _).
  induction fuel as [|fuel IH]; intros fuel' iteration s Hfuel Hle;
    cbn [saturate_loop].
  - intros _ Hlt. specialize (Hlt s eq_refl). cbn in Hlt. lia.
  - destruct fuel' as [|fuel']; [lia|]. cbn [saturate_loop].
    destruct (iteration <? max_saturate_iterations config) eqn:E.
    + assert ((iteration <? max_saturate_iterations config') = true)
        as -> by lia.
      destruct (block s) as [s1|e s1] eqn:B.
      * rewrite block_roomier by now rewrite B. rewrite B.
        destruct (states_equal _ _); [reflexivity|].
        intros Herr Hlt. apply IH; [lia|lia|exact Herr|exact Hlt].
      * intros Herr _.
        rewrite block_roomier by (rewrite B; now destruct e). now rewrite B.
    + intros _ Hlt. specialize (Hlt s eq_refl). cbn in Hlt. lia.
Qed.

Lemma op_saturate_roomier (s : VM) :
  budget_error (op_saturate config block s) = false →
  op_saturate config' block' s = op_saturate config block s.
Proof.
  destruct room as (_ & _ & Hmax & _). unfold op_saturate. intros Herr.
  rewrite (saturate_loop_roomier (Z.to_nat (max_saturate_iterations config))
             (Z.to_nat (max_saturate_iterations config')) 0 s);
    [| lia | lia | |].
  - destruct (saturate_loop config block _ 0 s) as [iteration [s1|e s1]];
      [|reflexivity].
    destruct (iteration >=? max_saturate_iterations config) eqn:E;
      [discriminate|].
    now assert ((iteration >=? max_saturate_iterations config') = false)
      as -> by lia.
  - destruct (saturate_loop config block _ 0 s) as [iteration [s1|e s1]];
      [reflexivity|exact Herr].
  - intros s' Hs'.
    destruct (saturate_loop config block _ 0 s) as [iteration c];
      cbn in Hs' |- *. subst c.
    destruct (iteration >=? max_saturate_iterations config) eqn:E;
      [discriminate|lia].
Qed.

End Loop.

Local Abbreviation roomier_run op :=
  (∀ s, budget_error (execute_operation repr_block config op s) = false →
        execute_operation repr_block config' op s
        = execute_operation repr_block config op s).

Lemma execute_block_roomier (ops : list Operation) :
  Forall (λ op, roomier_run op) ops →
  ∀ s, budget_error (execute_block repr_block config ops s) = false →
       execute_block repr_block config' ops s
       = execute_block repr_block config ops s.
Proof.
  induction 1 as [|op ops Hop _ IH]; intros s; cbn; [reflexivity|].
  specialize (Hop s).
  destruct (execute_operation repr_block config op s) as [s1|e s1];
    intros Herr.
  - rewrite Hop by reflexivity. now apply IH.
  - now rewrite Hop.
Qed.

Lemma execute_operation_roomier (op : Operation) : roomier_run op.
Proof.
  induction op as [o args l IH] using Operation_nested_ind; intros s.
  rewrite !execute_operation_dispatch. cbn [operator arguments].
  destruct (count_operation config s) as [s1|e s1] eqn:C.
  - rewrite count_operation_roomier by now rewrite C. rewrite C.
    unfold dispatch.
    repeat match goal with
           | |- context [String.eqb o ?k] => destruct (String.eqb o k)
           end;
      try reflexivity;
      try (destruct args as [|a0 [|a1 args]]; try reflexivity);
      auto using op_push_roomier, op_bind_roomier, op_witness_roomier.
    all: inversion IH as [|? ? Ha0 _]; subst;
      apply op_saturate_roomier; intros s0;
      destruct a0 as [t [c|n|ops]]; cbn in *;
      [apply block_of_str_roomier|reflexivity
      |now apply execute_block_roomier].
  - intros Herr. rewrite count_operation_roomier by now rewrite C.
    now rewrite C.
Qed.

Lemma execute_operations_roomier (ops : list Operation) (s : VM) :
  budget_error (execute_operations repr_block config ops s) = false →
  execute_operations repr_block config' ops s
  = execute_operations repr_block config ops s.
Proof.
  revert s. induction ops as [|op ops IH]; intros s; cbn; [reflexivity|].
  destruct (halted s); [reflexivity|].
  pose proof (execute_operation_roomier op s) as Hop.
  destruct (execute_operation repr_block config op s) as [s1|e s1];
    intros Herr.
  - rewrite Hop by reflexivity. now apply IH.
  - now rewrite Hop.
Qed.

Lemma execute_phases_roomier (ps : list Phase) (s : VM) :
  budget_error (execute_phases repr_block config ps s) = false →
  execute_phases repr_block config' ps s
  = execute_phases repr_block config ps s.
Proof.
  revert s. induction ps as [|p ps IH]; intros s; cbn; [reflexivity|].
  destruct (halted s); [reflexivity|]. unfold execute_phase.
  match goal with
  | |- context [execute_operations _ config _ ?s0] =>
      pose proof (execute_operations_roomier (operations p) s0) as Hp
  end.
  destruct (execute_operations repr_block config _ _) as [s1|e s1];
    intros Herr.
  - rewrite Hp by reflexivity. now apply IH.
  - now rewrite Hp.
Qed.

End Roomier.

(** X21.  Limits matter only when they are hit.  A run that ends with none
    of the four statuses for a limit ([ERR_STACK_OVERFLOW],
    [ERR_BINDINGS_OVERFLOW], [TERM_CYCLE_LIMIT], [TERM_OP_LIMIT]) has the
    same outcome, counters, state and trace included, under every
    configuration with the same or larger limits and the same setting of
    the trace. *)
Theorem larger_limits_same_outcome (repr_block : list Operation → string)
    (config config' : VMConfig) (program : Program) :
  roomier config config' →
  within_limits (execute repr_block config program) = true →
  execute repr_block config' program = execute repr_block config program.
Proof.
  intros Hroom. unfold execute.
  pose proof (execute_phases_roomier repr_block config config' Hroom
                (phases program) reset) as H.
  unfold make_result.
  destruct Hroom as (_ & _ & _ & _ & ->).
  destruct (execute_phases repr_block config (phases program) reset)
    as [s|e s].
  - intros _. now rewrite H.
  - destruct e; cbn; try discriminate; intros _; now rewrite H.
Qed.

Lemma larger_limits_same_outcome_witness :
  (roomier two_symbols_config default_config
   ∧ within_limits (execute repr_unused two_symbols_config push_halt_program)
     = true)
  ∧ execute repr_unused default_config push_halt_program
    = execute repr_unused two_symbols_config push_halt_program.
Proof.
  assert (H1 : roomier two_symbols_config default_config).
  { unfold roomier; cbn. repeat split; lia. }
  assert (H2 : within_limits
                 (execute repr_unused two_symbols_config push_halt_program)
               = true) by reflexivity.
  split; [split; assumption|].
  exact (larger_limits_same_outcome repr_unused two_symbols_config
           default_config push_halt_program H1 H2).
Defined.

(** ** The lines of the tokens after a comment *)

Section CommentLines.

Import Tokenizer.

Lemma span_run (p : ascii → bool) (text : string) (c : ascii)
    (rest : string) :
  all_chars p text = true → p c = false →
  span p (text +:+ String c rest) = (text, String c rest).
Proof.
  intros Hall Hc. induction text as [|d text IH].
  - change (EmptyString +:+ String c rest) with (String c rest).
    cbn [span]. now rewrite Hc.
  - change (String d text +:+ String c rest)
      with (String d (text +:+ String c rest)).
    cbn in Hall. apply andb_prop in Hall as [Hd Hall].
    cbn [span]. now rewrite Hd, (IH Hall).
Qed.

Lemma first_match_blank (c : ascii) (r : string) :
  is_blank c = true →
  first_match TOKEN_PATTERNS (String c r)
  = Some ("WHITESPACE", String c (span is_blank r).1, (span is_blank r).2).
Proof.
  destruct c as [[] [] [] [] [] [] [] []]; intros H;
    first [ vm_compute in H; discriminate H
          | unfold TOKEN_PATTERNS, first_match, re_plus, re_first_rest,
              re_char, re_string; cbn;
            destruct (span is_blank r); reflexivity ].
Qed.

Lemma append_cons (d : ascii) (s t : string) :
  String d s +:+ t = String d (s +:+ t).
Proof. reflexivity. Qed.

Lemma append_snoc (cur : string) (c : ascii) (r : string) :
  (cur +:+ String c EmptyString) +:+ r = cur +:+ String c r.
Proof.
  induction cur as [|d cur IH]; [reflexivity|].
  now rewrite !append_cons, IH.
Qed.

Lemma append_empty (cur : string) : cur +:+ EmptyString = cur.
Proof.
  induction cur as [|d cur IH]; [reflexivity|].
  now rewrite append_cons, IH.
Qed.

Lemma length_append (s t : string) :
  String.length (s +:+ t) = (String.length s + String.length t)%nat.
Proof.
  induction s as [|d s IH]; [reflexivity|].
  rewrite append_cons. cbn [String.length]. now rewrite IH.
Qed.

Lemma last_line_no_newline (cur text : string) :
  PyStr.count newline text = 0 → last_line cur text = cur +:+ text.
Proof.
  revert cur. induction text as [|c r IH]; intros cur;
    cbn [PyStr.count last_line].
  - intros _. now rewrite append_empty.
  - pose proof (count_nonneg newline r) as Hr.
    rewrite (Ascii.eqb_sym c newline).
    destruct (Ascii.eqb newline c); [lia|].
    intros H. rewrite IH by lia. apply append_snoc.
Qed.

Lemma span_length (p : ascii → bool) (s : string) :
  (String.length (span p s).1 + String.length (span p s).2
   = String.length s)%nat.
Proof.
  induction s as [|c r IH]; cbn; [reflexivity|].
  destruct (p c); cbn; [|reflexivity].
  destruct (span p r) as [a b]; cbn in *. lia.
Qed.

(** The white space at the start of a text moves the position and gives no
    token. *)
Lemma scan_blanks (fuel : nat) (s : string) (line column : Z) :
  (String.length s <= fuel)%nat →
  scan fuel s line column
  = scan fuel (span is_blank s).2
      (line + PyStr.count newline (span is_blank s).1)
      (if 0 <? PyStr.count newline (span is_blank s).1
       then len (last_line EmptyString (span is_blank s).1) + 1
       else column + len (span is_blank s).1).
Proof.
  intros Hfuel. destruct s as [|c r].
  - cbn. rewrite !Z.add_0_r. reflexivity.
  - cbn [span]. destruct (is_blank c) eqn:Hc.
    + destruct fuel as [|fuel]; [cbn in Hfuel; lia|].
      pose proof (span_length is_blank r) as Hlen.
      destruct (span is_blank r) as [a b] eqn:Hspan; cbn [fst snd] in *.
      cbn [String.length] in Hfuel.
      rewrite (scan_fuel (S fuel) fuel b) by lia.
      cbn [scan]. rewrite (first_match_blank c r Hc), Hspan.
      reflexivity.
    + cbn. rewrite !Z.add_0_r. reflexivity.
Qed.

Lemma scan_shift_line (n : Z) (fuel : nat) :
  ∀ (s : string) (line column : Z),
    scan fuel s (line + n) column
    = map (shift_line n) (scan fuel s line column).
Proof.
  induction fuel as [|fuel IH]; intros s line column; [reflexivity|].
  cbn [scan]. destruct s as [|c next]; [reflexivity|].
  destruct (first_match TOKEN_PATTERNS (String c next))
    as [[[token_type text] rest]|]; [|apply IH].
  destruct (String.eqb token_type "WHITESPACE").
  { rewrite <- IH. f_equal. lia. }
  destruct (String.eqb token_type "COMMENT").
  { rewrite <- IH. f_equal. lia. }
  cbn [map shift_line]. now rewrite IH.
Qed.

Lemma tokenize_comment_line (text rest : string) :
  all_chars not_newline text = true →
  tokenize (comment_line text +:+ rest)
  = map (shift_line 2) (tokenize rest).
Proof.
  intros Htext. unfold tokenize, comment_line.
  change (String "#" (text +:+ String newline EmptyString) +:+ rest)
    with (String "#"%char ((text +:+ String newline EmptyString) +:+ rest)).
  rewrite append_snoc.
  set (source := String "#"%char (text +:+ String newline rest)).
  assert (Hmatch : first_match TOKEN_PATTERNS source
                   = Some ("COMMENT", String "#"%char text,
                           String newline rest)).
  { unfold source, TOKEN_PATTERNS, first_match, re_first_rest.
    cbn [Ascii.eqb Bool.eqb].
    now rewrite (span_run (λ c, negb (Ascii.eqb c newline)) text newline
                   rest Htext eq_refl). }
  assert (Hlen : String.length source
                 = S (String.length text + S (String.length rest))).
  { unfold source. cbn [String.length]. now rewrite length_append. }
  rewrite Hlen. cbn [scan]. fold source. rewrite Hmatch.
  cbn [String.eqb Ascii.eqb Bool.eqb].
  rewrite scan_blanks by (cbn; lia).
  rewrite (scan_blanks (String.length rest) rest 1 1) by lia.
  cbn [span]. change (is_blank newline) with true. cbn iota.
  pose proof (span_length is_blank rest) as Hspan.
  pose proof (last_line_no_newline EmptyString (span is_blank rest).1) as Hl.
  destruct (span is_blank rest) as [a b]; cbn [fst snd] in *.
  pose proof (count_nonneg newline a) as Hcount.
  change (PyStr.count newline (String newline a))
    with (1 + PyStr.count newline a).
  change (last_line EmptyString (String newline a))
    with (last_line EmptyString a).
  assert ((0 <? 1 + PyStr.count newline a) = true) as -> by lia.
  replace (1 + 1 + (1 + PyStr.count newline a))
    with (1 + PyStr.count newline a + 2) by lia.
  rewrite scan_shift_line. f_equal.
  rewrite (scan_fuel _ (String.length rest)) by lia.
  f_equal.
  destruct (0 <? PyStr.count newline a) eqn:E; [reflexivity|].
  rewrite Hl by lia. change (EmptyString +:+ a) with a. lia.
Qed.

End CommentLines.

(** X22.  A comment counts as a line of its own, and the newline that ends
    it as another: the tokens of a source after a comment line are those of
    the source without it, each reported two lines further down, not one, at
    the same column. *)
Theorem comment_line_counts_twice (text rest : string) :
  all_chars not_newline text = true →
  Tokenizer.tokenize (comment_line text +:+ rest)
  = map (shift_line 2) (Tokenizer.tokenize rest).
Proof. apply tokenize_comment_line. Qed.

Lemma comment_line_counts_twice_witness :
  all_chars not_newline " first" = true
  ∧ Tokenizer.tokenize (comment_line " first" +:+ "A { HALT }")
    = [("KEYWORD", "A", 3, 1); ("LBRACE", "{", 3, 3);
       ("KEYWORD", "HALT", 3, 5); ("RBRACE", "}", 3, 10)].
Proof.
  assert (H : all_chars not_newline " first" = true) by reflexivity.
  split; [exact H|].
  exact (comment_line_counts_twice " first" "A { HALT }" H).
Defined.
